(** * SafeBank Router: coverage aggregation and fund routing

    A shallow embedding of the domain logic of the repository:
    - the mock-account classifier ([inferTypeFromProduct], [inferCurrency]),
    - the KDIC catalog index and its key normalisation ([key], [loadKDIC]),
    - the coverage aggregator (the [GET] handler of the coverage route),
    - the client-side routing allocator ([computeRouting]) and the
      recomputation of the rows when the limit is toggled ([adjusted]).

    Conventions of the embedding.
    - A JavaScript string is the list of its UTF-16 code units ([list N]).
    - Amounts are whole currency units ([Z]); JavaScript numbers are exact
      on integers of this size.  Rates (annual rate, exchange rate) and
      random draws are rationals ([Q]) and the arithmetic on them is
      exact; [Math.round] is [floor (x + 1/2)].  JavaScript rounds every
      product and sum of such numbers to the nearest binary floating
      point number, so where the exact value lies within that rounding
      of a half or of a whole number, the code can round to the
      neighbouring integer: [projectedInterest] and [toKRW] at a
      fractional rate can differ by one from the value computed here,
      and [rnd] can return one more (see [Mydata.rnd]).  With a
      whole-number rate the product is a whole number and both agree.
    - [String.prototype.toLowerCase] is the default lower-case conversion
      of Unicode on the code points of the string, with the tables of
      Unicode 14.0 (the Hangul of the data has no case).
    - [Set<string>] is a [gset], the plain object [usedByLicense] a [gmap],
      the insertion-ordered [Map<string, CoverageRow>] a list of rows in
      insertion order with at most one row per key. *)

From Stdlib Require Import ZArith QArith Qround List Lia Lqa Bool Permutation Sorted.
From stdpp Require Import base option gmap.
Import ListNotations.

#[local] Open Scope Z_scope.

Abbreviation jsstring := (list N) (only parsing).

(* ================================================================== *)
(** ** JavaScript string helpers *)

Module Js.

(** [s.startsWith(p)] on code units. *)
Fixpoint startsWith (p s : jsstring) : bool :=
  match p, s with
  | [], _ => true
  | _ :: _, [] => false
  | a :: p', b :: s' => N.eqb a b && startsWith p' s'
  end.

(** [s.includes(p)]: [p] occurs in [s] as a contiguous block. *)
Fixpoint includes (p s : jsstring) : bool :=
  startsWith p s ||
  match s with
  | [] => false
  | _ :: s' => includes p s'
  end.

(** [/(k1|k2|...)/.test(s)] for literal alternatives. *)
Definition test (alts : list jsstring) (s : jsstring) : bool :=
  existsb (fun kw => includes kw s) alts.

(** Canonicalisation of a code unit under the [i] flag (no [u] flag):
    the upper-case form when it is a single code unit, and never a map
    from a non-ASCII unit to an ASCII one.  The patterns of this
    program under [i] only hold the letters U, S, D and Hangul, for
    which this coincides with mapping a-z to A-Z. *)
Definition canonicalize (c : N) : N :=
  if (97 <=? c)%N && (c <=? 122)%N then (c - 32)%N else c.

(** [/(k1|k2|...)/i.test(s)]. *)
Definition test_i (alts : list jsstring) (s : jsstring) : bool :=
  existsb (fun kw => includes (map canonicalize kw) (map canonicalize s)) alts.

(** *** Case conversion

    [String.prototype.toLowerCase] reads the string as a sequence of
    code points (a high surrogate followed by a low surrogate is one
    code point, any other code unit stands for itself) and converts it
    by the default lower-case conversion of Unicode, which does not
    depend on the locale: every code point is replaced by its
    lower-case mapping, one of them by two code points (U+0130), and
    capital sigma by the final or the medial small sigma according to
    the cased letters around it.  The three tables are those of
    Unicode 14.0; a code point assigned later has no mapping here. *)

(** The lower-case mappings of a single code point: a row
    [(first, last, step, target)] maps [first], [first + step], ... up
    to [last] to [target], [target + step], ... *)
Definition lowerTable : list (N * N * N * N) :=
  [
    (65, 90, 1, 97); (192, 214, 1, 224); (216, 222, 1, 248);
    (256, 302, 2, 257); (306, 310, 2, 307); (313, 327, 2, 314);
    (330, 374, 2, 331); (376, 376, 1, 255); (377, 381, 2, 378);
    (385, 385, 1, 595); (386, 388, 2, 387); (390, 390, 1, 596);
    (391, 391, 1, 392); (393, 394, 1, 598); (395, 395, 1, 396);
    (398, 398, 1, 477); (399, 399, 1, 601); (400, 400, 1, 603);
    (401, 401, 1, 402); (403, 403, 1, 608); (404, 404, 1, 611);
    (406, 406, 1, 617); (407, 407, 1, 616); (408, 408, 1, 409);
    (412, 412, 1, 623); (413, 413, 1, 626); (415, 415, 1, 629);
    (416, 420, 2, 417); (422, 422, 1, 640); (423, 423, 1, 424);
    (425, 425, 1, 643); (428, 428, 1, 429); (430, 430, 1, 648);
    (431, 431, 1, 432); (433, 434, 1, 650); (435, 437, 2, 436);
    (439, 439, 1, 658); (440, 440, 1, 441); (444, 444, 1, 445);
    (452, 452, 1, 454); (453, 453, 1, 454); (455, 455, 1, 457);
    (456, 456, 1, 457); (458, 458, 1, 460); (459, 475, 2, 460);
    (478, 494, 2, 479); (497, 497, 1, 499); (498, 500, 2, 499);
    (502, 502, 1, 405); (503, 503, 1, 447); (504, 542, 2, 505);
    (544, 544, 1, 414); (546, 562, 2, 547); (570, 570, 1, 11365);
    (571, 571, 1, 572); (573, 573, 1, 410); (574, 574, 1, 11366);
    (577, 577, 1, 578); (579, 579, 1, 384); (580, 580, 1, 649);
    (581, 581, 1, 652); (582, 590, 2, 583); (880, 882, 2, 881);
    (886, 886, 1, 887); (895, 895, 1, 1011); (902, 902, 1, 940);
    (904, 906, 1, 941); (908, 908, 1, 972); (910, 911, 1, 973);
    (913, 929, 1, 945); (931, 939, 1, 963); (975, 975, 1, 983);
    (984, 1006, 2, 985); (1012, 1012, 1, 952); (1015, 1015, 1, 1016);
    (1017, 1017, 1, 1010); (1018, 1018, 1, 1019); (1021, 1023, 1, 891);
    (1024, 1039, 1, 1104); (1040, 1071, 1, 1072); (1120, 1152, 2, 1121);
    (1162, 1214, 2, 1163); (1216, 1216, 1, 1231); (1217, 1229, 2, 1218);
    (1232, 1326, 2, 1233); (1329, 1366, 1, 1377); (4256, 4293, 1, 11520);
    (4295, 4295, 1, 11559); (4301, 4301, 1, 11565); (5024, 5103, 1, 43888);
    (5104, 5109, 1, 5112); (7312, 7354, 1, 4304); (7357, 7359, 1, 4349);
    (7680, 7828, 2, 7681); (7838, 7838, 1, 223); (7840, 7934, 2, 7841);
    (7944, 7951, 1, 7936); (7960, 7965, 1, 7952); (7976, 7983, 1, 7968);
    (7992, 7999, 1, 7984); (8008, 8013, 1, 8000); (8025, 8031, 2, 8017);
    (8040, 8047, 1, 8032); (8072, 8079, 1, 8064); (8088, 8095, 1, 8080);
    (8104, 8111, 1, 8096); (8120, 8121, 1, 8112); (8122, 8123, 1, 8048);
    (8124, 8124, 1, 8115); (8136, 8139, 1, 8050); (8140, 8140, 1, 8131);
    (8152, 8153, 1, 8144); (8154, 8155, 1, 8054); (8168, 8169, 1, 8160);
    (8170, 8171, 1, 8058); (8172, 8172, 1, 8165); (8184, 8185, 1, 8056);
    (8186, 8187, 1, 8060); (8188, 8188, 1, 8179); (8486, 8486, 1, 969);
    (8490, 8490, 1, 107); (8491, 8491, 1, 229); (8498, 8498, 1, 8526);
    (8544, 8559, 1, 8560); (8579, 8579, 1, 8580); (9398, 9423, 1, 9424);
    (11264, 11311, 1, 11312); (11360, 11360, 1, 11361);
    (11362, 11362, 1, 619); (11363, 11363, 1, 7549); (11364, 11364, 1, 637);
    (11367, 11371, 2, 11368); (11373, 11373, 1, 593);
    (11374, 11374, 1, 625); (11375, 11375, 1, 592); (11376, 11376, 1, 594);
    (11378, 11378, 1, 11379); (11381, 11381, 1, 11382);
    (11390, 11391, 1, 575); (11392, 11490, 2, 11393);
    (11499, 11501, 2, 11500); (11506, 11506, 1, 11507);
    (42560, 42604, 2, 42561); (42624, 42650, 2, 42625);
    (42786, 42798, 2, 42787); (42802, 42862, 2, 42803);
    (42873, 42875, 2, 42874); (42877, 42877, 1, 7545);
    (42878, 42886, 2, 42879); (42891, 42891, 1, 42892);
    (42893, 42893, 1, 613); (42896, 42898, 2, 42897);
    (42902, 42920, 2, 42903); (42922, 42922, 1, 614);
    (42923, 42923, 1, 604); (42924, 42924, 1, 609); (42925, 42925, 1, 620);
    (42926, 42926, 1, 618); (42928, 42928, 1, 670); (42929, 42929, 1, 647);
    (42930, 42930, 1, 669); (42931, 42931, 1, 43859);
    (42932, 42946, 2, 42933); (42948, 42948, 1, 42900);
    (42949, 42949, 1, 642); (42950, 42950, 1, 7566);
    (42951, 42953, 2, 42952); (42960, 42960, 1, 42961);
    (42966, 42968, 2, 42967); (42997, 42997, 1, 42998);
    (65313, 65338, 1, 65345); (66560, 66599, 1, 66600);
    (66736, 66771, 1, 66776); (66928, 66938, 1, 66967);
    (66940, 66954, 1, 66979); (66956, 66962, 1, 66995);
    (66964, 66965, 1, 67003); (68736, 68786, 1, 68800);
    (71840, 71871, 1, 71872); (93760, 93791, 1, 93792);
    (125184, 125217, 1, 125218)
  ]%N.

(** The code points that are cased and not case-ignorable. *)
Definition casedTable : list (N * N) :=
  [
    (65, 90); (97, 122); (170, 170); (181, 181); (186, 186); (192, 214);
    (216, 246); (248, 442); (444, 447); (452, 659); (661, 687); (880, 883);
    (886, 887); (891, 893); (895, 895); (902, 902); (904, 906); (908, 908);
    (910, 929); (931, 1013); (1015, 1153); (1162, 1327); (1329, 1366);
    (1376, 1416); (4256, 4293); (4295, 4295); (4301, 4301); (4304, 4346);
    (4349, 4351); (5024, 5109); (5112, 5117); (7296, 7304); (7312, 7354);
    (7357, 7359); (7424, 7467); (7531, 7543); (7545, 7578); (7680, 7957);
    (7960, 7965); (7968, 8005); (8008, 8013); (8016, 8023); (8025, 8025);
    (8027, 8027); (8029, 8029); (8031, 8061); (8064, 8116); (8118, 8124);
    (8126, 8126); (8130, 8132); (8134, 8140); (8144, 8147); (8150, 8155);
    (8160, 8172); (8178, 8180); (8182, 8188); (8450, 8450); (8455, 8455);
    (8458, 8467); (8469, 8469); (8473, 8477); (8484, 8484); (8486, 8486);
    (8488, 8488); (8490, 8493); (8495, 8500); (8505, 8505); (8508, 8511);
    (8517, 8521); (8526, 8526); (8544, 8575); (8579, 8580); (9398, 9449);
    (11264, 11387); (11390, 11492); (11499, 11502); (11506, 11507);
    (11520, 11557); (11559, 11559); (11565, 11565); (42560, 42605);
    (42624, 42651); (42786, 42863); (42865, 42887); (42891, 42894);
    (42896, 42954); (42960, 42961); (42963, 42963); (42965, 42969);
    (42997, 42998); (43002, 43002); (43824, 43866); (43872, 43880);
    (43888, 43967); (64256, 64262); (64275, 64279); (65313, 65338);
    (65345, 65370); (66560, 66639); (66736, 66771); (66776, 66811);
    (66928, 66938); (66940, 66954); (66956, 66962); (66964, 66965);
    (66967, 66977); (66979, 66993); (66995, 67001); (67003, 67004);
    (68736, 68786); (68800, 68850); (71840, 71903); (93760, 93823);
    (119808, 119892); (119894, 119964); (119966, 119967); (119970, 119970);
    (119973, 119974); (119977, 119980); (119982, 119993); (119995, 119995);
    (119997, 120003); (120005, 120069); (120071, 120074); (120077, 120084);
    (120086, 120092); (120094, 120121); (120123, 120126); (120128, 120132);
    (120134, 120134); (120138, 120144); (120146, 120485); (120488, 120512);
    (120514, 120538); (120540, 120570); (120572, 120596); (120598, 120628);
    (120630, 120654); (120656, 120686); (120688, 120712); (120714, 120744);
    (120746, 120770); (120772, 120779); (122624, 122633); (122635, 122654);
    (125184, 125251); (127280, 127305); (127312, 127337); (127344, 127369)
  ]%N.

(** The case-ignorable code points. *)
Definition caseIgnorableTable : list (N * N) :=
  [
    (39, 39); (46, 46); (58, 58); (94, 94); (96, 96); (168, 168);
    (173, 173); (175, 175); (180, 180); (183, 184); (688, 879); (884, 885);
    (890, 890); (900, 901); (903, 903); (1155, 1161); (1369, 1369);
    (1375, 1375); (1425, 1469); (1471, 1471); (1473, 1474); (1476, 1477);
    (1479, 1479); (1524, 1524); (1536, 1541); (1552, 1562); (1564, 1564);
    (1600, 1600); (1611, 1631); (1648, 1648); (1750, 1757); (1759, 1768);
    (1770, 1773); (1807, 1807); (1809, 1809); (1840, 1866); (1958, 1968);
    (2027, 2037); (2042, 2042); (2045, 2045); (2070, 2093); (2137, 2139);
    (2184, 2184); (2192, 2193); (2200, 2207); (2249, 2306); (2362, 2362);
    (2364, 2364); (2369, 2376); (2381, 2381); (2385, 2391); (2402, 2403);
    (2417, 2417); (2433, 2433); (2492, 2492); (2497, 2500); (2509, 2509);
    (2530, 2531); (2558, 2558); (2561, 2562); (2620, 2620); (2625, 2626);
    (2631, 2632); (2635, 2637); (2641, 2641); (2672, 2673); (2677, 2677);
    (2689, 2690); (2748, 2748); (2753, 2757); (2759, 2760); (2765, 2765);
    (2786, 2787); (2810, 2815); (2817, 2817); (2876, 2876); (2879, 2879);
    (2881, 2884); (2893, 2893); (2901, 2902); (2914, 2915); (2946, 2946);
    (3008, 3008); (3021, 3021); (3072, 3072); (3076, 3076); (3132, 3132);
    (3134, 3136); (3142, 3144); (3146, 3149); (3157, 3158); (3170, 3171);
    (3201, 3201); (3260, 3260); (3263, 3263); (3270, 3270); (3276, 3277);
    (3298, 3299); (3328, 3329); (3387, 3388); (3393, 3396); (3405, 3405);
    (3426, 3427); (3457, 3457); (3530, 3530); (3538, 3540); (3542, 3542);
    (3633, 3633); (3636, 3642); (3654, 3662); (3761, 3761); (3764, 3772);
    (3782, 3782); (3784, 3789); (3864, 3865); (3893, 3893); (3895, 3895);
    (3897, 3897); (3953, 3966); (3968, 3972); (3974, 3975); (3981, 3991);
    (3993, 4028); (4038, 4038); (4141, 4144); (4146, 4151); (4153, 4154);
    (4157, 4158); (4184, 4185); (4190, 4192); (4209, 4212); (4226, 4226);
    (4229, 4230); (4237, 4237); (4253, 4253); (4348, 4348); (4957, 4959);
    (5906, 5908); (5938, 5939); (5970, 5971); (6002, 6003); (6068, 6069);
    (6071, 6077); (6086, 6086); (6089, 6099); (6103, 6103); (6109, 6109);
    (6155, 6159); (6211, 6211); (6277, 6278); (6313, 6313); (6432, 6434);
    (6439, 6440); (6450, 6450); (6457, 6459); (6679, 6680); (6683, 6683);
    (6742, 6742); (6744, 6750); (6752, 6752); (6754, 6754); (6757, 6764);
    (6771, 6780); (6783, 6783); (6823, 6823); (6832, 6862); (6912, 6915);
    (6964, 6964); (6966, 6970); (6972, 6972); (6978, 6978); (7019, 7027);
    (7040, 7041); (7074, 7077); (7080, 7081); (7083, 7085); (7142, 7142);
    (7144, 7145); (7149, 7149); (7151, 7153); (7212, 7219); (7222, 7223);
    (7288, 7293); (7376, 7378); (7380, 7392); (7394, 7400); (7405, 7405);
    (7412, 7412); (7416, 7417); (7468, 7530); (7544, 7544); (7579, 7679);
    (8125, 8125); (8127, 8129); (8141, 8143); (8157, 8159); (8173, 8175);
    (8189, 8190); (8203, 8207); (8216, 8217); (8228, 8228); (8231, 8231);
    (8234, 8238); (8288, 8292); (8294, 8303); (8305, 8305); (8319, 8319);
    (8336, 8348); (8400, 8432); (11388, 11389); (11503, 11505);
    (11631, 11631); (11647, 11647); (11744, 11775); (11823, 11823);
    (12293, 12293); (12330, 12333); (12337, 12341); (12347, 12347);
    (12441, 12446); (12540, 12542); (40981, 40981); (42232, 42237);
    (42508, 42508); (42607, 42610); (42612, 42621); (42623, 42623);
    (42652, 42655); (42736, 42737); (42752, 42785); (42864, 42864);
    (42888, 42890); (42994, 42996); (43000, 43001); (43010, 43010);
    (43014, 43014); (43019, 43019); (43045, 43046); (43052, 43052);
    (43204, 43205); (43232, 43249); (43263, 43263); (43302, 43309);
    (43335, 43345); (43392, 43394); (43443, 43443); (43446, 43449);
    (43452, 43453); (43471, 43471); (43493, 43494); (43561, 43566);
    (43569, 43570); (43573, 43574); (43587, 43587); (43596, 43596);
    (43632, 43632); (43644, 43644); (43696, 43696); (43698, 43700);
    (43703, 43704); (43710, 43711); (43713, 43713); (43741, 43741);
    (43756, 43757); (43763, 43764); (43766, 43766); (43867, 43871);
    (43881, 43883); (44005, 44005); (44008, 44008); (44013, 44013);
    (64286, 64286); (64434, 64450); (65024, 65039); (65043, 65043);
    (65056, 65071); (65106, 65106); (65109, 65109); (65279, 65279);
    (65287, 65287); (65294, 65294); (65306, 65306); (65342, 65342);
    (65344, 65344); (65392, 65392); (65438, 65439); (65507, 65507);
    (65529, 65531); (66045, 66045); (66272, 66272); (66422, 66426);
    (67456, 67461); (67463, 67504); (67506, 67514); (68097, 68099);
    (68101, 68102); (68108, 68111); (68152, 68154); (68159, 68159);
    (68325, 68326); (68900, 68903); (69291, 69292); (69446, 69456);
    (69506, 69509); (69633, 69633); (69688, 69702); (69744, 69744);
    (69747, 69748); (69759, 69761); (69811, 69814); (69817, 69818);
    (69821, 69821); (69826, 69826); (69837, 69837); (69888, 69890);
    (69927, 69931); (69933, 69940); (70003, 70003); (70016, 70017);
    (70070, 70078); (70089, 70092); (70095, 70095); (70191, 70193);
    (70196, 70196); (70198, 70199); (70206, 70206); (70367, 70367);
    (70371, 70378); (70400, 70401); (70459, 70460); (70464, 70464);
    (70502, 70508); (70512, 70516); (70712, 70719); (70722, 70724);
    (70726, 70726); (70750, 70750); (70835, 70840); (70842, 70842);
    (70847, 70848); (70850, 70851); (71090, 71093); (71100, 71101);
    (71103, 71104); (71132, 71133); (71219, 71226); (71229, 71229);
    (71231, 71232); (71339, 71339); (71341, 71341); (71344, 71349);
    (71351, 71351); (71453, 71455); (71458, 71461); (71463, 71467);
    (71727, 71735); (71737, 71738); (71995, 71996); (71998, 71998);
    (72003, 72003); (72148, 72151); (72154, 72155); (72160, 72160);
    (72193, 72202); (72243, 72248); (72251, 72254); (72263, 72263);
    (72273, 72278); (72281, 72283); (72330, 72342); (72344, 72345);
    (72752, 72758); (72760, 72765); (72767, 72767); (72850, 72871);
    (72874, 72880); (72882, 72883); (72885, 72886); (73009, 73014);
    (73018, 73018); (73020, 73021); (73023, 73029); (73031, 73031);
    (73104, 73105); (73109, 73109); (73111, 73111); (73459, 73460);
    (78896, 78904); (92912, 92916); (92976, 92982); (92992, 92995);
    (94031, 94031); (94095, 94111); (94176, 94177); (94179, 94180);
    (110576, 110579); (110581, 110587); (110589, 110590); (113821, 113822);
    (113824, 113827); (118528, 118573); (118576, 118598); (119143, 119145);
    (119155, 119170); (119173, 119179); (119210, 119213); (119362, 119364);
    (121344, 121398); (121403, 121452); (121461, 121461); (121476, 121476);
    (121499, 121503); (121505, 121519); (122880, 122886); (122888, 122904);
    (122907, 122913); (122915, 122916); (122918, 122922); (123184, 123197);
    (123566, 123566); (123628, 123631); (125136, 125142); (125252, 125259);
    (127995, 127999); (917505, 917505); (917536, 917631); (917760, 917999)
  ]%N.

Definition inRow (c : N) (r : N * N * N * N) : bool :=
  let '(lo, hi, step, _) := r in
  ((lo <=? c) && (c <=? hi) && ((c - lo) mod step =? 0))%N.

Definition simpleLower (c : N) : N :=
  match List.find (inRow c) lowerTable with
  | Some (lo, _, _, target) => (target + (c - lo))%N
  | None => c
  end.

(** The lower-case form of a code point out of context. *)
Definition lowerCodePoint (c : N) : list N :=
  if (c =? 304)%N then [105; 775]%N else [simpleLower c].

Definition inRanges (c : N) (t : list (N * N)) : bool :=
  existsb (fun r => (fst r <=? c) && (c <=? snd r))%N t.

Definition isCased (c : N) : bool := inRanges c casedTable.
Definition isCaseIgnorable (c : N) : bool := inRanges c caseIgnorableTable.

(** Going through [l], the first code point that is not case-ignorable
    is a cased letter. *)
Fixpoint meetsCased (l : list N) : bool :=
  match l with
  | [] => false
  | c :: l' => if isCaseIgnorable c then meetsCased l' else isCased c
  end.

(** The context of the final sigma: a cased letter before (going back
    from the sigma, [before] is in reverse order) and none after. *)
Definition finalSigma (before after : list N) : bool :=
  meetsCased before && negb (meetsCased after).

Fixpoint lowerLoop (before after : list N) : list N :=
  match after with
  | [] => []
  | c :: rest =>
      (if (c =? 931)%N
       then (if finalSigma before rest then [962%N] else [963%N])
       else lowerCodePoint c)
      ++ lowerLoop (c :: before) rest
  end.

Definition isHighSurrogate (c : N) : bool := ((55296 <=? c) && (c <=? 56319))%N.
Definition isLowSurrogate (c : N) : bool := ((56320 <=? c) && (c <=? 57343))%N.


(** The code points of a string of code units. *)
Fixpoint decode (s : jsstring) : list N :=
  match s with
  | [] => []
  | h :: s' =>
      match s' with
      | l :: s'' =>
          if isHighSurrogate h && isLowSurrogate l
          then (65536 + (h - 55296) * 1024 + (l - 56320))%N :: decode s''
          else h :: decode s'
      | [] => [h]
      end
  end.

(** The code units of a code point. *)
Definition encode (c : N) : jsstring :=
  if (c <? 65536)%N then [c]
  else [55296 + (c - 65536) / 1024; 56320 + (c - 65536) mod 1024]%N.

Definition toLowerCase (s : jsstring) : jsstring :=
  flat_map encode (lowerLoop [] (decode s)).

(** The class [\s]: WhiteSpace and LineTerminator code units. *)
Definition isWhiteSpace (c : N) : bool :=
  ((9 <=? c) && (c <=? 13) || (c =? 32) || (c =? 160) || (c =? 5760)
   || (8192 <=? c) && (c <=? 8202) || (c =? 8232) || (c =? 8233)
   || (c =? 8239) || (c =? 8287) || (c =? 12288) || (c =? 65279))%N.

Fixpoint trimStart (s : jsstring) : jsstring :=
  match s with
  | [] => []
  | c :: s' => if isWhiteSpace c then trimStart s' else s
  end.

Definition trimEnd (s : jsstring) : jsstring := rev (trimStart (rev s)).

(** [s.trim()]. *)
Definition trim (s : jsstring) : jsstring := trimEnd (trimStart s).

(** [Math.round]: nearest integer, halves towards plus infinity. *)
Definition Math_round (x : Q) : Z := Qfloor (x + (1 # 2)).

End Js.

(* ================================================================== *)
(** ** The CSV reader of the mock-account and coverage routes *)

Module Csv.

(** [s.replace(/^\uFEFF/, "")] *)
Definition stripBOM (s : jsstring) : jsstring :=
  match s with
  | c :: s' => if (c =? 65279)%N then s' else s
  | [] => []
  end.

(** The variables of [parseCsv]: the finished rows, the cells of the
    current row, the current cell, and the quote flag. *)
Record State := mkState {
  rows : list (list jsstring);
  row : list jsstring;
  cur : jsstring;
  inQuote : bool
}.

(** [if (cur.length || row.length) { row.push(cur); rows.push(row);
    row = []; cur = ""; }] *)
Definition flush (st : State) : State :=
  match cur st, row st with
  | [], [] => st
  | _, _ => mkState (rows st ++ [row st ++ [cur st]]) [] [] (inQuote st)
  end.

(** The [for] loop over the characters; [c] is the character at [i] and
    [n] the one after it; a step that does [i++] drops both. *)
Fixpoint loop (t : jsstring) (st : State) : State :=
  match t with
  | [] => st
  | c :: t' =>
      if (c =? 34)%N then
        match t' with
        | n :: t'' =>
            if inQuote st && (n =? 34)%N
            then loop t'' (mkState (rows st) (row st) (cur st ++ [34%N])
                             (inQuote st))
            else loop t' (mkState (rows st) (row st) (cur st)
                            (negb (inQuote st)))
        | [] => loop t' (mkState (rows st) (row st) (cur st)
                           (negb (inQuote st)))
        end
      else if (c =? 44)%N && negb (inQuote st) then
        loop t' (mkState (rows st) (row st ++ [cur st]) [] (inQuote st))
      else if ((c =? 10)%N || (c =? 13)%N) && negb (inQuote st) then
        let st' := flush st in
        match t' with
        | n :: t'' =>
            if (c =? 13)%N && (n =? 10)%N then loop t'' st' else loop t' st'
        | [] => loop t' st'
        end
      else loop t' (mkState (rows st) (row st) (cur st ++ [c]) (inQuote st))
  end.

Definition parseCsv (text : jsstring) : list (list jsstring) :=
  let t := stripBOM text in
  rows (flush (loop t (mkState [] [] [] false))).

(** [header.findIndex(f)]; [None] stands for -1. *)
Fixpoint findIndex (f : jsstring -> bool) (l : list jsstring) : option nat :=
  match l with
  | [] => None
  | h :: t => if f h then Some 0%nat else option_map S (findIndex f t)
  end.

(** [cols[idx] ?? ""], also for [idx = -1] and for a short row. *)
Definition cell (cols : list jsstring) (idx : option nat) : jsstring :=
  match idx with
  | Some i => nth i cols []
  | None => []
  end.

(** 금융회사명 *)
Definition instHeader : list jsstring :=
  [ [44552; 50997; 54924; 49324; 47749] ]%N.
(** 금융상품명 *)
Definition prodHeader : list jsstring :=
  [ [44552; 50997; 49345; 54408; 47749] ]%N.

End Csv.

(* ================================================================== *)
(** ** The product routes: the line-based CSV reader and the paging loop *)

Module Products.

(** [s.split(",")], with the cell read so far in [cur]. *)
Fixpoint splitAcc (s cur : jsstring) : list jsstring :=
  match s with
  | [] => [cur]
  | c :: s' =>
      if (c =? 44)%N then cur :: splitAcc s' [] else splitAcc s' (cur ++ [c])
  end.

Definition splitComma (s : jsstring) : list jsstring := splitAcc s [].

(** [raw.split(/[\r\n]+/).filter(Boolean)], with the line read so far in
    [cur]: the non-empty runs of characters other than CR and LF. *)
Fixpoint linesAcc (t cur : jsstring) : list jsstring :=
  match t with
  | [] => match cur with [] => [] | _ :: _ => [cur] end
  | c :: t' =>
      if (c =? 10)%N || (c =? 13)%N
      then match cur with
           | [] => linesAcc t' []
           | _ :: _ => cur :: linesAcc t' []
           end
      else linesAcc t' (cur ++ [c])
  end.

Definition lines (raw : jsstring) : list jsstring := linesAcc raw [].

(** A field of a row object: [null], [undefined] or a string. *)
Inductive Value :=
| Null
| Undefined
| Str (s : jsstring).

(** The row object with the fields 금융회사명, 금융상품명, 상품판매중단일자
    and 등록일. *)
Record Product := mkProduct {
  prod_company : Value;
  prod_name : Value;
  prod_discontinued : Value;
  prod_registered : Value
}.

(** [headers.indexOf(name)]; [None] stands for -1. *)
Definition indexOf (headers : list jsstring) (name : jsstring) : option nat :=
  Csv.findIndex (fun h => bool_decide (h = name)) headers.

(** [idx >= 0 ? cols[idx] : null] *)
Definition field (idx : option nat) (cols : list jsstring) : Value :=
  match idx with
  | None => Null
  | Some i =>
      match nth_error cols i with
      | Some s => Str s
      | None => Undefined
      end
  end.

Definition parseCsvToObjects (raw : jsstring) : list Product :=
  let lines := lines raw in
  match lines with
  | [] | [_] => []
  | header :: data =>
      let headers := splitComma header in
      let idxCompany := indexOf headers [44552; 50997; 54924; 49324; 47749]%N in
      let idxName := indexOf headers [44552; 50997; 49345; 54408; 47749]%N in
      let idxDiscontinued :=
        indexOf headers
          [49345; 54408; 54032; 47588; 51473; 45800; 51068; 51088]%N in
      let idxRegistered := indexOf headers [46321; 47197; 51068]%N in
      map (fun line =>
             let cols := splitComma line in
             {| prod_company := field idxCompany cols;
                prod_name := field idxName cols;
                prod_discontinued := field idxDiscontinued cols;
                prod_registered := field idxRegistered cols |})
          data
  end.

(** The loop of [fetchAll]: [fuel] iterations are left, [page] is the
    next page and [all] what has been collected.  [fetchPage] gives the
    items of a page, or [None] when the request raises. *)
Fixpoint fetchLoop {A : Type} (fetchPage : nat -> option (list A))
    (fuel page : nat) (all : list A) : option (list A) :=
  match fuel with
  | O => Some all
  | S fuel' =>
      match fetchPage page with
      | None => None
      | Some items =>
          match items with
          | [] => Some all
          | _ :: _ =>
              if (length items <? 500)%nat then Some (all ++ items)
              else fetchLoop fetchPage fuel' (S page) (all ++ items)
          end
      end
  end.

(** [fetchAll]; [hasKey] tells whether [SERVICE_KEY] is set. *)
Definition fetchAll {A : Type} (hasKey : bool)
    (fetchPage : nat -> option (list A)) : option (list A) :=
  if hasKey then fetchLoop fetchPage 50 1 [] else None.

End Products.

(* ================================================================== *)
(** ** The account type shared by the routes and the client *)

Inductive AccountType :=
| demand | term | fx_deposit | trust_protected | investment.

Record Account := mkAccount {
  acc_id : jsstring;
  acc_institution : jsstring;
  acc_license : jsstring;
  acc_type : AccountType;
  acc_currency : jsstring;
  acc_balance : option Z;
  acc_fxRate : option Q;
  acc_term : option Z;
  acc_product_name : option jsstring
}.

Definition USD : jsstring := [85; 83; 68]%N.
Definition KRW : jsstring := [75; 82; 87]%N.

(** [toKRW], identical in the coverage route and in the client.  The
    product of balance and rate is exact here (see the conventions). *)
Definition toKRW (a : Account) : Z :=
  if bool_decide (acc_currency a = USD)
  then Js.Math_round (inject_Z (default 0 (acc_balance a))
                      * default (1400 # 1) (acc_fxRate a))
  else default 0 (acc_balance a).

(** [["demand","term","fx_deposit","trust_protected"].includes(a.type)]. *)
Definition isProtectedType (t : AccountType) : bool :=
  match t with
  | demand | term | fx_deposit | trust_protected => true
  | investment => false
  end.

(* ================================================================== *)
(** ** The mock-account route: classification of a product name *)

Module Mydata.

(** 정기예금 | 예치 | 만기 | 적금 | 월복리 | 단리 *)
Definition termKw : list jsstring :=
  [ [51221; 44592; 50696; 44552]; [50696; 52824]; [47564; 44592];
    [51201; 44552]; [50900; 48373; 47532]; [45800; 47532] ]%N.

(** 입출금 | 보통예금 | 보통 | 자유입출금 | 수시입출금 | 통장 | 급여 | 월급 | 체크 *)
Definition demandKw : list jsstring :=
  [ [51077; 52636; 44552]; [48372; 53685; 50696; 44552]; [48372; 53685];
    [51088; 50976; 51077; 52636; 44552];
    [49688; 49884; 51077; 52636; 44552]; [53685; 51109]; [44553; 50668];
    [50900; 44553]; [52404; 53356] ]%N.

(** 외화 | 달러 | USD | 미국달러 *)
Definition fxKw : list jsstring :=
  [ [50808; 54868]; [45804; 47084]; [85; 83; 68];
    [48120; 44397; 45804; 47084] ]%N.

(** 금전신탁 | 원본보전 | 신탁 *)
Definition trustKw : list jsstring :=
  [ [44552; 51204; 49888; 53441]; [50896; 48376; 48372; 51204];
    [49888; 53441] ]%N.

Definition inferTypeFromProduct (name : jsstring) : AccountType :=
  let n := name in
  if Js.test termKw n then term
  else if Js.test demandKw n then demand
  else if Js.test_i fxKw n then fx_deposit
  else if Js.test trustKw n then trust_protected
  else demand.

Definition inferCurrency (name : jsstring) : jsstring :=
  if Js.test_i fxKw name then USD else KRW.

(** [toLicense]: the institution name followed by " 라이선스". *)
Definition toLicense (inst : jsstring) : jsstring :=
  inst ++ [32; 46972; 51060; 49440; 49828]%N.

(** [loadCatalogFromCsv] on the text [raw] of the catalog file (the
    branch in which the file could be fetched). *)
Definition loadCatalogFromCsv (raw : jsstring) : list (jsstring * jsstring) :=
  let rows := Csv.parseCsv raw in
  match rows with
  | [] => []
  | header0 :: data =>
      let header := map Js.trim header0 in
      let idxInst := Csv.findIndex (Js.test Csv.instHeader) header in
      let idxProd := Csv.findIndex (Js.test Csv.prodHeader) header in
      match idxInst, idxProd with
      | Some _, Some _ =>
          flat_map
            (fun cols =>
               let institution := Js.trim (Csv.cell cols idxInst) in
               let product_name := Js.trim (Csv.cell cols idxProd) in
               match institution, product_name with
               | _ :: _, _ :: _ => [(institution, product_name)]
               | _, _ => []
               end)
            data
      | _, _ => []
      end
  end.

(** [rnd(min, max)], where [u] is the value [Math.random()] returns.
    The arithmetic is exact here.  The binary floating point of the
    language rounds the product and the sum to the nearest
    representable number, and both roundings are monotone and leave
    whole numbers as they are; so the value the code returns is never
    below the one computed here and at most one above it, and the
    statements about balances allow for that one (see [generatedFrom]). *)
Definition rnd (min max : Z) (u : Q) : Z :=
  Qfloor (inject_Z min + u * inject_Z (max - min + 1)).

Fixpoint uintUnits (d : Decimal.uint) : jsstring :=
  match d with
  | Decimal.Nil => []
  | Decimal.D0 d => 48%N :: uintUnits d
  | Decimal.D1 d => 49%N :: uintUnits d
  | Decimal.D2 d => 50%N :: uintUnits d
  | Decimal.D3 d => 51%N :: uintUnits d
  | Decimal.D4 d => 52%N :: uintUnits d
  | Decimal.D5 d => 53%N :: uintUnits d
  | Decimal.D6 d => 54%N :: uintUnits d
  | Decimal.D7 d => 55%N :: uintUnits d
  | Decimal.D8 d => 56%N :: uintUnits d
  | Decimal.D9 d => 57%N :: uintUnits d
  end.

(** The decimal digits of a counter, as in [`P${i + 1}`]. *)
Definition decimal (n : nat) : jsstring := uintUnits (Nat.to_uint n).

(** [generateProtectedFromCatalog], iterations [i], [i+1], ... ([count]
    of them).  The values of [Math.random()] are read from [rand],
    starting at position [k]; the result carries the next position.
    [None] stands for the exception raised when the picked element is
    undefined. *)
Fixpoint generateProtectedFromCatalog
    (catalog : list (jsstring * jsstring)) (rand : nat -> Q)
    (k i count : nat) : option (list Account * nat) :=
  match count with
  | O => Some ([], k)
  | S count' =>
      let idx := rnd 0 (Z.of_nat (length catalog) - 1) (rand k) in
      match (if idx <? 0 then None else nth_error catalog (Z.to_nat idx)) with
      | None => None
      | Some (institution, product_name) =>
          let type := inferTypeFromProduct product_name in
          let currency := inferCurrency product_name in
          let isFx :=
            match type with fx_deposit => true | _ => false end
            || bool_decide (currency = USD) in
          let balance :=
            if isFx then rnd 1000 20000 (rand (S k))
            else match type with
                 | term => rnd 10000000 60000000 (rand (S k))
                 | trust_protected => rnd 8000000 40000000 (rand (S k))
                 | _ => rnd 2000000 8000000 (rand (S k))
                 end in
          let fxRate := if isFx then Some (1400 # 1) else None in
          let term :=
            if isFx then None
            else match type with
                 | term =>
                     Some (if Qle_bool (rand (S (S k))) (1 # 2) then 6 else 12)
                 | _ => None
                 end in
          let k' :=
            if isFx then S (S k)
            else match type with
                 | term => S (S (S k))
                 | _ => S (S k)
                 end in
          match generateProtectedFromCatalog catalog rand k' (S i) count' with
          | None => None
          | Some (arr, k'') =>
              Some ({| acc_id := 80%N :: decimal (i + 1);
                       acc_institution := institution;
                       acc_license := toLicense institution;
                       acc_type := type;
                       acc_currency := currency;
                       acc_balance := Some balance;
                       acc_fxRate := fxRate;
                       acc_term := term;
                       acc_product_name := Some product_name |} :: arr, k'')
          end
      end
  end.

(** [NON_PROTECTED_FIXED]:
    메리츠증권 / 메리츠 SMART 초단기 하이일드 랩 6M,
    신한투자증권 / 글로벌 테크 인컴랩 12M,
    KB증권 / KB 해외채권 DLS 9M. *)
Definition NON_PROTECTED_FIXED : list (jsstring * jsstring) :=
  [ ([47700; 47532; 52768; 51613; 44428],
     [47700; 47532; 52768; 32; 83; 77; 65; 82; 84; 32; 52488; 45800; 44592;
      32; 54616; 51060; 51068; 46300; 32; 47017; 32; 54; 77]);
    ([49888; 54620; 53804; 51088; 51613; 44428],
     [44544; 47196; 48268; 32; 53580; 53356; 32; 51064; 52980; 47017; 32;
      49; 50; 77]);
    ([75; 66; 51613; 44428],
     [75; 66; 32; 54644; 50808; 52292; 44428; 32; 68; 76; 83; 32; 57; 77]) ]%N.

(** [generateNonProtectedFixed], iterations [i], [i+1], ...; one value
    of [Math.random()] per account. *)
Fixpoint generateNonProtectedFixed (rand : nat -> Q) (k i count : nat)
  : list Account :=
  match count with
  | O => []
  | S count' =>
      let src := nth (i mod length NON_PROTECTED_FIXED) NON_PROTECTED_FIXED
                     ([], []) in
      {| acc_id := 78%N :: decimal (i + 1);
         acc_institution := fst src;
         acc_license := toLicense (fst src);
         acc_type := investment;
         acc_currency := KRW;
         acc_balance := Some (rnd 5000000 25000000 (rand k));
         acc_fxRate := None;
         acc_term := None;
         acc_product_name := Some (snd src) |}
      :: generateNonProtectedFixed rand (S k) (S i) count'
  end.

(** The mock branch of the handler, given the text of the catalog file
    and the two counts: the accounts it answers with; the empty list
    when the catalog is empty or an exception is caught. *)
Definition GET (raw : jsstring) (protectedCnt nonProtectedCnt : nat)
    (rand : nat -> Q) : list Account :=
  let catalog := loadCatalogFromCsv raw in
  match catalog with
  | [] => []
  | _ :: _ =>
      match generateProtectedFromCatalog catalog rand 0 0 protectedCnt with
      | None => []
      | Some (protectedAcc, k) =>
          let nonProtectedAcc :=
            generateNonProtectedFixed rand k 0 nonProtectedCnt in
          protectedAcc ++ nonProtectedAcc
      end
  end.

End Mydata.

(* ================================================================== *)
(** ** The coverage route *)

Inductive Tier := Tier1 | Tier2 | TierOther.

Record CoverageRow := mkRow {
  row_license : jsstring;
  row_institutions : jsstring;
  row_products : list jsstring;
  row_tier : Tier;
  row_eligible : Z;
  row_protected : Z;
  row_excess : Z;
  row_nonProtected : Z;
  row_accounts : list Account
}.

Record CoverageTotals := mkTotals {
  tot_eligible : Z;
  tot_protected : Z;
  tot_excess : Z;
  tot_nonProtected : Z;
  tot_tier1 : Z;
  tot_tier2 : Z
}.

Module Coverage.

(** The characters removed by [/[(){}\[\]·,\-_/]/g]. *)
Definition isStripped (c : N) : bool :=
  ((c =? 40) || (c =? 41) || (c =? 123) || (c =? 125) || (c =? 91)
   || (c =? 93) || (c =? 183) || (c =? 44) || (c =? 45) || (c =? 95)
   || (c =? 47))%N.

(** [key]: lower-case, drop every white-space unit, drop the
    punctuation class. *)
Definition key (s : jsstring) : jsstring :=
  List.filter (fun c => negb (isStripped c))
    (List.filter (fun c => negb (Js.isWhiteSpace c)) (Js.toLowerCase s)).

(** The template [`${key(inst)}|${key(prod)}`]. *)
Definition compositeKey (inst prod : jsstring) : jsstring :=
  key inst ++ [124%N] ++ key prod.

(** The loop of [loadKDIC] over the data rows of the catalog file; a
    row is given by its two cells, institution and product
    ([cols[idxInst] ?? ""], [cols[idxProd] ?? ""]). *)
Definition loadKDIC (rows : list (jsstring * jsstring)) : gset (list N) :=
  fold_left
    (fun (set : gset (list N)) cols =>
       let inst := Js.trim (fst cols) in
       let prod := Js.trim (snd cols) in
       if negb (bool_decide (inst = [])) && negb (bool_decide (prod = []))
       then set ∪ {[ compositeKey inst prod ]}
       else set)
    rows ∅.

(** 저축은행 | 상호저축 | 신협 | 수협 | 새마을금고 | 농축협 | 상호금융 *)
Definition tier2Kw : list jsstring :=
  [ [51200; 52629; 51008; 54665]; [49345; 54840; 51200; 52629];
    [49888; 54801]; [49688; 54801];
    [49352; 47560; 51012; 44552; 44256]; [45453; 52629; 54801];
    [49345; 54840; 44552; 50997] ]%N.
(** 은행 *)
Definition bankKw : list jsstring := [ [51008; 54665] ]%N.
(** 저축은행 *)
Definition savingsKw : list jsstring := [ [51200; 52629; 51008; 54665] ]%N.

Definition classifyTier (inst : jsstring) : Tier :=
  let s := inst in
  if Js.test tier2Kw s then Tier2
  else if Js.test bankKw s && negb (Js.test savingsKw s) then Tier1
  else TierOther.

(** The suffix [" 라이선스"]. *)
Definition licenseSuffix : jsstring := [32; 46972; 51060; 49440; 49828]%N.

(** [a.license || `${a.institution} 라이선스`]. *)
Definition licenseOf (a : Account) : jsstring :=
  if bool_decide (acc_license a = []) then acc_institution a ++ licenseSuffix
  else acc_license a.

(** [kd.has(`${key(a.institution)}|${key(a.product_name ?? "")}`)]. *)
Definition matched (kd : gset (list N)) (a : Account) : bool :=
  bool_decide
    (compositeKey (acc_institution a) (default [] (acc_product_name a)) ∈ kd).

(** [byLicense.has(lic)] *)
Definition has (byLicense : list CoverageRow) (lic : jsstring) : bool :=
  existsb (fun r => bool_decide (row_license r = lic)) byLicense.

(** The row seeded at the first holding of a license. *)
Definition newRow (lic : jsstring) (a : Account) : CoverageRow :=
  {| row_license := lic;
     row_institutions := acc_institution a;
     row_products := [];
     row_tier := classifyTier (acc_institution a);
     row_eligible := 0; row_protected := 0; row_excess := 0;
     row_nonProtected := 0;
     row_accounts := [] |}.

(** What the loop body does to the row it fetched with
    [byLicense.get(lic)]. *)
Definition addAccount (kd : gset (list N)) (a : Account) (row : CoverageRow)
  : CoverageRow :=
  let products :=
    match acc_product_name a with
    | Some (c :: n) =>
        if existsb (fun p => bool_decide (p = c :: n)) (row_products row)
        then row_products row
        else row_products row ++ [c :: n]
    | _ => row_products row
    end in
  let isProtectedType := isProtectedType (acc_type a) in
  let matched := matched kd a in
  let amt := toKRW a in
  {| row_license := row_license row;
     row_institutions := row_institutions row;
     row_products := products;
     row_tier := row_tier row;
     row_eligible :=
       if isProtectedType && matched then row_eligible row + amt
       else row_eligible row;
     row_protected := row_protected row;
     row_excess := row_excess row;
     row_nonProtected :=
       if isProtectedType && matched then row_nonProtected row
       else row_nonProtected row + amt;
     row_accounts := row_accounts row ++ [a] |}.

(** In-place mutation of the row stored under [lic]. *)
Definition update (lic : jsstring) (f : CoverageRow -> CoverageRow)
    (byLicense : list CoverageRow) : list CoverageRow :=
  map (fun r => if bool_decide (row_license r = lic) then f r else r)
      byLicense.

(** One iteration of [for (const a of accounts)]. *)
Definition aggregateStep (kd : gset (list N))
    (byLicense : list CoverageRow) (a : Account) : list CoverageRow :=
  let lic := licenseOf a in
  let byLicense :=
    if has byLicense lic then byLicense else byLicense ++ [newRow lic a] in
  update lic (addAccount kd a) byLicense.

(** Step 4: the limit applied to a row. *)
Definition applyLimit (limit : Z) (row : CoverageRow) : CoverageRow :=
  {| row_license := row_license row;
     row_institutions := row_institutions row;
     row_products := row_products row;
     row_tier := row_tier row;
     row_eligible := row_eligible row;
     row_protected := Z.min (row_eligible row) limit;
     row_excess := Z.max 0 (row_eligible row - limit);
     row_nonProtected := row_nonProtected row;
     row_accounts := row_accounts row |}.

Definition zeroTotals : CoverageTotals :=
  {| tot_eligible := 0; tot_protected := 0; tot_excess := 0;
     tot_nonProtected := 0; tot_tier1 := 0; tot_tier2 := 0 |}.

(** Step 5: one row added to the totals. *)
Definition addTotals (totals : CoverageTotals) (r : CoverageRow)
  : CoverageTotals :=
  {| tot_eligible := tot_eligible totals + row_eligible r;
     tot_protected := tot_protected totals + row_protected r;
     tot_excess := tot_excess totals + row_excess r;
     tot_nonProtected := tot_nonProtected totals + row_nonProtected r;
     tot_tier1 :=
       match row_tier r with
       | Tier1 => tot_tier1 totals + row_eligible r
       | _ => tot_tier1 totals
       end;
     tot_tier2 :=
       match row_tier r with
       | Tier2 => tot_tier2 totals + row_eligible r
       | _ => tot_tier2 totals
       end |}.

(** The body of the handler once the catalog [kd] and the holdings
    [accounts] have been fetched: the rows in first-seen order and the
    totals. *)
Definition GET (limit : Z) (kd : gset (list N)) (accounts : list Account)
  : list CoverageRow * CoverageTotals :=
  let byLicense := fold_left (aggregateStep kd) accounts [] in
  let byLicense := map (applyLimit limit) byLicense in
  let totals := fold_left addTotals byLicense zeroTotals in
  (byLicense, totals).

(** [loadKDIC] on the text [raw] of the catalog file: header lookup,
    then the loop over the data rows. *)
Definition loadKDICFromText (raw : jsstring) : gset (list N) :=
  let rows := Csv.parseCsv raw in
  let header :=
    match rows with
    | h :: _ => map Js.trim h
    | [] => []
    end in
  let idxInst := Csv.findIndex (Js.test Csv.instHeader) header in
  let idxProd := Csv.findIndex (Js.test Csv.prodHeader) header in
  loadKDIC
    (map (fun cols => (Csv.cell cols idxInst, Csv.cell cols idxProd))
         (tl rows)).

End Coverage.

(* ================================================================== *)
(** ** The client: routing allocator and limit toggle *)

Module DemoApp.

Record RateOffer := mkOffer {
  o_institution : jsstring;
  o_license : jsstring;
  o_product : jsstring;
  o_tenorM : Z;
  o_rate : Q
}.

(** The demo constants [rateOffers]:
    국민은행 3.3%, 신한은행 3.1%, 하나은행 2.9%, 농협은행 3.4%, 저축은행C 3.9%. *)
Definition rateOffers : list RateOffer :=
  [ mkOffer [44397; 48124; 51008; 54665]%N
            ([44397; 48124; 51008; 54665]%N ++ Coverage.licenseSuffix)
            [51221; 44592; 50696; 44552; 32; 49; 50; 77; 40; 48373; 47532; 41]%N
            12 (33 # 1000);
    mkOffer [49888; 54620; 51008; 54665]%N
            ([49888; 54620; 51008; 54665]%N ++ Coverage.licenseSuffix)
            [51221; 44592; 50696; 44552; 32; 54; 77; 40; 45800; 47532; 41]%N
            6 (31 # 1000);
    mkOffer [54616; 45208; 51008; 54665]%N
            ([54616; 45208; 51008; 54665]%N ++ Coverage.licenseSuffix)
            [51221; 44592; 50696; 44552; 32; 51; 77; 40; 45800; 47532; 41]%N
            3 (29 # 1000);
    mkOffer [45453; 54801; 51008; 54665]%N
            ([45453; 54801; 51008; 54665]%N ++ Coverage.licenseSuffix)
            [51221; 44592; 50696; 44552; 32; 49; 50; 77; 40; 45800; 47532; 41]%N
            12 (34 # 1000);
    mkOffer [51200; 52629; 51008; 54665; 67]%N
            ([51200; 52629; 51008; 54665; 67]%N ++ Coverage.licenseSuffix)
            [51221; 44592; 50696; 44552; 32; 49; 50; 77]%N
            12 (39 # 1000) ].

(** The values interpolated into the [reason] template (room, rate in
    percent, tenor); their rendering as text is presentation. *)
Record Reason := mkReason {
  reason_room : Z;
  reason_ratePct : Q;
  reason_tenorM : Z
}.

Record PlanEntry := mkEntry {
  p_institution : jsstring;
  p_license : jsstring;
  p_product : jsstring;
  p_rate : Q;
  p_tenorM : Z;
  p_allocate : Z;
  p_reason : Reason
}.

Record Routing := mkRouting {
  liquidityReserve : Z;
  idleCash : Z;
  plan : list PlanEntry;
  projectedInterest : Z
}.

(** [accounts.filter(a => a.type === "demand").reduce((s, a) => s + toKRW(a), 0)] *)
Definition demandKRW (accounts : list Account) : Z :=
  fold_left (fun s a => s + toKRW a)
    (List.filter
       (fun a => match acc_type a with demand => true | _ => false end)
       accounts)
    0.

(** The loop that fills the object [usedByLicense]. *)
Definition usedByLicense (accounts : list Account) : gmap (list N) Z :=
  fold_left
    (fun (m : gmap (list N) Z) a =>
       if isProtectedType (acc_type a)
       then <[ acc_license a := default 0 (m !! acc_license a) + toKRW a ]> m
       else m)
    accounts ∅.

(** [sort((x, y) => y.rate - x.rate)]: descending by rate; the sort of
    the language is stable, so offers of equal rate keep their order. *)
Fixpoint insertByRate (o : RateOffer) (l : list RateOffer) : list RateOffer :=
  match l with
  | [] => [o]
  | h :: t =>
      if Qle_bool (o_rate h) (o_rate o) then o :: h :: t
      else h :: insertByRate o t
  end.

Definition sortByRate (offers : list RateOffer) : list RateOffer :=
  fold_right insertByRate [] offers.

(** [plan.filter(p => p.license === lic).reduce((s, p) => s + p.allocate, 0)] *)
Definition already (plan : list PlanEntry) (lic : jsstring) : Z :=
  fold_left (fun s p => s + p_allocate p)
    (List.filter (fun p => bool_decide (p_license p = lic)) plan) 0.

Definition perOfferCap : Z := 60000000.

(** [Math.max(0, limitPerLicense - used - already)] for the offer [o]. *)
Definition roomFor (limitPerLicense : Z) (used : gmap (list N) Z)
    (plan : list PlanEntry) (lic : jsstring) : Z :=
  Z.max 0 (limitPerLicense - default 0 (used !! lic) - already plan lic).

(** The object pushed onto [plan] for the offer [o]. *)
Definition planEntry (o : RateOffer) (room alloc : Z) : PlanEntry :=
  {| p_institution := o_institution o;
     p_license := o_license o;
     p_product := o_product o;
     p_rate := o_rate o;
     p_tenorM := o_tenorM o;
     p_allocate := alloc;
     p_reason := mkReason room (o_rate o * (100 # 1))%Q (o_tenorM o) |}.

(** [for (const o of sorted)], with its [break] and [continue]; the
    state is the pair of [remain] and [plan]. *)
Fixpoint routeLoop (limitPerLicense : Z) (used : gmap (list N) Z)
    (sorted : list RateOffer) (remain : Z) (plan : list PlanEntry)
  : Z * list PlanEntry :=
  match sorted with
  | [] => (remain, plan)
  | o :: rest =>
      if remain <=? 0 then (remain, plan)
      else
        let room := roomFor limitPerLicense used plan (o_license o) in
        if room <=? 0 then routeLoop limitPerLicense used rest remain plan
        else
          let alloc := Z.min (Z.min remain room) perOfferCap in
          if 0 <? alloc then
            routeLoop limitPerLicense used rest (remain - alloc)
              (plan ++ [planEntry o room alloc])
          else routeLoop limitPerLicense used rest remain plan
  end.

(** [computeRouting] with the offer list as an argument. *)
Definition computeRoutingWith (offers : list RateOffer)
    (limitPerLicense : Z) (accounts : list Account) : Routing :=
  let liquidityReserve := 10000000 in
  let demandKRW := demandKRW accounts in
  let idleCash := Z.max 0 (demandKRW - liquidityReserve) in
  let usedByLicense := usedByLicense accounts in
  let sorted := sortByRate offers in
  let '(_, plan) := routeLoop limitPerLicense usedByLicense sorted idleCash [] in
  let projectedInterest :=
    Js.Math_round
      (fold_left (fun s p => s + inject_Z (p_allocate p) * p_rate p)%Q plan 0%Q) in
  {| liquidityReserve := liquidityReserve;
     idleCash := idleCash;
     plan := plan;
     projectedInterest := projectedInterest |}.

(** [computeRouting(limitPerLicense, accounts)] of the source, which
    reads the module constant [rateOffers]. *)
Definition computeRouting (limitPerLicense : Z) (accounts : list Account)
  : Routing :=
  computeRoutingWith rateOffers limitPerLicense accounts.

(** The clone [{ ...r, protected: protectedAmt, excess }]. *)
Definition cloneRow (limit : Z) (r : CoverageRow) : CoverageRow :=
  let protectedAmt := Z.min (row_eligible r) limit in
  let excess := Z.max 0 (row_eligible r - limit) in
  {| row_license := row_license r;
     row_institutions := row_institutions r;
     row_products := row_products r;
     row_tier := row_tier r;
     row_eligible := row_eligible r;
     row_protected := protectedAmt;
     row_excess := excess;
     row_nonProtected := row_nonProtected r;
     row_accounts := row_accounts r |}.

(** The reducer of [cloned.reduce]. *)
Definition accumulate (acc : CoverageTotals) (r : CoverageRow)
  : CoverageTotals :=
  {| tot_eligible := tot_eligible acc + row_eligible r;
     tot_protected := tot_protected acc + row_protected r;
     tot_excess := tot_excess acc + row_excess r;
     tot_nonProtected := tot_nonProtected acc + row_nonProtected r;
     tot_tier1 :=
       match row_tier r with
       | Tier1 => tot_tier1 acc + row_eligible r
       | _ => tot_tier1 acc
       end;
     tot_tier2 :=
       match row_tier r with
       | Tier2 => tot_tier2 acc + row_eligible r
       | _ => tot_tier2 acc
       end |}.

(** The memo [adjusted]: the rows recomputed under the toggled limit. *)
Definition adjusted (limit : Z) (rows : list CoverageRow)
    (totals : CoverageTotals) : list CoverageRow * CoverageTotals :=
  match rows with
  | [] => ([], totals)
  | _ :: _ =>
      let cloned := map (cloneRow limit) rows in
      let t := fold_left accumulate cloned Coverage.zeroTotals in
      (cloned, t)
  end.

(** The component's [afterProtected]: the protected total after routing
    (an approximation), from the adjusted totals and the idle cash. *)
Definition afterProtected (limit : Z) (rows : list CoverageRow)
    (totals : CoverageTotals) (mydata : list Account) : Z :=
  let adjusted := adjusted limit rows totals in
  let routing := computeRouting limit mydata in
  Z.min (tot_protected (snd adjusted) + idleCash routing)
        (tot_eligible (snd adjusted)).

End DemoApp.

(* ================================================================== *)
(** ** Vocabulary of the statements *)

(** [kw] occurs in [s] as a contiguous block. *)
Definition occursIn (kw s : jsstring) : Prop :=
  exists pre post, s = pre ++ kw ++ post.

(** Some alternative of a keyword set occurs in [s]. *)
Definition matchesAny (alts : list jsstring) (s : jsstring) : Prop :=
  exists kw, In kw alts /\ occursIn kw s.

(** Some block of [s] is an alternative up to the case of ASCII letters. *)
Definition matchesAnyNoCase (alts : list jsstring) (s : jsstring) : Prop :=
  exists kw pre mid post,
    In kw alts /\ s = pre ++ mid ++ post /\
    map Js.canonicalize mid = map Js.canonicalize kw.











(** Sum of the reporting-currency amounts of a list of holdings. *)
Definition sumKRW (l : list Account) : Z :=
  fold_right (fun a s => toKRW a + s) 0 l.

(** Sum of the allocations of a list of plan entries. *)
Definition sumAllocate (l : list DemoApp.PlanEntry) : Z :=
  fold_right (fun p s => DemoApp.p_allocate p + s) 0 l.

(** The plan entries of one license. *)
Definition entriesOf (lic : jsstring) (l : list DemoApp.PlanEntry)
  : list DemoApp.PlanEntry :=
  List.filter (fun p => bool_decide (DemoApp.p_license p = lic)) l.

(** The holdings of protection-eligible category that carry the license
    field [lic]: what [usedByLicense[lic]] adds up. *)
Definition usedHoldings (lic : jsstring) (accounts : list Account)
  : list Account :=
  List.filter
    (fun a => isProtectedType (acc_type a) && bool_decide (acc_license a = lic))
    accounts.

(** The holdings a coverage row of key [lic] collects. *)
Definition holdingsOf (lic : jsstring) (accounts : list Account)
  : list Account :=
  List.filter (fun a => bool_decide (Coverage.licenseOf a = lic)) accounts.

(** The eligibility test of the aggregator. *)
Definition eligibleHolding (kd : gset (list N)) (a : Account) : bool :=
  isProtectedType (acc_type a) && Coverage.matched kd a.

(** The holdings of category demand. *)
Definition demandHoldings (accounts : list Account) : list Account :=
  List.filter (fun a => match acc_type a with demand => true | _ => false end)
    accounts.

(** The entry [p], pushed when the plan was [pre], takes the least of the
    three bounds active at that moment: the idle cash not yet allocated,
    the room of its license, and the per-offer ceiling. *)
Definition entryBound (idle limit : Z) (used : gmap (list N) Z)
    (pre : list DemoApp.PlanEntry) (p : DemoApp.PlanEntry) : Prop :=
  0 < DemoApp.p_allocate p /\
  DemoApp.p_allocate p =
    Z.min (Z.min (idle - sumAllocate pre)
                 (DemoApp.roomFor limit used pre (DemoApp.p_license p)))
          DemoApp.perOfferCap.

(** A plan built by pushing entries that each respect [entryBound]. *)
Inductive boundedPlan (idle limit : Z) (used : gmap (list N) Z)
  : list DemoApp.PlanEntry -> Prop :=
| boundedNil : boundedPlan idle limit used []
| boundedPush pre p :
    boundedPlan idle limit used pre ->
    entryBound idle limit used pre p ->
    boundedPlan idle limit used (pre ++ [p]).

(** A coverage row is consistent with the holdings [processed] so far:
    it lists the holdings of its key in order, and its two running
    totals are the sums over the eligible and over the other holdings. *)
Definition rowTracks (kd : gset (list N)) (processed : list Account)
    (r : CoverageRow) : Prop :=
  row_accounts r = holdingsOf (row_license r) processed /\
  row_eligible r =
    sumKRW (List.filter (eligibleHolding kd)
              (holdingsOf (row_license r) processed)) /\
  row_nonProtected r =
    sumKRW (List.filter (fun a => negb (eligibleHolding kd a))
              (holdingsOf (row_license r) processed)).

(** The loop invariant of the aggregation: keys are unique, every
    processed holding has its row, every row tracks its holdings, and
    the rows together hold the processed holdings once each. *)
Definition aggregated (kd : gset (list N)) (processed : list Account)
    (rows : list CoverageRow) : Prop :=
  List.NoDup (map row_license rows) /\
  Forall (fun a => In (Coverage.licenseOf a) (map row_license rows)) processed /\
  Forall (rowTracks kd processed) rows /\
  Permutation (concat (map row_accounts rows)) processed.

(** The distinct strings of [l], in the order of their first occurrence. *)
Fixpoint firstSeen (l : list (list N)) : list (list N) :=
  match l with
  | [] => []
  | x :: t =>
      x :: List.filter (fun y => negb (bool_decide (y = x))) (firstSeen t)
  end.

(** The non-empty product names of a list of holdings, in order. *)
Definition productNames (l : list Account) : list (list N) :=
  flat_map
    (fun a => match acc_product_name a with
              | Some (c :: n) => [c :: n]
              | _ => []
              end)
    l.

(** Sum of a field over coverage rows. *)
Definition sumRows (f : CoverageRow -> Z) (rows : list CoverageRow) : Z :=
  fold_right (fun r s => f r + s) 0 rows.

Definition isTier (t : Tier) (r : CoverageRow) : bool :=
  match row_tier r, t with
  | Tier1, Tier1 | Tier2, Tier2 | TierOther, TierOther => true
  | _, _ => false
  end.

(** The rows of one tier. *)
Definition rowsOfTier (t : Tier) (rows : list CoverageRow) : list CoverageRow :=
  List.filter (isTier t) rows.

(** A coverage row carries the institution and the tier of the first
    holding of its key, and the distinct product names of its holdings
    in first-seen order. *)
Definition rowSeeded (processed : list Account) (r : CoverageRow) : Prop :=
  match holdingsOf (row_license r) processed with
  | [] => False
  | a :: _ =>
      row_institutions r = acc_institution a /\
      row_tier r = Coverage.classifyTier (acc_institution a)
  end /\
  row_products r = firstSeen (productNames (holdingsOf (row_license r) processed)).

(** The offer a plan entry was built from. *)
Definition offerOf (p : DemoApp.PlanEntry) : DemoApp.RateOffer :=
  DemoApp.mkOffer (DemoApp.p_institution p) (DemoApp.p_license p)
    (DemoApp.p_product p) (DemoApp.p_tenorM p) (DemoApp.p_rate p).

(** [x] comes before [y] in descending order of rate. *)
Definition rateDescending (x y : DemoApp.RateOffer) : Prop :=
  (DemoApp.o_rate y <= DemoApp.o_rate x)%Q.

(** What one offer can take at most: the room of its license before the
    plan, and the ceiling per offer. *)
Definition offerCapacity (limit : Z) (accounts : list Account)
    (o : DemoApp.RateOffer) : Z :=
  Z.min (Z.max 0 (limit - sumKRW (usedHoldings (DemoApp.o_license o) accounts)))
        DemoApp.perOfferCap.

Definition capacity (limit : Z) (accounts : list Account)
    (offers : list DemoApp.RateOffer) : Z :=
  fold_right (fun o s => offerCapacity limit accounts o + s) 0 offers.

(** The interest of a plan before rounding: allocation times rate,
    summed over the entries. *)
Definition interestSum (l : list DemoApp.PlanEntry) : Q :=
  fold_right
    (fun p s => inject_Z (DemoApp.p_allocate p) * DemoApp.p_rate p + s)%Q
    0%Q l.

(** A cell that can stand in a CSV line as it is: no quote, comma or
    line break. *)
Definition plainCell (c : jsstring) : Prop :=
  Forall (fun x => x <> 34%N /\ x <> 44%N /\ x <> 10%N /\ x <> 13%N) c.

(** Quotes doubled, as inside a quoted cell. *)
Definition escapeQuotes (c : jsstring) : jsstring :=
  flat_map (fun x => if (x =? 34)%N then [34; 34]%N else [x]) c.

(** A cell written quoted ([true]) or as it is ([false]). *)
Definition encodeCell (qc : bool * jsstring) : jsstring :=
  if fst qc then [34%N] ++ escapeQuotes (snd qc) ++ [34%N] else snd qc.

(** The cells of a row separated by commas. *)
Fixpoint encodeRow (cells : list (bool * jsstring)) : jsstring :=
  match cells with
  | [] => []
  | [qc] => encodeCell qc
  | qc :: rest => encodeCell qc ++ [44%N] ++ encodeRow rest
  end.

(** A row the reader can give back: at least one cell, not the single
    empty cell (an empty line), and every unquoted cell plain. *)
Definition writableRow (cells : list (bool * jsstring)) : Prop :=
  cells <> [] /\ map snd cells <> [[]] /\
  Forall (fun qc => fst qc = false -> plainCell (snd qc)) cells.

(** A line terminator: LF, CR or CR LF. *)
Definition lineBreak (eol : jsstring) : Prop :=
  eol = [10%N] \/ eol = [13%N] \/ eol = [13; 10]%N.

(** Rows written one per line, each followed by [eol]. *)
Definition encodeLines (eol : jsstring) (l : list (list (bool * jsstring)))
  : jsstring :=
  flat_map (fun cells => encodeRow cells ++ eol) l.

(** The text [t] does not begin with the character [x]. *)
Definition notStart (x : N) (t : jsstring) : Prop :=
  match t with
  | [] => True
  | y :: _ => y <> x
  end.

(** Every value of [Math.random()] lies in [0, 1). *)
Definition unitRange (rand : nat -> Q) : Prop :=
  forall j : nat, (0 <= rand j /\ rand j < 1)%Q.

(** What the generator guarantees for an account made from a catalog
    pair: the names are those of the pair, the license is derived from
    the institution, category and currency are inferred from the product
    name, and the balance lies between the least value of its branch
    and the greatest value that [rnd] returns for it.  For the branch
    of the protected trusts that is 40,000,001: the binary floating
    point sum [8000000 + Math.random() * 32000001] rounds up to
    40,000,001 at the largest draw, [1 - 2^-53].  In the other branches
    (1,000 to 20,000; 10,000,000 to 60,000,000; 2,000,000 to 8,000,000)
    the sum at the largest draw is exact and the bound is the one
    written in the source. *)
Definition generatedFrom (catalog : list (jsstring * jsstring)) (a : Account)
  : Prop :=
  exists inst prod b,
    In (inst, prod) catalog /\
    acc_institution a = inst /\
    acc_product_name a = Some prod /\
    acc_license a = Mydata.toLicense inst /\
    acc_type a = Mydata.inferTypeFromProduct prod /\
    acc_currency a = Mydata.inferCurrency prod /\
    acc_balance a = Some b /\
    ((acc_currency a = USD /\ 1000 <= b <= 20000 /\
      acc_fxRate a = Some (1400 # 1) /\ acc_term a = None) \/
     (acc_currency a = KRW /\ acc_fxRate a = None /\
      match acc_type a with
      | term => 10000000 <= b <= 60000000 /\
                (acc_term a = Some 6 \/ acc_term a = Some 12)
      | trust_protected => 8000000 <= b <= 40000001 /\ acc_term a = None
      | _ => 2000000 <= b <= 8000000 /\ acc_term a = None
      end)).

(** What the generator guarantees for a fixed non-protected account. *)
Definition fixedInvestment (a : Account) : Prop :=
  acc_type a = investment /\ acc_currency a = KRW /\
  In (acc_institution a, default [] (acc_product_name a))
     Mydata.NON_PROTECTED_FIXED /\
  acc_license a = Mydata.toLicense (acc_institution a) /\
  exists b, acc_balance a = Some b /\ 5000000 <= b <= 25000000.

(** A small catalog file for worked values: the header
    금융회사명,금융상품명 and the rows KB,정기예금 and KB,USD. *)
Definition sampleCsv : jsstring :=
  [44552; 50997; 54924; 49324; 47749; 44;
   44552; 50997; 49345; 54408; 47749; 10;
   75; 66; 44; 51221; 44592; 50696; 44552; 10;
   75; 66; 44; 85; 83; 68; 10]%N.

(** A sequence of draws for worked values: 0, 1/5, 2/5, 3/5, 4/5, 0, ... *)
Definition sampleRand (j : nat) : Q := Z.of_nat (j mod 5) # 5.

(* ================================================================== *)
(** ** Strings: substring search and keyword tests *)

Section StringFacts.

Lemma startsWith_spec (p s : jsstring) :
  Js.startsWith p s = true <-> exists post, s = p ++ post.
Proof.
  revert s; induction p as [|a p IH]; intros s; simpl.
  - split; [intros _; now exists s | reflexivity].
  - destruct s as [|b s].
    + split; [discriminate | intros [post H]; discriminate H].
    + rewrite andb_true_iff, N.eqb_eq, IH. split.
      * intros [-> [post ->]]. now exists post.
      * intros [post H]. injection H as -> ->. split; [reflexivity|now exists post].
Qed.

Lemma includes_spec (p s : jsstring) :
  Js.includes p s = true <-> occursIn p s.
Proof.
  unfold occursIn. induction s as [|b s IH]; simpl.
  - rewrite orb_false_r, startsWith_spec. split.
    + intros [post H]. now exists [], post.
    + intros [pre [post H]]. destruct pre; simpl in H.
      * now exists post.
      * discriminate H.
  - rewrite orb_true_iff, startsWith_spec, IH. split.
    + intros [[post H] | [pre [post H]]].
      * now exists [], post.
      * exists (b :: pre), post. simpl. now rewrite H.
    + intros [pre [post H]]. destruct pre as [|c pre]; simpl in H.
      * left. now exists post.
      * right. injection H as _ H. now exists pre, post.
Qed.

Lemma test_spec (alts : list jsstring) (s : jsstring) :
  Js.test alts s = true <-> matchesAny alts s.
Proof.
  unfold Js.test, matchesAny. rewrite existsb_exists.
  split; intros [kw [Hin H]]; exists kw; split; trivial;
    now apply includes_spec.
Qed.

Lemma test_i_spec (alts : list jsstring) (s : jsstring) :
  Js.test_i alts s = true <-> matchesAnyNoCase alts s.
Proof.
  unfold Js.test_i, matchesAnyNoCase. rewrite existsb_exists. split.
  - intros [kw [Hin H]]. apply includes_spec in H.
    destruct H as [pre [post H]].
    apply map_eq_app in H. destruct H as [s1 [s23 [-> [_ H]]]].
    apply map_eq_app in H. destruct H as [s2 [s3 [-> [H _]]]].
    now exists kw, s1, s2, s3.
  - intros [kw [pre [mid [post [Hin [-> H]]]]]]. exists kw. split; trivial.
    apply includes_spec.
    exists (map Js.canonicalize pre), (map Js.canonicalize post).
    now rewrite !map_app, H.
Qed.

Lemma test_false (alts : list jsstring) (s : jsstring) :
  ~ matchesAny alts s -> Js.test alts s = false.
Proof.
  intros H. destruct (Js.test alts s) eqn:E; trivial.
  now apply test_spec in E.
Qed.

Lemma test_i_false (alts : list jsstring) (s : jsstring) :
  ~ matchesAnyNoCase alts s -> Js.test_i alts s = false.
Proof.
  intros H. destruct (Js.test_i alts s) eqn:E; trivial.
  now apply test_i_spec in E.
Qed.

End StringFacts.

(* ================================================================== *)
(** ** The classifier *)

Example infer_term_deposit :
  Mydata.inferTypeFromProduct
    [51221; 44592; 50696; 44552; 32; 49; 50; 77]%N = term.
Proof. reflexivity. Qed.

Example infer_usd_lowercase :
  Mydata.inferTypeFromProduct [117; 115; 100; 32; 49]%N = fx_deposit.
Proof. reflexivity. Qed.

(** C9. [inferTypeFromProduct] tries the keyword sets in the order
    term-deposit, demand-deposit, foreign-currency, trust, and answers
    with the category of the first set that matches; when no set matches
    it answers [demand].  A name that matches both the term-deposit and
    the demand-deposit set is therefore classified [term]. *)
Theorem inferTypeFromProduct_priority (n : jsstring) :
  (matchesAny Mydata.termKw n -> Mydata.inferTypeFromProduct n = term) /\
  (~ matchesAny Mydata.termKw n -> matchesAny Mydata.demandKw n ->
     Mydata.inferTypeFromProduct n = demand) /\
  (~ matchesAny Mydata.termKw n -> ~ matchesAny Mydata.demandKw n ->
     matchesAnyNoCase Mydata.fxKw n ->
     Mydata.inferTypeFromProduct n = fx_deposit) /\
  (~ matchesAny Mydata.termKw n -> ~ matchesAny Mydata.demandKw n ->
     ~ matchesAnyNoCase Mydata.fxKw n -> matchesAny Mydata.trustKw n ->
     Mydata.inferTypeFromProduct n = trust_protected) /\
  (~ matchesAny Mydata.termKw n -> ~ matchesAny Mydata.demandKw n ->
     ~ matchesAnyNoCase Mydata.fxKw n -> ~ matchesAny Mydata.trustKw n ->
     Mydata.inferTypeFromProduct n = demand) /\
  (matchesAny Mydata.termKw n -> matchesAny Mydata.demandKw n ->
     Mydata.inferTypeFromProduct n = term).
Proof.
  unfold Mydata.inferTypeFromProduct.
  repeat split.
  - intros Ht. apply test_spec in Ht. now rewrite Ht.
  - intros Ht Hd. apply test_false in Ht. apply test_spec in Hd.
    now rewrite Ht, Hd.
  - intros Ht Hd Hf. apply test_false in Ht, Hd. apply test_i_spec in Hf.
    now rewrite Ht, Hd, Hf.
  - intros Ht Hd Hf Hr. apply test_false in Ht, Hd. apply test_i_false in Hf.
    apply test_spec in Hr. now rewrite Ht, Hd, Hf, Hr.
  - intros Ht Hd Hf Hr. apply test_false in Ht, Hd, Hr.
    apply test_i_false in Hf. now rewrite Ht, Hd, Hf, Hr.
  - intros Ht _. apply test_spec in Ht. now rewrite Ht.
Qed.

(** The name 통장 정기예금 holds a demand-deposit keyword (통장) and a
    term-deposit keyword (정기예금); it is classified [term]. *)
Lemma inferTypeFromProduct_priority_witness :
  matchesAny Mydata.termKw [53685; 51109; 32; 51221; 44592; 50696; 44552]%N /\
  matchesAny Mydata.demandKw [53685; 51109; 32; 51221; 44592; 50696; 44552]%N /\
  Mydata.inferTypeFromProduct
    [53685; 51109; 32; 51221; 44592; 50696; 44552]%N = term.
Proof.
  assert (Ht : matchesAny Mydata.termKw
                 [53685; 51109; 32; 51221; 44592; 50696; 44552]%N).
  { exists [51221; 44592; 50696; 44552]%N. split; [simpl; tauto|].
    exists [53685; 51109; 32]%N, []. reflexivity. }
  assert (Hd : matchesAny Mydata.demandKw
                 [53685; 51109; 32; 51221; 44592; 50696; 44552]%N).
  { exists [53685; 51109]%N. split; [simpl; tauto|].
    exists [], [32; 51221; 44592; 50696; 44552]%N. reflexivity. }
  split; [exact Ht|]. split; [exact Hd|].
  exact (proj2 (proj2 (proj2 (proj2 (proj2
    (inferTypeFromProduct_priority
       [53685; 51109; 32; 51221; 44592; 50696; 44552]%N))))) Ht Hd).
Defined.

(* ================================================================== *)
(** ** The catalog key *)

Section KeyFacts.



(** *** The tables of case conversion *)










(** *** Code points and code units *)








(** *** The conversion of a well-formed string *)









(** *** The key *)








(** *** Trimming *)







End KeyFacts.

Example key_example :
  Coverage.key [75; 66; 32; 83; 116; 97; 114; 45; 40; 49; 41]%N
  = [107; 98; 115; 116; 97; 114; 49]%N.
Proof. reflexivity. Qed.




(* ================================================================== *)
(** ** The coverage aggregator *)

Section AggregatorFacts.

Variable kd : gset (list N).

Lemma sumKRW_app (l1 l2 : list Account) :
  sumKRW (l1 ++ l2) = sumKRW l1 + sumKRW l2.
Proof. induction l1 as [|a l1 IH]; simpl; [reflexivity|]. rewrite IH. lia. Qed.

Lemma has_true (rows : list CoverageRow) (lic : jsstring) :
  Coverage.has rows lic = true <-> In lic (map row_license rows).
Proof.
  unfold Coverage.has. rewrite existsb_exists, in_map_iff.
  split; intros [r [H1 H2]]; exists r.
  - apply bool_decide_eq_true_1 in H2. now split.
  - split; [assumption|]. now apply bool_decide_eq_true_2.
Qed.

Lemma update_absent (lic : jsstring) (f : CoverageRow -> CoverageRow)
    (l : list CoverageRow) :
  ~ In lic (map row_license l) -> Coverage.update lic f l = l.
Proof.
  induction l as [|r l IH]; simpl; intros H; [reflexivity|].
  rewrite bool_decide_eq_false_2 by tauto. rewrite IH by tauto. reflexivity.
Qed.

(** With unique keys, [update] touches exactly the row of the key. *)
Lemma update_present (lic : jsstring) (f : CoverageRow -> CoverageRow)
    (rows : list CoverageRow) :
  List.NoDup (map row_license rows) -> In lic (map row_license rows) ->
  exists l1 r l2,
    rows = l1 ++ r :: l2 /\ row_license r = lic /\
    Coverage.update lic f rows = l1 ++ f r :: l2 /\
    ~ In lic (map row_license l1) /\ ~ In lic (map row_license l2).
Proof.
  induction rows as [|r rows IH]; simpl; intros Hnd Hin; [destruct Hin|].
  inversion Hnd as [|? ? Hnotin Hnd']; subst.
  destruct (decide (row_license r = lic)) as [E|NE].
  - exists [], r, rows. simpl.
    rewrite bool_decide_eq_true_2 by assumption.
    rewrite update_absent by (rewrite <- E; assumption).
    repeat split; trivial. + tauto. + now rewrite <- E.
  - destruct Hin as [E|Hin]; [contradiction|].
    destruct (IH Hnd' Hin) as (l1 & r0 & l2 & -> & Hr0 & Hupd & H1 & H2).
    exists (r :: l1), r0, l2. simpl.
    rewrite bool_decide_eq_false_2 by assumption. rewrite Hupd.
    repeat split; trivial. tauto.
Qed.

Lemma addAccount_license (a : Account) (r : CoverageRow) :
  row_license (Coverage.addAccount kd a r) = row_license r.
Proof. reflexivity. Qed.

(** One iteration rewrites exactly one row: the row of the holding's
    key, created first when the key is new. *)
Lemma aggregateStep_shape (rows : list CoverageRow) (a : Account) :
  List.NoDup (map row_license rows) ->
  exists l1 r l2,
    Coverage.aggregateStep kd rows a = l1 ++ Coverage.addAccount kd a r :: l2 /\
    row_license r = Coverage.licenseOf a /\
    ~ In (Coverage.licenseOf a) (map row_license l1) /\
    ~ In (Coverage.licenseOf a) (map row_license l2) /\
    (rows = l1 ++ r :: l2 \/
     (rows = l1 /\ l2 = [] /\ r = Coverage.newRow (Coverage.licenseOf a) a)).
Proof.
  intros Hnd. unfold Coverage.aggregateStep.
  destruct (Coverage.has rows (Coverage.licenseOf a)) eqn:Hhas.
  - apply has_true in Hhas.
    destruct (update_present _ (Coverage.addAccount kd a) _ Hnd Hhas)
      as (l1 & r & l2 & Hrows & Hr & Hupd & H1 & H2).
    exists l1, r, l2. repeat split; trivial. now left.
  - assert (Hno : ~ In (Coverage.licenseOf a) (map row_license rows)).
    { intros H. apply has_true in H. congruence. }
    exists rows, (Coverage.newRow (Coverage.licenseOf a) a), [].
    repeat split; trivial.
    + unfold Coverage.update. rewrite map_app. fold (Coverage.update
        (Coverage.licenseOf a) (Coverage.addAccount kd a) rows).
      rewrite update_absent by assumption. simpl.
      now rewrite bool_decide_eq_true_2.
    + intros [].
    + right. repeat split.
Qed.

Lemma holdingsOf_snoc (lic : jsstring) (l : list Account) (a : Account) :
  holdingsOf lic (l ++ [a]) =
  holdingsOf lic l ++
    (if bool_decide (Coverage.licenseOf a = lic) then [a] else []).
Proof. unfold holdingsOf. now rewrite List.filter_app. Qed.

Lemma rowTracks_other (processed : list Account) (a : Account)
    (r : CoverageRow) :
  row_license r <> Coverage.licenseOf a ->
  rowTracks kd processed r -> rowTracks kd (processed ++ [a]) r.
Proof.
  intros Hne (Ha & He & Hn). unfold rowTracks.
  rewrite holdingsOf_snoc, bool_decide_eq_false_2 by congruence.
  rewrite app_nil_r. repeat split; assumption.
Qed.

Lemma rowTracks_target (processed : list Account) (a : Account)
    (r : CoverageRow) :
  row_license r = Coverage.licenseOf a ->
  rowTracks kd processed r ->
  rowTracks kd (processed ++ [a]) (Coverage.addAccount kd a r).
Proof.
  intros Heq (Ha & He & Hn). unfold rowTracks.
  rewrite addAccount_license, holdingsOf_snoc.
  rewrite bool_decide_eq_true_2 by congruence.
  rewrite !List.filter_app, !sumKRW_app. simpl.
  fold (eligibleHolding kd a). rewrite Ha, He, Hn.
  repeat split; destruct (eligibleHolding kd a); simpl; lia.
Qed.

Lemma rowTracks_new (processed : list Account) (a : Account) :
  Forall (fun b => Coverage.licenseOf b <> Coverage.licenseOf a) processed ->
  rowTracks kd processed (Coverage.newRow (Coverage.licenseOf a) a).
Proof.
  intros H. unfold rowTracks. simpl.
  assert (E : holdingsOf (Coverage.licenseOf a) processed = []).
  { unfold holdingsOf. induction H as [|b l Hb _ IH]; simpl; trivial.
    now rewrite bool_decide_eq_false_2. }
  rewrite E. repeat split.
Qed.

(** The invariant is kept by one iteration. *)
Lemma aggregated_step (processed : list Account) (rows : list CoverageRow)
    (a : Account) :
  aggregated kd processed rows ->
  aggregated kd (processed ++ [a]) (Coverage.aggregateStep kd rows a).
Proof.
  intros (Hnd & Hcov & Htr & Hperm).
  destruct (aggregateStep_shape rows a Hnd)
    as (l1 & r & l2 & -> & Hr & H1 & H2 & Hcase).
  assert (Hlic : map row_license (l1 ++ Coverage.addAccount kd a r :: l2)
                 = map row_license (l1 ++ r :: l2)).
  { now rewrite !map_app. }
  assert (Hsub : forall x, In x (map row_license rows) ->
                           In x (map row_license (l1 ++ r :: l2))).
  { destruct Hcase as [-> | (-> & -> & _)]; trivial.
    intros x Hx. rewrite map_app. apply in_or_app. now left. }
  assert (Hnd' : List.NoDup (map row_license (l1 ++ r :: l2))).
  { destruct Hcase as [<- | (<- & -> & _)]; trivial.
    rewrite map_app. simpl. apply List.NoDup_app; trivial.
    - constructor; [intros []|constructor].
    - intros x Hx [<-|[]]. rewrite Hr in Hx. contradiction. }
  assert (Hother : forall r', In r' (l1 ++ l2) ->
                              row_license r' <> Coverage.licenseOf a).
  { intros r' Hin E. apply in_app_or in Hin.
    destruct Hin as [Hin|Hin]; [apply H1|apply H2];
      rewrite <- E; now apply in_map. }
  assert (Hr_tr : rowTracks kd processed r).
  { destruct Hcase as [-> | (-> & -> & ->)].
    - rewrite List.Forall_forall in Htr. apply Htr. apply in_or_app.
      right. now left.
    - apply rowTracks_new. rewrite List.Forall_forall in Hcov |- *.
      intros b Hb E. apply H1. rewrite <- E. now apply Hcov. }
  assert (Hl_tr : Forall (rowTracks kd processed) (l1 ++ l2)).
  { destruct Hcase as [-> | (-> & -> & _)].
    - rewrite List.Forall_forall in Htr |- *. intros r' Hin. apply Htr.
      apply in_app_or in Hin. apply in_or_app. simpl. tauto.
    - now rewrite app_nil_r. }
  assert (Hp : Permutation (concat (map row_accounts (l1 ++ r :: l2)))
                           processed).
  { destruct Hcase as [<- | (<- & -> & ->)]; trivial.
    rewrite map_app, concat_app. simpl. now rewrite !app_nil_r. }
  repeat split.
  - now rewrite Hlic.
  - rewrite List.Forall_app. split.
    + rewrite List.Forall_forall in Hcov |- *. intros b Hb. rewrite Hlic.
      apply Hsub. now apply Hcov.
    + constructor; [|constructor]. rewrite Hlic, map_app.
      apply in_or_app. right. left. exact Hr.
  - rewrite List.Forall_forall in Hl_tr |- *. intros r' Hin.
    apply in_app_or in Hin. destruct Hin as [Hin | [<- | Hin]].
    + apply rowTracks_other; [apply Hother|apply Hl_tr];
        apply in_or_app; now left.
    + now apply rowTracks_target.
    + apply rowTracks_other; [apply Hother|apply Hl_tr];
        apply in_or_app; now right.
  - rewrite map_app, concat_app in Hp |- *. simpl in Hp |- *.
    rewrite <- Hp.
    rewrite <- !app_assoc. do 2 apply Permutation_app_head.
    apply (Permutation_app_comm [a]).
Qed.

Lemma aggregated_fold (accounts processed : list Account)
    (rows : list CoverageRow) :
  aggregated kd processed rows ->
  aggregated kd (processed ++ accounts)
    (fold_left (Coverage.aggregateStep kd) accounts rows).
Proof.
  revert processed rows.
  induction accounts as [|a accounts IH]; intros processed rows H; simpl.
  - now rewrite app_nil_r.
  - replace (processed ++ a :: accounts) with ((processed ++ [a]) ++ accounts)
      by now rewrite <- app_assoc.
    apply IH. now apply aggregated_step.
Qed.

Lemma aggregated_all (accounts : list Account) :
  aggregated kd accounts (fold_left (Coverage.aggregateStep kd) accounts []).
Proof.
  apply (aggregated_fold accounts [] []).
  repeat split; simpl; constructor.
Qed.

(** The rows returned by the handler are the aggregated rows with the
    limit applied; keys, holdings and running totals are untouched. *)
Lemma GET_rows (limit : Z) (accounts : list Account) :
  fst (Coverage.GET limit kd accounts) =
  map (Coverage.applyLimit limit)
      (fold_left (Coverage.aggregateStep kd) accounts []).
Proof. reflexivity. Qed.

End AggregatorFacts.

Section CoverageTheorems.

Variable kd : gset (list N).
Variable limit : Z.

Lemma applyLimit_licenses (rows : list CoverageRow) :
  map row_license (map (Coverage.applyLimit limit) rows) = map row_license rows.
Proof. rewrite map_map. now apply map_ext. Qed.

Lemma applyLimit_accounts (rows : list CoverageRow) :
  map row_accounts (map (Coverage.applyLimit limit) rows)
  = map row_accounts rows.
Proof. rewrite map_map. now apply map_ext. Qed.

Lemma eligibleHolding_true (a : Account) :
  eligibleHolding kd a = true <->
  In (acc_type a) [demand; term; fx_deposit; trust_protected] /\
  Coverage.compositeKey (acc_institution a) (default [] (acc_product_name a))
    ∈ kd.
Proof.
  unfold eligibleHolding, Coverage.matched.
  rewrite andb_true_iff, bool_decide_eq_true.
  assert (H : isProtectedType (acc_type a) = true <->
              In (acc_type a) [demand; term; fx_deposit; trust_protected]).
  { destruct (acc_type a); simpl; intuition congruence. }
  now rewrite H.
Qed.

End CoverageTheorems.

(** An investment holding whose (institution, product) pair is in the
    catalog, next to a demand holding of the same license that is in the
    catalog too. *)
Example coverage_investment_in_catalog :
  let kd := Coverage.loadKDIC [([75; 66]%N, [65]%N); ([75; 66]%N, [66]%N)] in
  let inv := mkAccount [] [75; 66]%N [] investment KRW (Some 7) None None
                       (Some [65]%N) in
  let dem := mkAccount [] [75; 66]%N [] demand KRW (Some 5) None None
                       (Some [66]%N) in
  Coverage.matched kd inv = true /\
  map (fun r => (row_eligible r, row_nonProtected r))
      (fst (Coverage.GET 50000000 kd [inv; dem])) = [(5, 7)].
Proof. vm_compute. split; reflexivity. Qed.

(** In a list without two elements of the same key, a key names at most
    one element. *)
Lemma unique_by_key {A B : Type} (f : A -> B) (l : list A) :
  List.NoDup (map f l) ->
  forall x y : A, In x l -> In y l -> f x = f y -> x = y.
Proof.
  induction l as [|z l IH]; intros Hnd x y Hx Hy Hxy; [destruct Hx|].
  simpl in Hnd. inversion Hnd as [|? ? Hnot Hnd']; subst.
  destruct Hx as [-> | Hx], Hy as [-> | Hy]; trivial.
  - exfalso. apply Hnot. rewrite Hxy. now apply in_map.
  - exfalso. apply Hnot. rewrite <- Hxy. now apply in_map.
  - now apply IH.
Qed.

(** C1. Every holding given to the coverage handler has a row, the one
    row whose key is the key of the holding, and the holding is among
    the holdings of that row.  In every row returned, [eligible] is the
    sum of the reporting-currency amounts of the row's holdings whose
    category is one of demand, term, fx_deposit, trust_protected and
    whose normalised (institution, product) key is in the catalog index,
    and [nonProtected] is the sum over the row's other holdings; so the
    amount of a holding is in [eligible] exactly when the holding passes
    both tests, and in [nonProtected] otherwise.  A holding of category
    investment is never among the first, whatever the catalog holds. *)
Theorem coverage_eligibility (limit : Z) (kd : gset (list N))
    (accounts : list Account) :
  (forall a : Account,
      In a accounts ->
      exists r,
        In r (fst (Coverage.GET limit kd accounts)) /\
        row_license r = Coverage.licenseOf a /\
        In a (holdingsOf (row_license r) accounts) /\
        (forall r', In r' (fst (Coverage.GET limit kd accounts)) ->
                    row_license r' = Coverage.licenseOf a -> r' = r)) /\
  Forall
    (fun r =>
       row_eligible r =
         sumKRW (List.filter (eligibleHolding kd)
                   (holdingsOf (row_license r) accounts)) /\
       row_nonProtected r =
         sumKRW (List.filter (fun a => negb (eligibleHolding kd a))
                   (holdingsOf (row_license r) accounts)))
    (fst (Coverage.GET limit kd accounts)) /\
  (forall a : Account,
      eligibleHolding kd a = true <->
      In (acc_type a) [demand; term; fx_deposit; trust_protected] /\
      Coverage.compositeKey (acc_institution a)
        (default [] (acc_product_name a)) ∈ kd) /\
  (forall a : Account,
      acc_type a = investment -> eligibleHolding kd a = false).
Proof.
  split; [|split; [|split]].
  - intros a Ha. rewrite GET_rows.
    destruct (aggregated_all kd accounts) as (Hnd & Hcov & _ & _).
    set (rows0 := fold_left (Coverage.aggregateStep kd) accounts []) in *.
    rewrite List.Forall_forall in Hcov. specialize (Hcov a Ha).
    rewrite <- (applyLimit_licenses limit) in Hcov, Hnd.
    apply in_map_iff in Hcov. destruct Hcov as (r & Hr & Hin).
    exists r. split; [exact Hin|]. split; [exact Hr|]. split.
    + unfold holdingsOf. apply filter_In. split; [exact Ha|].
      now apply bool_decide_eq_true_2.
    + intros r' Hin' Hr'.
      apply (unique_by_key row_license _ Hnd r' r Hin' Hin).
      now rewrite Hr, Hr'.
  - rewrite GET_rows, List.Forall_map.
    destruct (aggregated_all kd accounts) as (_ & _ & Htr & _).
    eapply List.Forall_impl; [|exact Htr].
    intros r (_ & He & Hn). simpl. now split.
  - apply eligibleHolding_true.
  - intros a Ha. unfold eligibleHolding. now rewrite Ha.
Qed.

(** Two holdings of one institution whose pair is in the catalog, a
    demand deposit of 7 and an investment of 5: the row of the
    investment holding has [eligible = 7] and [nonProtected = 5]. *)
Lemma coverage_eligibility_witness :
  let kd := Coverage.loadKDIC [([75; 66]%N, [65]%N)] in
  let deposit := mkAccount [49]%N [75; 66]%N [] demand KRW (Some 7) None None
                           (Some [65]%N) in
  let fund := mkAccount [50]%N [75; 66]%N [] investment KRW (Some 5) None None
                        (Some [65]%N) in
  exists r,
    In r (fst (Coverage.GET 50000000 kd [deposit; fund])) /\
    row_license r = Coverage.licenseOf fund /\
    row_eligible r = 7 /\ row_nonProtected r = 5.
Proof.
  intros kd deposit fund.
  destruct (coverage_eligibility 50000000 kd [deposit; fund])
    as (Hrow & Hsum & _ & _).
  destruct (Hrow fund) as (r & Hin & Hlic & _ & _); [simpl; tauto|].
  exists r. split; [exact Hin|]. split; [exact Hlic|].
  rewrite List.Forall_forall in Hsum. destruct (Hsum r Hin) as (He & Hn).
  rewrite He, Hn, Hlic. split; vm_compute; reflexivity.
Defined.

(** C2. Every row returned by the coverage handler has
    [protected = min(eligible, limit)], [excess = max(0, eligible - limit)]
    and [protected + excess = eligible]; the rows recomputed by the
    client when the limit is toggled satisfy the same equations. *)
Theorem limit_split (limit : Z) (kd : gset (list N)) (accounts : list Account)
    (rows : list CoverageRow) (totals : CoverageTotals) :
  Forall
    (fun r =>
       row_protected r = Z.min (row_eligible r) limit /\
       row_excess r = Z.max 0 (row_eligible r - limit) /\
       row_protected r + row_excess r = row_eligible r)
    (fst (Coverage.GET limit kd accounts)) /\
  Forall
    (fun r =>
       row_protected r = Z.min (row_eligible r) limit /\
       row_excess r = Z.max 0 (row_eligible r - limit) /\
       row_protected r + row_excess r = row_eligible r)
    (fst (DemoApp.adjusted limit rows totals)).
Proof.
  split.
  - rewrite GET_rows, List.Forall_map. apply List.Forall_forall.
    intros r _. simpl. lia.
  - destruct rows as [|r0 rows']; [constructor|].
    unfold DemoApp.adjusted, fst. rewrite List.Forall_map.
    apply List.Forall_forall. intros r _. simpl. lia.
Qed.

(** C10. The rows returned by the coverage handler partition the input:
    row keys are pairwise distinct, the [accounts] list of a row is the
    sub-sequence of the holdings whose key (the license field, or the
    institution name followed by the license suffix when that field is
    empty) is the row's key, every holding is in the row of its key, and
    the lists of all rows together are a rearrangement of the input. *)
Theorem coverage_partition (limit : Z) (kd : gset (list N))
    (accounts : list Account) :
  let rows := fst (Coverage.GET limit kd accounts) in
  Permutation (concat (map row_accounts rows)) accounts /\
  List.NoDup (map row_license rows) /\
  Forall (fun r => row_accounts r = holdingsOf (row_license r) accounts) rows /\
  Forall
    (fun a => exists r, In r rows /\ row_license r = Coverage.licenseOf a /\
                        In a (row_accounts r))
    accounts /\
  (forall a : Account,
      Coverage.licenseOf a =
      match acc_license a with
      | [] => acc_institution a ++ Coverage.licenseSuffix
      | _ :: _ => acc_license a
      end).
Proof.
  intros rows. subst rows. rewrite GET_rows.
  destruct (aggregated_all kd accounts) as (Hnd & Hcov & Htr & Hperm).
  set (rows0 := fold_left (Coverage.aggregateStep kd) accounts []) in *.
  assert (Hacc : Forall (fun r => row_accounts r
                                  = holdingsOf (row_license r) accounts)
                   (map (Coverage.applyLimit limit) rows0)).
  { rewrite List.Forall_map. eapply List.Forall_impl; [|exact Htr].
    intros r (Ha & _). exact Ha. }
  repeat split.
  - now rewrite applyLimit_accounts.
  - now rewrite applyLimit_licenses.
  - exact Hacc.
  - rewrite List.Forall_forall in Hcov, Hacc |- *. intros a Ha.
    specialize (Hcov a Ha). rewrite <- (applyLimit_licenses limit) in Hcov.
    apply in_map_iff in Hcov. destruct Hcov as (r & Hr & Hin).
    exists r. repeat split; trivial.
    rewrite (Hacc r Hin). unfold holdingsOf. apply filter_In.
    split; trivial. now apply bool_decide_eq_true_2.
  - intros a. unfold Coverage.licenseOf.
    destruct (acc_license a); [now rewrite bool_decide_eq_true_2|].
    now rewrite bool_decide_eq_false_2.
Qed.

(* ================================================================== *)
(** ** The routing allocator *)

Section RoutingFacts.

Lemma fold_left_allocate (l : list DemoApp.PlanEntry) (z : Z) :
  fold_left (fun s p => s + DemoApp.p_allocate p) l z = z + sumAllocate l.
Proof.
  revert z; induction l as [|p l IH]; intros z; simpl; [lia|].
  rewrite IH. lia.
Qed.

Lemma fold_left_toKRW (l : list Account) (z : Z) :
  fold_left (fun s a => s + toKRW a) l z = z + sumKRW l.
Proof.
  revert z; induction l as [|a l IH]; intros z; simpl; [lia|].
  rewrite IH. lia.
Qed.

Lemma sumAllocate_app (l1 l2 : list DemoApp.PlanEntry) :
  sumAllocate (l1 ++ l2) = sumAllocate l1 + sumAllocate l2.
Proof. induction l1 as [|p l1 IH]; simpl; [reflexivity|]. rewrite IH. lia. Qed.

Lemma already_entriesOf (plan : list DemoApp.PlanEntry) (lic : jsstring) :
  DemoApp.already plan lic = sumAllocate (entriesOf lic plan).
Proof. unfold DemoApp.already. now rewrite fold_left_allocate. Qed.

Lemma already_push (plan : list DemoApp.PlanEntry) (p : DemoApp.PlanEntry)
    (lic : jsstring) :
  DemoApp.already (plan ++ [p]) lic =
  DemoApp.already plan lic +
  (if bool_decide (DemoApp.p_license p = lic) then DemoApp.p_allocate p else 0).
Proof.
  rewrite !already_entriesOf. unfold entriesOf.
  rewrite List.filter_app, sumAllocate_app. simpl.
  destruct (bool_decide (DemoApp.p_license p = lic)); simpl; lia.
Qed.

Lemma demandKRW_sum (accounts : list Account) :
  DemoApp.demandKRW accounts = sumKRW (demandHoldings accounts).
Proof. unfold DemoApp.demandKRW. now rewrite fold_left_toKRW. Qed.

(** [usedByLicense[lic] ?? 0] is the sum over the holdings of eligible
    category that carry the license [lic]. *)
Lemma usedByLicense_lookup (accounts : list Account) (lic : jsstring) :
  default 0 (DemoApp.usedByLicense accounts !! lic)
  = sumKRW (usedHoldings lic accounts).
Proof.
  unfold DemoApp.usedByLicense.
  set (f := fun (m : gmap (list N) Z) (a : Account) => _).
  assert (H : forall l (m : gmap (list N) Z),
             default 0 (fold_left f l m !! lic)
             = default 0 (m !! lic) + sumKRW (usedHoldings lic l)).
  { induction l as [|a l IH]; intros m; simpl; [lia|].
    rewrite IH. unfold usedHoldings at 2. simpl.
    fold (usedHoldings lic l). unfold f.
    destruct (isProtectedType (acc_type a)); simpl; [|lia].
    destruct (decide (acc_license a = lic)) as [E|NE].
    - rewrite E, lookup_insert_eq, bool_decide_eq_true_2 by reflexivity.
      simpl. lia.
    - rewrite lookup_insert_ne, bool_decide_eq_false_2 by assumption.
      lia. }
  rewrite H, lookup_empty. simpl. lia.
Qed.

Variable used : gmap (list N) Z.

Lemma roomFor_nonneg (limit : Z) (plan : list DemoApp.PlanEntry)
    (lic : jsstring) :
  0 <= DemoApp.roomFor limit used plan lic.
Proof. unfold DemoApp.roomFor. lia. Qed.

(** The [break]: with no cash left the loop returns its state. *)
Lemma routeLoop_break (limit : Z) (sorted : list DemoApp.RateOffer)
    (remain : Z) (plan : list DemoApp.PlanEntry) :
  remain <= 0 -> DemoApp.routeLoop limit used sorted remain plan = (remain, plan).
Proof.
  intros H. destruct sorted as [|o rest]; simpl; trivial.
  destruct (Z.leb_spec remain 0); [reflexivity|lia].
Qed.

(** One iteration with cash left: an entry is pushed exactly when the
    least of the three bounds is positive. *)
Lemma routeLoop_cons (limit : Z) (o : DemoApp.RateOffer)
    (rest : list DemoApp.RateOffer) (remain : Z)
    (plan : list DemoApp.PlanEntry) :
  0 < remain ->
  DemoApp.routeLoop limit used (o :: rest) remain plan =
  let room := DemoApp.roomFor limit used plan (DemoApp.o_license o) in
  let alloc := Z.min (Z.min remain room) DemoApp.perOfferCap in
  if 0 <? alloc
  then DemoApp.routeLoop limit used rest (remain - alloc)
         (plan ++ [DemoApp.planEntry o room alloc])
  else DemoApp.routeLoop limit used rest remain plan.
Proof.
  intros H. simpl.
  destruct (Z.leb_spec remain 0); [lia|].
  destruct (Z.leb_spec (DemoApp.roomFor limit used plan (DemoApp.o_license o)) 0)
    as [Hr|Hr]; trivial.
  destruct (Z.ltb_spec 0
    (Z.min (Z.min remain (DemoApp.roomFor limit used plan (DemoApp.o_license o)))
           DemoApp.perOfferCap)); [lia|reflexivity].
Qed.

Lemma routeLoop_nonneg (limit : Z) (sorted : list DemoApp.RateOffer) :
  forall (remain : Z) (plan : list DemoApp.PlanEntry),
    0 <= remain -> 0 <= fst (DemoApp.routeLoop limit used sorted remain plan).
Proof.
  induction sorted as [|o rest IH]; intros remain plan H0; [exact H0|].
  destruct (Z.le_gt_cases remain 0) as [Hle|Hgt].
  - now rewrite routeLoop_break by assumption.
  - rewrite routeLoop_cons by lia. cbv zeta.
    destruct (Z.ltb_spec 0 (Z.min (Z.min remain
      (DemoApp.roomFor limit used plan (DemoApp.o_license o)))
      DemoApp.perOfferCap)); apply IH; lia.
Qed.

(** The loop keeps the accounts of the cash: what is left plus what is
    in the plan is the idle cash, nothing left is negative, and every
    entry respects its bound. *)
Lemma routeLoop_invariant (idle limit : Z) (sorted : list DemoApp.RateOffer) :
  forall (remain : Z) (plan : list DemoApp.PlanEntry),
    0 <= remain -> remain + sumAllocate plan = idle ->
    boundedPlan idle limit used plan ->
    let res := DemoApp.routeLoop limit used sorted remain plan in
    0 <= fst res /\ fst res + sumAllocate (snd res) = idle /\
    boundedPlan idle limit used (snd res).
Proof.
  induction sorted as [|o rest IH]; intros remain plan H0 Hsum Hb.
  - simpl. auto.
  - destruct (Z.le_gt_cases remain 0) as [Hle|Hgt].
    + rewrite routeLoop_break by assumption. simpl. auto.
    + rewrite routeLoop_cons by lia. cbv zeta.
      set (room := DemoApp.roomFor limit used plan (DemoApp.o_license o)).
      set (alloc := Z.min (Z.min remain room) DemoApp.perOfferCap).
      destruct (Z.ltb_spec 0 alloc) as [Hpos|Hnp]; [|now apply IH].
      apply IH.
      * subst alloc. lia.
      * rewrite sumAllocate_app. simpl. lia.
      * constructor; trivial. split; simpl; trivial.
        fold room. subst alloc. replace (idle - sumAllocate plan) with remain
          by lia. reflexivity.
Qed.

(** Read from the front: each entry of a bounded plan respects its
    bound relative to the entries before it. *)
Lemma boundedPlan_split (idle limit : Z) (plan : list DemoApp.PlanEntry) :
  boundedPlan idle limit used plan ->
  forall pre p post, plan = pre ++ p :: post -> entryBound idle limit used pre p.
Proof.
  induction 1 as [|plan e Hb IH He]; intros pre p post Heq.
  - destruct pre; discriminate Heq.
  - destruct post as [|x post _] using rev_ind.
    + apply app_inj_tail in Heq. destruct Heq as [-> ->]. exact He.
    + rewrite app_comm_cons, app_assoc in Heq.
      apply app_inj_tail in Heq. destruct Heq as [-> _].
      now apply (IH pre p post).
Qed.

(** What a bounded plan gives one license stays within the room the
    license had before the plan. *)
Lemma boundedPlan_license (idle limit : Z) (plan : list DemoApp.PlanEntry) :
  boundedPlan idle limit used plan ->
  forall lic,
    0 <= DemoApp.already plan lic <= Z.max 0 (limit - default 0 (used !! lic)).
Proof.
  induction 1 as [|plan e Hb IH [Hpos He]]; intros lic.
  - unfold DemoApp.already. simpl. lia.
  - rewrite already_push. specialize (IH lic).
    destruct (decide (DemoApp.p_license e = lic)) as [E|NE].
    + rewrite bool_decide_eq_true_2 by assumption.
      rewrite E in He. unfold DemoApp.roomFor in He. lia.
    + rewrite bool_decide_eq_false_2 by assumption. lia.
Qed.

(** Raising the limit cannot leave more cash unallocated. *)
Lemma routeLoop_monotone (cap1 cap2 : Z) (sorted : list DemoApp.RateOffer) :
  cap1 <= cap2 ->
  forall (r1 r2 : Z) (p1 p2 : list DemoApp.PlanEntry),
    0 <= r1 -> 0 <= r2 ->
    r2 = 0 \/
    (r2 <= r1 /\
     forall lic, DemoApp.roomFor cap1 used p1 lic
                 <= DemoApp.roomFor cap2 used p2 lic) ->
    fst (DemoApp.routeLoop cap2 used sorted r2 p2)
    <= fst (DemoApp.routeLoop cap1 used sorted r1 p1).
Proof.
  intros Hcap. induction sorted as [|o rest IH]; intros r1 r2 p1 p2 H1 H2 Hinv.
  - simpl. lia.
  - destruct (Z.le_gt_cases r2 0) as [Hz|Hgt2].
    { rewrite (routeLoop_break cap2) by lia. cbn [fst].
      pose proof (routeLoop_nonneg cap1 (o :: rest) r1 p1 H1). lia. }
    destruct Hinv as [Hz | [Hle Hroom]]; [lia|].
    rewrite !routeLoop_cons by lia. cbv zeta.
    pose proof (Hroom (DemoApp.o_license o)) as HL.
    pose proof (roomFor_nonneg cap1 p1 (DemoApp.o_license o)) as Hn1.
    set (rho1 := DemoApp.roomFor cap1 used p1 (DemoApp.o_license o)) in *.
    set (rho2 := DemoApp.roomFor cap2 used p2 (DemoApp.o_license o)) in *.
    set (a1 := Z.min (Z.min r1 rho1) DemoApp.perOfferCap).
    set (a2 := Z.min (Z.min r2 rho2) DemoApp.perOfferCap).
    assert (Hcapv : DemoApp.perOfferCap = 60000000) by reflexivity.
    destruct (Z.ltb_spec 0 a2) as [Hp2|Hn2];
      destruct (Z.ltb_spec 0 a1) as [Hp1|Hnp1].
    + apply IH; [subst a1; lia | subst a2; lia |].
      destruct (Z.eq_dec (r2 - a2) 0) as [E|NE]; [now left|right].
      split; [subst a1 a2; lia|].
      intros lic. specialize (Hroom lic).
      unfold DemoApp.roomFor in *. rewrite !already_push. simpl.
      destruct (decide (DemoApp.o_license o = lic)) as [E|NE'].
      * rewrite !bool_decide_eq_true_2 by assumption.
        subst lic. subst a1 a2 rho1 rho2. unfold DemoApp.roomFor in *. lia.
      * rewrite !bool_decide_eq_false_2 by assumption. lia.
    + apply IH; [lia | subst a2; lia |].
      destruct (Z.eq_dec (r2 - a2) 0) as [E|NE]; [now left|right].
      split; [subst a2; lia|].
      intros lic. specialize (Hroom lic).
      unfold DemoApp.roomFor in *. rewrite !already_push. simpl.
      destruct (decide (DemoApp.o_license o = lic)) as [E|NE'].
      * rewrite !bool_decide_eq_true_2 by assumption.
        subst lic. subst a1 a2 rho1 rho2. unfold DemoApp.roomFor in *. lia.
      * rewrite !bool_decide_eq_false_2 by assumption. lia.
    + exfalso. subst a1 a2. lia.
    + apply IH; [lia | lia |]. right. split; [lia|exact Hroom].
Qed.

End RoutingFacts.

Section RoutingResult.

Variable offers : list DemoApp.RateOffer.
Variable limit : Z.
Variable accounts : list Account.

Lemma computeRoutingWith_fields :
  let r := DemoApp.computeRoutingWith offers limit accounts in
  let res := DemoApp.routeLoop limit (DemoApp.usedByLicense accounts)
               (DemoApp.sortByRate offers) (DemoApp.idleCash r) [] in
  DemoApp.liquidityReserve r = 10000000 /\
  DemoApp.idleCash r = Z.max 0 (DemoApp.demandKRW accounts - 10000000) /\
  DemoApp.plan r = snd res /\
  DemoApp.projectedInterest r =
    Js.Math_round
      (fold_left
         (fun s p => s + inject_Z (DemoApp.p_allocate p) * DemoApp.p_rate p)%Q
         (DemoApp.plan r) 0%Q).
Proof.
  unfold DemoApp.computeRoutingWith.
  destruct (DemoApp.routeLoop limit (DemoApp.usedByLicense accounts)
              (DemoApp.sortByRate offers)
              (Z.max 0 (DemoApp.demandKRW accounts - 10000000)) [])
    as [rem pl] eqn:E.
  simpl. rewrite E. simpl. repeat split.
Qed.

(** The whole run: the plan is bounded, and it accounts for the idle
    cash together with the cash left over. *)
Lemma computeRoutingWith_bounded :
  let r := DemoApp.computeRoutingWith offers limit accounts in
  boundedPlan (DemoApp.idleCash r) limit (DemoApp.usedByLicense accounts)
    (DemoApp.plan r) /\
  exists remain, 0 <= remain /\
    remain + sumAllocate (DemoApp.plan r) = DemoApp.idleCash r /\
    remain = fst (DemoApp.routeLoop limit (DemoApp.usedByLicense accounts)
                    (DemoApp.sortByRate offers) (DemoApp.idleCash r) []).
Proof.
  intros r. destruct computeRoutingWith_fields as (_ & Hidle & Hplan & _).
  fold r in Hidle, Hplan.
  pose proof (routeLoop_invariant (DemoApp.usedByLicense accounts)
                (DemoApp.idleCash r) limit (DemoApp.sortByRate offers)
                (DemoApp.idleCash r) []) as H.
  cbv zeta in H. rewrite <- Hplan in H.
  destruct H as (H0 & Hsum & Hb).
  - rewrite Hidle. lia.
  - simpl. lia.
  - constructor.
  - split; [exact Hb|]. eexists. split; [exact H0|]. split; [exact Hsum|].
    reflexivity.
Qed.

End RoutingResult.

(** A holding of 200,000,000 under the license of 저축은행C and a demand
    holding of 30,000,000 elsewhere, limit 100,000,000: the license is
    over its limit and receives nothing, which is more than the negative
    difference limit - used. *)
Lemma headroom_bound_counterexample :
  let lic := [51200; 52629; 51008; 54665; 67]%N ++ Coverage.licenseSuffix in
  let accounts :=
    [ mkAccount [] [51200; 52629; 51008; 54665; 67]%N lic term KRW
                (Some 200000000) None (Some 12) None;
      mkAccount [] [88]%N [88; 76]%N demand KRW (Some 30000000) None None None ] in
  let r := DemoApp.computeRouting 100000000 accounts in
  sumAllocate (entriesOf lic (DemoApp.plan r)) = 0 /\
  sumKRW (usedHoldings lic accounts) = 200000000 /\
  ~ (sumAllocate (entriesOf lic (DemoApp.plan r))
     <= 100000000 - sumKRW (usedHoldings lic accounts)).
Proof.
  vm_compute. repeat split; trivial. intros H. now apply H.
Qed.

(** C3 (amended). For every license, what the plan allocates to it is
    never negative and is at most the room of the license under the
    limit, [max(0, limit - used)], where [used] sums the holdings of
    eligible category that carry the license; when the license is within
    its limit this room is [limit - used]. *)
Theorem headroom_bound (offers : list DemoApp.RateOffer) (limit : Z)
    (accounts : list Account) (lic : jsstring) :
  let r := DemoApp.computeRoutingWith offers limit accounts in
  default 0 (DemoApp.usedByLicense accounts !! lic)
    = sumKRW (usedHoldings lic accounts) /\
  0 <= sumAllocate (entriesOf lic (DemoApp.plan r))
    <= Z.max 0 (limit - sumKRW (usedHoldings lic accounts)).
Proof.
  intros r. split; [apply usedByLicense_lookup|].
  destruct (computeRoutingWith_bounded offers limit accounts) as (Hb & _).
  fold r in Hb.
  pose proof (boundedPlan_license _ _ _ _ Hb lic) as H.
  now rewrite already_entriesOf, usedByLicense_lookup in H.
Qed.

(** C5. The allocations of the plan add up to at most the idle cash
    that [computeRouting] returns. *)
Theorem allocation_within_idleCash (offers : list DemoApp.RateOffer)
    (limit : Z) (accounts : list Account) :
  sumAllocate (DemoApp.plan (DemoApp.computeRoutingWith offers limit accounts))
  <= DemoApp.idleCash (DemoApp.computeRoutingWith offers limit accounts).
Proof.
  destruct (computeRoutingWith_bounded offers limit accounts)
    as (_ & remain & H0 & Hsum & _).
  cbv zeta in Hsum. lia.
Qed.

(** C4. Raising the per-license limit never lowers the total allocated
    by the plan, for any holdings and any list of offers. *)
Theorem allocation_monotone (offers : list DemoApp.RateOffer)
    (accounts : list Account) (cap1 cap2 : Z) :
  cap1 <= cap2 ->
  sumAllocate (DemoApp.plan (DemoApp.computeRoutingWith offers cap1 accounts))
  <= sumAllocate (DemoApp.plan (DemoApp.computeRoutingWith offers cap2 accounts)).
Proof.
  intros Hcap.
  destruct (computeRoutingWith_bounded offers cap1 accounts)
    as (_ & rem1 & _ & Hsum1 & Hrem1).
  destruct (computeRoutingWith_bounded offers cap2 accounts)
    as (_ & rem2 & _ & Hsum2 & Hrem2).
  destruct (computeRoutingWith_fields offers cap1 accounts) as (_ & Hi1 & _).
  destruct (computeRoutingWith_fields offers cap2 accounts) as (_ & Hi2 & _).
  cbv zeta in *.
  assert (Hidle : DemoApp.idleCash (DemoApp.computeRoutingWith offers cap2 accounts)
                  = DemoApp.idleCash (DemoApp.computeRoutingWith offers cap1 accounts))
    by congruence.
  rewrite Hidle in *.
  set (idle := DemoApp.idleCash (DemoApp.computeRoutingWith offers cap1 accounts)) in *.
  assert (H0 : 0 <= idle) by lia.
  pose proof (routeLoop_monotone (DemoApp.usedByLicense accounts) cap1 cap2
                (DemoApp.sortByRate offers) Hcap idle idle [] [] H0 H0) as Hm.
  assert (rem2 <= rem1); [|lia].
  rewrite Hrem1, Hrem2. apply Hm. right. split; [lia|].
  intros lic. unfold DemoApp.roomFor. lia.
Qed.

Lemma allocation_monotone_witness :
  sumAllocate
    (DemoApp.plan
       (DemoApp.computeRoutingWith DemoApp.rateOffers 50000000
          [mkAccount [] [88]%N [88; 76]%N demand KRW (Some 400000000)
                     None None None]))
  <= sumAllocate
       (DemoApp.plan
          (DemoApp.computeRoutingWith DemoApp.rateOffers 100000000
             [mkAccount [] [88]%N [88; 76]%N demand KRW (Some 400000000)
                        None None None])).
Proof. apply allocation_monotone. lia. Defined.

Example allocation_monotone_values :
  map (fun cap =>
         sumAllocate
           (DemoApp.plan
              (DemoApp.computeRouting cap
                 [mkAccount [] [88]%N [88; 76]%N demand KRW (Some 400000000)
                            None None None])))
      [50000000; 100000000]
  = [250000000; 300000000].
Proof. vm_compute. reflexivity. Qed.

(** C6. Each entry of the plan allocates the least of the three bounds
    active when it is pushed: the idle cash not yet allocated, the room
    of its license (limit minus used minus what the plan already gives
    the license, floored at 0) and the ceiling of 60,000,000 per offer;
    so the allocation is not negative and exceeds none of the three.
    An offer whose license has no room left is passed over: the loop
    goes on with the same cash and the same plan. *)
Theorem allocation_binding_minimum (offers : list DemoApp.RateOffer)
    (limit : Z) (accounts : list Account) :
  let r := DemoApp.computeRoutingWith offers limit accounts in
  (forall (pre : list DemoApp.PlanEntry) (p : DemoApp.PlanEntry)
          (post : list DemoApp.PlanEntry),
      DemoApp.plan r = pre ++ p :: post ->
      let remain := DemoApp.idleCash r - sumAllocate pre in
      let room :=
        Z.max 0 (limit - sumKRW (usedHoldings (DemoApp.p_license p) accounts)
                 - sumAllocate (entriesOf (DemoApp.p_license p) pre)) in
      0 <= DemoApp.p_allocate p /\
      DemoApp.p_allocate p <= remain /\
      DemoApp.p_allocate p <= room /\
      DemoApp.p_allocate p <= 60000000 /\
      DemoApp.p_allocate p = Z.min (Z.min remain room) 60000000) /\
  (forall (o : DemoApp.RateOffer) (rest : list DemoApp.RateOffer)
          (remain : Z) (plan : list DemoApp.PlanEntry),
      limit - sumKRW (usedHoldings (DemoApp.o_license o) accounts)
        - sumAllocate (entriesOf (DemoApp.o_license o) plan) <= 0 ->
      DemoApp.routeLoop limit (DemoApp.usedByLicense accounts) (o :: rest)
        remain plan
      = DemoApp.routeLoop limit (DemoApp.usedByLicense accounts) rest
          remain plan).
Proof.
  intros r. split.
  - intros pre p post Heq remain room.
    destruct (computeRoutingWith_bounded offers limit accounts) as (Hb & _).
    fold r in Hb.
    destruct (boundedPlan_split _ _ _ _ Hb pre p post Heq) as [Hpos Hmin].
    unfold DemoApp.roomFor in Hmin.
    rewrite already_entriesOf, usedByLicense_lookup in Hmin.
    fold room remain in Hmin.
    change DemoApp.perOfferCap with 60000000 in Hmin. lia.
  - intros o rest remain plan Hroom.
    destruct (Z.le_gt_cases remain 0) as [Hle|Hgt].
    + now rewrite !routeLoop_break by assumption.
    + rewrite routeLoop_cons by assumption. cbv zeta.
      unfold DemoApp.roomFor.
      rewrite already_entriesOf, usedByLicense_lookup.
      destruct (Z.ltb_spec 0
        (Z.min (Z.min remain
           (Z.max 0 (limit - sumKRW (usedHoldings (DemoApp.o_license o) accounts)
                     - sumAllocate (entriesOf (DemoApp.o_license o) plan))))
           DemoApp.perOfferCap)); [lia|reflexivity].
Qed.

(** Demand holdings of 80,000,000: idle cash 70,000,000; the best offer
    takes the ceiling of 60,000,000 and the second entry the 10,000,000
    that are left. *)
Lemma allocation_binding_minimum_witness :
  let accounts :=
    [mkAccount [] [88]%N [88; 76]%N demand KRW (Some 80000000) None None None] in
  let r := DemoApp.computeRoutingWith DemoApp.rateOffers 100000000 accounts in
  let pre := firstn 1 (DemoApp.plan r) in
  let p := nth 1 (DemoApp.plan r)
             (DemoApp.planEntry (DemoApp.mkOffer [] [] [] 0 0) 0 0) in
  DemoApp.plan r = pre ++ p :: [] /\
  DemoApp.p_allocate p = 10000000 /\
  DemoApp.p_allocate p
  = Z.min (Z.min (DemoApp.idleCash r - sumAllocate pre)
             (Z.max 0 (100000000
                       - sumKRW (usedHoldings (DemoApp.p_license p) accounts)
                       - sumAllocate (entriesOf (DemoApp.p_license p) pre))))
          60000000.
Proof.
  intros accounts r pre p.
  assert (Heq : DemoApp.plan r = pre ++ p :: []) by (vm_compute; reflexivity).
  split; [exact Heq|]. split; [vm_compute; reflexivity|].
  exact (proj2 (proj2 (proj2 (proj2
    (proj1 (allocation_binding_minimum DemoApp.rateOffers 100000000 accounts)
       pre p [] Heq))))).
Defined.

(** Offers without room are passed over. *)
Lemma routeLoop_skip (limit : Z) (used : gmap (list N) Z)
    (skipped rest : list DemoApp.RateOffer) (remain : Z)
    (plan : list DemoApp.PlanEntry) :
  Forall (fun s => DemoApp.roomFor limit used plan (DemoApp.o_license s) = 0)
    skipped ->
  DemoApp.routeLoop limit used (skipped ++ rest) remain plan
  = DemoApp.routeLoop limit used rest remain plan.
Proof.
  induction 1 as [|s skipped Hs _ IH]; [reflexivity|].
  cbn [app DemoApp.routeLoop].
  destruct (Z.leb_spec remain 0) as [Hr|Hr];
    [now rewrite routeLoop_break by assumption|].
  rewrite Hs. exact IH.
Qed.

(** C7. [computeRouting] returns [idleCash = max(0, demandTotal -
    liquidityReserve)] with a reserve of 10,000,000, where [demandTotal]
    sums the demand holdings.  With demand holdings of 12,000,000 the
    idle cash is 2,000,000.  When the first offer in descending order of
    rate that has room has room for at least 2,000,000 (the offers
    before it have none), it is the single offer used: the plan is one
    entry of 2,000,000 for it and the projected interest is
    [round(2,000,000 * rate)].  For [computeRouting] itself, with its
    five offers: when the offer of the highest rate, 3.9%, has such
    room, the plan is that one entry and the projected interest is
    78,000. *)
Theorem idleCash_scenario :
  (forall (offers : list DemoApp.RateOffer) (limit : Z)
          (accounts : list Account),
      let r := DemoApp.computeRoutingWith offers limit accounts in
      DemoApp.liquidityReserve r = 10000000 /\
      DemoApp.idleCash r =
        Z.max 0 (sumKRW (demandHoldings accounts) - DemoApp.liquidityReserve r)) /\
  (forall (offers : list DemoApp.RateOffer) (limit : Z)
          (accounts : list Account),
      sumKRW (demandHoldings accounts) = 12000000 ->
      DemoApp.idleCash (DemoApp.computeRoutingWith offers limit accounts)
      = 2000000) /\
  (forall (offers : list DemoApp.RateOffer) (limit : Z)
          (accounts : list Account)
          (skipped : list DemoApp.RateOffer) (o : DemoApp.RateOffer)
          (rest : list DemoApp.RateOffer),
      sumKRW (demandHoldings accounts) = 12000000 ->
      DemoApp.sortByRate offers = skipped ++ o :: rest ->
      Forall
        (fun s => DemoApp.roomFor limit (DemoApp.usedByLicense accounts) []
                    (DemoApp.o_license s) = 0)
        skipped ->
      2000000 <= DemoApp.roomFor limit (DemoApp.usedByLicense accounts) []
                   (DemoApp.o_license o) ->
      let r := DemoApp.computeRoutingWith offers limit accounts in
      DemoApp.plan r =
        [DemoApp.planEntry o
           (DemoApp.roomFor limit (DemoApp.usedByLicense accounts) []
              (DemoApp.o_license o))
           2000000] /\
      DemoApp.projectedInterest r
      = Js.Math_round (inject_Z 2000000 * DemoApp.o_rate o)) /\
  (forall (limit : Z) (accounts : list Account) (o : DemoApp.RateOffer),
      sumKRW (demandHoldings accounts) = 12000000 ->
      hd_error (DemoApp.sortByRate DemoApp.rateOffers) = Some o ->
      2000000 <= DemoApp.roomFor limit (DemoApp.usedByLicense accounts) []
                   (DemoApp.o_license o) ->
      let r := DemoApp.computeRouting limit accounts in
      DemoApp.idleCash r = 2000000 /\
      DemoApp.plan r =
        [DemoApp.planEntry o
           (DemoApp.roomFor limit (DemoApp.usedByLicense accounts) []
              (DemoApp.o_license o))
           2000000] /\
      (DemoApp.o_rate o == 39 # 1000)%Q /\
      DemoApp.projectedInterest r = 78000).
Proof.
  assert (Hidle : forall offers limit accounts,
             let r := DemoApp.computeRoutingWith offers limit accounts in
             DemoApp.liquidityReserve r = 10000000 /\
             DemoApp.idleCash r =
               Z.max 0 (sumKRW (demandHoldings accounts)
                        - DemoApp.liquidityReserve r)).
  { intros offers limit accounts r.
    destruct (computeRoutingWith_fields offers limit accounts)
      as (Hres & Hi & _).
    fold r in Hres, Hi. rewrite Hres, Hi, demandKRW_sum. now split. }
  assert (Htwo : forall offers limit accounts,
             sumKRW (demandHoldings accounts) = 12000000 ->
             DemoApp.idleCash (DemoApp.computeRoutingWith offers limit accounts)
             = 2000000).
  { intros offers limit accounts Hsum.
    destruct (Hidle offers limit accounts) as (Hres & Hi).
    rewrite Hi, Hres, Hsum. reflexivity. }
  assert (Hone : forall offers limit accounts skipped o rest,
             sumKRW (demandHoldings accounts) = 12000000 ->
             DemoApp.sortByRate offers = skipped ++ o :: rest ->
             Forall
               (fun s => DemoApp.roomFor limit (DemoApp.usedByLicense accounts)
                           [] (DemoApp.o_license s) = 0)
               skipped ->
             2000000 <= DemoApp.roomFor limit (DemoApp.usedByLicense accounts)
                          [] (DemoApp.o_license o) ->
             let r := DemoApp.computeRoutingWith offers limit accounts in
             DemoApp.plan r =
               [DemoApp.planEntry o
                  (DemoApp.roomFor limit (DemoApp.usedByLicense accounts) []
                     (DemoApp.o_license o))
                  2000000] /\
             DemoApp.projectedInterest r
             = Js.Math_round (inject_Z 2000000 * DemoApp.o_rate o)).
  { intros offers limit accounts skipped o rest Hsum Hsorted Hskip Hroom r.
    pose proof (Htwo offers limit accounts Hsum) as Hi. fold r in Hi.
    destruct (computeRoutingWith_fields offers limit accounts)
      as (_ & _ & Hplan & Hint).
    fold r in Hplan, Hint. rewrite Hi, Hsorted in Hplan.
    rewrite routeLoop_skip in Hplan by assumption.
    rewrite routeLoop_cons in Hplan by lia. cbv zeta in Hplan.
    set (room := DemoApp.roomFor limit (DemoApp.usedByLicense accounts) []
                   (DemoApp.o_license o)) in *.
    assert (Hmin : Z.min (Z.min 2000000 room) DemoApp.perOfferCap = 2000000).
    { change DemoApp.perOfferCap with 60000000. lia. }
    rewrite Hmin in Hplan.
    change (0 <? 2000000) with true in Hplan. cbv iota in Hplan.
    rewrite routeLoop_break in Hplan by lia. cbn [snd app] in Hplan.
    split; [exact Hplan|].
    rewrite Hint, Hplan. simpl. unfold Js.Math_round.
    apply Qfloor_comp. ring. }
  split; [exact Hidle|]. split; [exact Htwo|]. split; [exact Hone|].
  intros limit accounts o Hsum Hhd Hroom r.
  assert (Ho : DemoApp.sortByRate DemoApp.rateOffers
               = [] ++ o :: tl (DemoApp.sortByRate DemoApp.rateOffers)).
  { destruct (DemoApp.sortByRate DemoApp.rateOffers) as [|o' rest'];
      [discriminate Hhd|].
    injection Hhd as ->. reflexivity. }
  destruct (Hone DemoApp.rateOffers limit accounts [] o _ Hsum Ho
              (List.Forall_nil _) Hroom) as (Hplan & Hint).
  split; [exact (Htwo DemoApp.rateOffers limit accounts Hsum)|].
  split; [exact Hplan|].
  assert (Hrate : (DemoApp.o_rate o == 39 # 1000)%Q).
  { vm_compute in Hhd. injection Hhd as <-. reflexivity. }
  split; [exact Hrate|].
  unfold r, DemoApp.computeRouting. rewrite Hint.
  unfold Js.Math_round. rewrite Hrate. reflexivity.
Qed.

(** One demand holding of 12,000,000 at an institution without offers,
    under a limit of 100,000,000: [computeRouting] puts the idle
    2,000,000 on the offer of the highest rate. *)
Lemma idleCash_scenario_witness :
  let accounts :=
    [mkAccount [] [88]%N [88; 76]%N demand KRW (Some 12000000) None None None] in
  let r := DemoApp.computeRouting 100000000 accounts in
  sumKRW (demandHoldings accounts) = 12000000 /\
  DemoApp.idleCash r = 2000000 /\
  map DemoApp.p_allocate (DemoApp.plan r) = [2000000] /\
  DemoApp.projectedInterest r = 78000.
Proof.
  intros accounts r.
  assert (Hsum : sumKRW (demandHoldings accounts) = 12000000) by reflexivity.
  split; [exact Hsum|].
  destruct (proj2 (proj2 (proj2 idleCash_scenario)) 100000000 accounts
              _ Hsum eq_refl) as (Hi & Hplan & _ & Hint).
  - vm_compute. discriminate.
  - fold r in Hi, Hplan, Hint. rewrite Hplan.
    split; [exact Hi|]. split; [reflexivity|exact Hint].
Defined.

(* ================================================================== *)
(** ** Worked values *)

Example sortByRate_rateOffers :
  map DemoApp.o_rate (DemoApp.sortByRate DemoApp.rateOffers)
  = [39 # 1000; 34 # 1000; 33 # 1000; 31 # 1000; 29 # 1000]%Q.
Proof. reflexivity. Qed.

Example toKRW_usd_default_rate :
  toKRW (mkAccount [] [88]%N [] fx_deposit USD (Some 1000) None None None)
  = 1400000.
Proof. reflexivity. Qed.

Example classifyTier_values :
  map Coverage.classifyTier
    [ [44397; 48124; 51008; 54665]%N;          (* 국민은행 *)
      [51200; 52629; 51008; 54665; 67]%N;      (* 저축은행C *)
      [75; 66; 51613; 44428]%N ]               (* KB증권 *)
  = [Tier1; Tier2; TierOther].
Proof. reflexivity. Qed.

(* ================================================================== *)
(** ** More on the coverage aggregator: order, seeds, totals *)

Section FirstSeen.

Lemma firstSeen_In (l : list (list N)) (x : list N) :
  In x (firstSeen l) <-> In x l.
Proof.
  induction l as [|y t IH]; simpl; [tauto|].
  rewrite filter_In, IH, negb_true_iff, bool_decide_eq_false.
  destruct (decide (x = y)) as [->|NE]; [tauto|].
  split; [tauto|]. intros [E|H]; [congruence|tauto].
Qed.

Lemma firstSeen_NoDup (l : list (list N)) : List.NoDup (firstSeen l).
Proof.
  induction l as [|y t IH]; simpl; constructor.
  - rewrite filter_In, negb_true_iff, bool_decide_eq_false. tauto.
  - now apply List.NoDup_filter.
Qed.

Lemma filter_absent (x : list N) (l : list (list N)) :
  ~ In x l -> List.filter (fun y => negb (bool_decide (y = x))) l = l.
Proof.
  induction l as [|y t IH]; simpl; intros H; trivial.
  rewrite bool_decide_eq_false_2 by (intros E; apply H; now left).
  simpl. rewrite IH; tauto.
Qed.

(** Reading one more string: it is appended when it is new. *)
Lemma firstSeen_snoc (l : list (list N)) (x : list N) :
  (In x l -> firstSeen (l ++ [x]) = firstSeen l) /\
  (~ In x l -> firstSeen (l ++ [x]) = firstSeen l ++ [x]).
Proof.
  induction l as [|y t [IH1 IH2]]; simpl.
  - split; [tauto|reflexivity].
  - destruct (decide (y = x)) as [->|NE].
    + split; [intros _|tauto].
      destruct (decide (x ∈ t)) as [Hin|Hnin]; rewrite list_elem_of_In in *.
      * now rewrite IH1.
      * rewrite IH2 by assumption. rewrite List.filter_app. simpl.
        rewrite bool_decide_eq_true_2 by reflexivity. simpl.
        now rewrite app_nil_r.
    + split.
      * intros [E|Hin]; [congruence|]. now rewrite IH1.
      * intros Hnin. rewrite IH2 by tauto.
        rewrite List.filter_app. simpl.
        rewrite bool_decide_eq_false_2 by congruence. reflexivity.
Qed.

End FirstSeen.

Section SeededRows.

Variable kd : gset (list N).

Lemma holdingsOf_none (lic : jsstring) (l : list Account) :
  Forall (fun b => Coverage.licenseOf b <> lic) l -> holdingsOf lic l = [].
Proof.
  unfold holdingsOf. induction 1 as [|b l Hb _ IH]; simpl; trivial.
  now rewrite bool_decide_eq_false_2.
Qed.

Lemma addAccount_products (a : Account) (r : CoverageRow) (h : list Account) :
  row_products r = firstSeen (productNames h) ->
  row_products (Coverage.addAccount kd a r)
  = firstSeen (productNames (h ++ [a])).
Proof.
  intros Hp. unfold productNames. rewrite flat_map_app. simpl.
  fold (productNames h). rewrite app_nil_r.
  destruct (acc_product_name a) as [[|c n]|]; simpl;
    rewrite ?app_nil_r; trivial.
  destruct (firstSeen_snoc (productNames h) (c :: n)) as [Hold Hnew].
  destruct (existsb (fun p => bool_decide (p = c :: n)) (row_products r)) eqn:E.
  - rewrite Hold; trivial.
    apply existsb_exists in E. destruct E as (p & Hin & Hpe).
    apply bool_decide_eq_true_1 in Hpe. subst p.
    rewrite Hp in Hin. exact (proj1 (firstSeen_In _ _) Hin).
  - rewrite Hnew, Hp; trivial.
    intros Hin. apply (proj2 (firstSeen_In _ _)) in Hin. rewrite <- Hp in Hin.
    assert (existsb (fun p => bool_decide (p = c :: n)) (row_products r) = true).
    { apply existsb_exists. exists (c :: n). split; trivial.
      now apply bool_decide_eq_true_2. }
    congruence.
Qed.

Lemma rowSeeded_other (processed : list Account) (a : Account)
    (r : CoverageRow) :
  row_license r <> Coverage.licenseOf a ->
  rowSeeded processed r -> rowSeeded (processed ++ [a]) r.
Proof.
  intros Hne H. unfold rowSeeded in *.
  rewrite holdingsOf_snoc, bool_decide_eq_false_2 by congruence.
  now rewrite app_nil_r.
Qed.

Lemma rowSeeded_target (processed : list Account) (a : Account)
    (r : CoverageRow) :
  row_license r = Coverage.licenseOf a ->
  rowSeeded processed r ->
  rowSeeded (processed ++ [a]) (Coverage.addAccount kd a r).
Proof.
  intros Heq [Hseed Hprod]. unfold rowSeeded.
  rewrite addAccount_license, holdingsOf_snoc.
  rewrite bool_decide_eq_true_2 by congruence. split.
  - destruct (holdingsOf (row_license r) processed); [destruct Hseed|].
    exact Hseed.
  - now apply addAccount_products.
Qed.

Lemma rowSeeded_new (processed : list Account) (a : Account) :
  Forall (fun b => Coverage.licenseOf b <> Coverage.licenseOf a) processed ->
  rowSeeded (processed ++ [a])
    (Coverage.addAccount kd a (Coverage.newRow (Coverage.licenseOf a) a)).
Proof.
  intros H. unfold rowSeeded.
  rewrite addAccount_license. simpl row_license.
  rewrite holdingsOf_snoc, (holdingsOf_none _ _ H).
  rewrite bool_decide_eq_true_2 by reflexivity. simpl app. split.
  - now split.
  - change [a] with ([] ++ [a]). now apply addAccount_products.
Qed.

(** The rows stay in first-seen order of their keys, each with the seed
    of its first holding. *)
Lemma seeded_step (processed : list Account) (rows : list CoverageRow)
    (a : Account) :
  map row_license rows = firstSeen (map Coverage.licenseOf processed) ->
  Forall (rowSeeded processed) rows ->
  map row_license (Coverage.aggregateStep kd rows a)
  = firstSeen (map Coverage.licenseOf (processed ++ [a])) /\
  Forall (rowSeeded (processed ++ [a])) (Coverage.aggregateStep kd rows a).
Proof.
  intros Hlic Hseed.
  assert (Hnd : List.NoDup (map row_license rows)).
  { rewrite Hlic. apply firstSeen_NoDup. }
  destruct (aggregateStep_shape kd rows a Hnd)
    as (l1 & r & l2 & -> & Hr & H1 & H2 & Hcase).
  destruct (firstSeen_snoc (map Coverage.licenseOf processed)
              (Coverage.licenseOf a)) as [Hold Hnew].
  assert (Hml : map row_license (l1 ++ Coverage.addAccount kd a r :: l2)
                = map row_license (l1 ++ r :: l2)) by (now rewrite !map_app).
  assert (Hmp : map Coverage.licenseOf (processed ++ [a])
                = map Coverage.licenseOf processed ++ [Coverage.licenseOf a])
    by (now rewrite map_app).
  rewrite Hml, Hmp. clear Hml Hmp.
  assert (Hother : forall r', In r' (l1 ++ l2) ->
                              row_license r' <> Coverage.licenseOf a).
  { intros r' Hin E. apply in_app_or in Hin.
    destruct Hin as [Hin|Hin]; [apply H1|apply H2];
      rewrite <- E; now apply in_map. }
  destruct Hcase as [-> | (-> & -> & ->)].
  - split.
    + rewrite Hold; [exact Hlic|].
      apply firstSeen_In. rewrite <- Hlic, map_app.
      apply in_or_app. right. left. exact Hr.
    + rewrite List.Forall_forall in Hseed |- *. intros r' Hin.
      apply in_app_or in Hin. destruct Hin as [Hin | [<- | Hin]].
      * apply rowSeeded_other; [apply Hother|apply Hseed];
          apply in_or_app; tauto.
      * apply rowSeeded_target; trivial. apply Hseed.
        apply in_or_app. right. now left.
      * apply rowSeeded_other; [apply Hother|apply Hseed];
          apply in_or_app; simpl; tauto.
  - assert (Hnot : ~ In (Coverage.licenseOf a)
                       (map Coverage.licenseOf processed)).
    { intros Hin. apply (proj2 (firstSeen_In _ _)) in Hin.
      now rewrite <- Hlic in Hin. }
    split.
    + rewrite Hnew by assumption. rewrite <- Hlic, map_app. reflexivity.
    + rewrite List.Forall_app. split.
      * rewrite List.Forall_forall in Hseed |- *. intros r' Hin.
        apply rowSeeded_other; [|now apply Hseed].
        apply Hother. apply in_or_app. now left.
      * constructor; [|constructor]. apply rowSeeded_new.
        rewrite List.Forall_forall. intros b Hb E. apply Hnot.
        rewrite <- E. now apply in_map.
Qed.

Lemma seeded_fold (accounts processed : list Account)
    (rows : list CoverageRow) :
  map row_license rows = firstSeen (map Coverage.licenseOf processed) ->
  Forall (rowSeeded processed) rows ->
  map row_license (fold_left (Coverage.aggregateStep kd) accounts rows)
  = firstSeen (map Coverage.licenseOf (processed ++ accounts)) /\
  Forall (rowSeeded (processed ++ accounts))
    (fold_left (Coverage.aggregateStep kd) accounts rows).
Proof.
  revert processed rows.
  induction accounts as [|a accounts IH]; intros processed rows Hl Hs; simpl.
  - now rewrite app_nil_r.
  - replace (processed ++ a :: accounts) with ((processed ++ [a]) ++ accounts)
      by now rewrite <- app_assoc.
    destruct (seeded_step processed rows a Hl Hs) as [Hl' Hs'].
    now apply IH.
Qed.

End SeededRows.

(** X1. The rows come out in the order in which their keys first occur
    in the input; each row shows the institution of the first holding of
    its key and the tier of that institution, and lists the distinct
    non-empty product names of its holdings in first-seen order. *)
Theorem coverage_rows_first_seen (limit : Z) (kd : gset (list N))
    (accounts : list Account) :
  let rows := fst (Coverage.GET limit kd accounts) in
  map row_license rows = firstSeen (map Coverage.licenseOf accounts) /\
  Forall
    (fun r =>
       exists a rest,
         holdingsOf (row_license r) accounts = a :: rest /\
         row_institutions r = acc_institution a /\
         row_tier r = Coverage.classifyTier (acc_institution a))
    rows /\
  Forall
    (fun r =>
       row_products r
       = firstSeen (productNames (holdingsOf (row_license r) accounts)))
    rows.
Proof.
  intros rows. subst rows. rewrite GET_rows.
  destruct (seeded_fold kd accounts [] []) as [Hl Hs]; [reflexivity|constructor|].
  simpl app in *. rewrite applyLimit_licenses. split; [exact Hl|].
  split; rewrite List.Forall_map; (eapply List.Forall_impl; [|exact Hs]);
    intros r [Hseed Hprod]; simpl.
  - destruct (holdingsOf (row_license r) accounts) as [|a rest];
      [destruct Hseed|]. now exists a, rest.
  - exact Hprod.
Qed.

Example coverage_rows_first_seen_values :
  let a1 := mkAccount [] [66]%N [] demand KRW (Some 1) None None (Some [120]%N) in
  let a2 := mkAccount [] [65]%N [] demand KRW (Some 2) None None (Some [121]%N) in
  let a3 := mkAccount [] [66]%N [] term KRW (Some 4) None None (Some [120]%N) in
  map (fun r => (row_institutions r, row_products r, length (row_accounts r)))
      (fst (Coverage.GET 10 ∅ [a1; a2; a3]))
  = [([66]%N, [[120]%N], 2%nat); ([65]%N, [[121]%N], 1%nat)].
Proof. vm_compute. reflexivity. Qed.

Section TotalsFacts.

Lemma sumRows_app (f : CoverageRow -> Z) (l1 l2 : list CoverageRow) :
  sumRows f (l1 ++ l2) = sumRows f l1 + sumRows f l2.
Proof. induction l1 as [|r l1 IH]; simpl; [reflexivity|]. rewrite IH. lia. Qed.

Lemma sumRows_ext (f g : CoverageRow -> Z) (l : list CoverageRow) :
  Forall (fun r => f r = g r) l -> sumRows f l = sumRows g l.
Proof. induction 1 as [|r l Hr _ IH]; simpl; [reflexivity|]. now rewrite Hr, IH. Qed.

Lemma sumKRW_Permutation (l1 l2 : list Account) :
  Permutation l1 l2 -> sumKRW l1 = sumKRW l2.
Proof. induction 1; simpl; lia. Qed.

Lemma sumKRW_filter_split (p : Account -> bool) (l : list Account) :
  sumKRW (List.filter p l) + sumKRW (List.filter (fun a => negb (p a)) l)
  = sumKRW l.
Proof.
  induction l as [|a l IH]; simpl; [reflexivity|].
  destruct (p a); simpl; lia.
Qed.

Lemma sumKRW_concat (rows : list CoverageRow) :
  sumKRW (concat (map row_accounts rows))
  = sumRows (fun r => sumKRW (row_accounts r)) rows.
Proof.
  induction rows as [|r rows IH]; simpl; [reflexivity|].
  now rewrite sumKRW_app, IH.
Qed.

(** The totals loop adds every field of every row once. *)
Lemma fold_addTotals (rows : list CoverageRow) (t : CoverageTotals) :
  fold_left Coverage.addTotals rows t =
  {| tot_eligible := tot_eligible t + sumRows row_eligible rows;
     tot_protected := tot_protected t + sumRows row_protected rows;
     tot_excess := tot_excess t + sumRows row_excess rows;
     tot_nonProtected := tot_nonProtected t + sumRows row_nonProtected rows;
     tot_tier1 := tot_tier1 t + sumRows row_eligible (rowsOfTier Tier1 rows);
     tot_tier2 := tot_tier2 t + sumRows row_eligible (rowsOfTier Tier2 rows) |}.
Proof.
  revert t. induction rows as [|r rows IH]; intros t; simpl.
  - destruct t; simpl. f_equal; lia.
  - rewrite IH. unfold Coverage.addTotals, isTier. simpl.
    destruct (row_tier r); simpl; f_equal; lia.
Qed.

Lemma fold_accumulate (rows : list CoverageRow) (t : CoverageTotals) :
  fold_left DemoApp.accumulate rows t = fold_left Coverage.addTotals rows t.
Proof. revert t. induction rows as [|r rows IH]; intros t; simpl; trivial. Qed.

Lemma rowsOfTier_split (rows : list CoverageRow) :
  sumRows row_eligible rows
  = sumRows row_eligible (rowsOfTier Tier1 rows)
    + sumRows row_eligible (rowsOfTier Tier2 rows)
    + sumRows row_eligible (rowsOfTier TierOther rows).
Proof.
  induction rows as [|r rows IH]; simpl; [reflexivity|].
  unfold isTier. destruct (row_tier r); simpl; lia.
Qed.

Lemma sumRows_nonneg (f : CoverageRow -> Z) (rows : list CoverageRow) :
  Forall (fun r => 0 <= f r) rows -> 0 <= sumRows f rows.
Proof. induction 1; simpl; lia. Qed.

Lemma sumKRW_nonneg (l : list Account) :
  Forall (fun a => 0 <= toKRW a) l -> 0 <= sumKRW l.
Proof. induction 1; simpl; lia. Qed.

Lemma sumRows_exposure (l : list CoverageRow) :
  Forall
    (fun r => row_eligible r + row_nonProtected r = sumKRW (row_accounts r)) l ->
  sumRows row_eligible l + sumRows row_nonProtected l
  = sumRows (fun r => sumKRW (row_accounts r)) l.
Proof. induction 1 as [|r l Hr _ IH]; simpl; lia. Qed.

End TotalsFacts.

Section GetTotals.

Variable limit : Z.
Variable kd : gset (list N).
Variable accounts : list Account.

Let rows := fst (Coverage.GET limit kd accounts).
Let totals := snd (Coverage.GET limit kd accounts).

Lemma GET_totals :
  totals =
  {| tot_eligible := sumRows row_eligible rows;
     tot_protected := sumRows row_protected rows;
     tot_excess := sumRows row_excess rows;
     tot_nonProtected := sumRows row_nonProtected rows;
     tot_tier1 := sumRows row_eligible (rowsOfTier Tier1 rows);
     tot_tier2 := sumRows row_eligible (rowsOfTier Tier2 rows) |}.
Proof.
  subst rows totals. unfold Coverage.GET. cbv zeta. unfold fst, snd.
  now rewrite fold_addTotals.
Qed.

Lemma GET_rows_track :
  Forall
    (fun r =>
       row_accounts r = holdingsOf (row_license r) accounts /\
       row_eligible r = sumKRW (List.filter (eligibleHolding kd) (row_accounts r)) /\
       row_nonProtected r =
         sumKRW (List.filter (fun a => negb (eligibleHolding kd a))
                   (row_accounts r)))
    rows.
Proof.
  subst rows. rewrite GET_rows, List.Forall_map.
  destruct (aggregated_all kd accounts) as (_ & _ & Htr & _).
  eapply List.Forall_impl; [|exact Htr].
  intros r (Ha & He & Hn). simpl. now rewrite Ha at 2 3.
Qed.

Lemma GET_rows_exposure :
  Forall
    (fun r => row_eligible r + row_nonProtected r = sumKRW (row_accounts r))
    rows.
Proof.
  eapply List.Forall_impl; [|exact GET_rows_track].
  intros r (_ & He & Hn). simpl in *. rewrite He, Hn.
  apply sumKRW_filter_split.
Qed.

Lemma GET_sum_exposure :
  sumRows row_eligible rows + sumRows row_nonProtected rows = sumKRW accounts.
Proof.
  assert (Hperm : Permutation (concat (map row_accounts rows)) accounts).
  { subst rows. rewrite GET_rows, applyLimit_accounts.
    now destruct (aggregated_all kd accounts) as (_ & _ & _ & H). }
  rewrite <- (sumKRW_Permutation _ _ Hperm), sumKRW_concat.
  apply sumRows_exposure, GET_rows_exposure.
Qed.

Lemma GET_sum_split :
  sumRows row_protected rows + sumRows row_excess rows
  = sumRows row_eligible rows.
Proof.
  subst rows. rewrite GET_rows.
  generalize (fold_left (Coverage.aggregateStep kd) accounts []).
  induction l as [|r l IH]; simpl; lia.
Qed.

End GetTotals.

(** X2. The totals returned with the rows are the sums of the rows'
    fields; [tier1] and [tier2] are the eligible sums of the rows of
    those tiers, and the eligible total is [tier1 + tier2] plus the
    eligible sum of the rows of the remaining tier. *)
Theorem coverage_totals_are_sums (limit : Z) (kd : gset (list N))
    (accounts : list Account) :
  let rows := fst (Coverage.GET limit kd accounts) in
  let totals := snd (Coverage.GET limit kd accounts) in
  tot_eligible totals = sumRows row_eligible rows /\
  tot_protected totals = sumRows row_protected rows /\
  tot_excess totals = sumRows row_excess rows /\
  tot_nonProtected totals = sumRows row_nonProtected rows /\
  tot_tier1 totals = sumRows row_eligible (rowsOfTier Tier1 rows) /\
  tot_tier2 totals = sumRows row_eligible (rowsOfTier Tier2 rows) /\
  tot_eligible totals
  = tot_tier1 totals + tot_tier2 totals
    + sumRows row_eligible (rowsOfTier TierOther rows).
Proof.
  intros rows totals. subst rows totals.
  rewrite (GET_totals limit kd accounts). simpl.
  repeat split; trivial. apply rowsOfTier_split.
Qed.

(** X3. Every holding is counted once: in each row [eligible +
    nonProtected] is the sum of the row's holdings, over all rows
    [eligible + nonProtected] is the sum of all input holdings, and
    [protected + excess] is the eligible total. *)
Theorem coverage_exposure_partition (limit : Z) (kd : gset (list N))
    (accounts : list Account) :
  let rows := fst (Coverage.GET limit kd accounts) in
  let totals := snd (Coverage.GET limit kd accounts) in
  Forall
    (fun r => row_eligible r + row_nonProtected r = sumKRW (row_accounts r))
    rows /\
  tot_eligible totals + tot_nonProtected totals = sumKRW accounts /\
  tot_protected totals + tot_excess totals = tot_eligible totals.
Proof.
  intros rows totals. subst rows totals.
  split; [apply GET_rows_exposure|].
  rewrite (GET_totals limit kd accounts). simpl. split.
  - apply GET_sum_exposure.
  - apply GET_sum_split.
Qed.

(** X4. When no holding has a negative amount and the limit is not
    negative, no total is negative, [tier1 + tier2] does not exceed the
    eligible total, and the protected total does not exceed it either. *)
Theorem coverage_totals_bounds (limit : Z) (kd : gset (list N))
    (accounts : list Account) :
  Forall (fun a => 0 <= toKRW a) accounts -> 0 <= limit ->
  let totals := snd (Coverage.GET limit kd accounts) in
  0 <= tot_protected totals <= tot_eligible totals /\
  0 <= tot_excess totals /\
  0 <= tot_nonProtected totals /\
  0 <= tot_tier1 totals /\ 0 <= tot_tier2 totals /\
  tot_tier1 totals + tot_tier2 totals <= tot_eligible totals.
Proof.
  intros Hpos Hlim totals. subst totals.
  rewrite (GET_totals limit kd accounts).
  cbn [tot_eligible tot_protected tot_excess tot_nonProtected
       tot_tier1 tot_tier2].
  pose proof (GET_sum_split limit kd accounts) as Hpx.
  pose proof (GET_rows_track limit kd accounts) as Htr.
  set (rows := fst (Coverage.GET limit kd accounts)) in *.
  assert (Hrow : Forall (fun r => 0 <= row_eligible r /\ 0 <= row_nonProtected r)
                   rows).
  { eapply List.Forall_impl; [|exact Htr].
    intros r (Ha & He' & Hn'). simpl in *. rewrite He', Hn'.
    assert (Hf : forall p, 0 <= sumKRW (List.filter p (row_accounts r))).
    { intros p. apply sumKRW_nonneg. rewrite List.Forall_forall in Hpos |- *.
      intros a Hin. apply filter_In in Hin. destruct Hin as [Hin _].
      rewrite Ha in Hin. apply filter_In in Hin. now apply Hpos. }
    split; apply Hf. }
  assert (Hcap : Forall (fun r => 0 <= row_excess r) rows).
  { unfold rows. rewrite GET_rows, List.Forall_map.
    apply List.Forall_forall. intros r _. simpl. lia. }
  assert (Hsub : forall t, 0 <= sumRows row_eligible (rowsOfTier t rows)).
  { intros t. apply sumRows_nonneg. rewrite List.Forall_forall in Hrow |- *.
    intros r Hr. apply filter_In in Hr. now apply Hrow. }
  assert (Hprot : 0 <= sumRows row_protected rows).
  { apply sumRows_nonneg. clear -Hrow Hlim. unfold rows in *.
    rewrite GET_rows in Hrow |- *.
    rewrite List.Forall_map in Hrow |- *.
    eapply List.Forall_impl; [|exact Hrow]. simpl. lia. }
  assert (0 <= sumRows row_excess rows) by now apply sumRows_nonneg.
  assert (0 <= sumRows row_nonProtected rows).
  { apply sumRows_nonneg. eapply List.Forall_impl; [|exact Hrow].
    simpl. tauto. }
  pose proof (rowsOfTier_split rows).
  pose proof (Hsub Tier1). pose proof (Hsub Tier2). pose proof (Hsub TierOther).
  lia.
Qed.

Lemma coverage_totals_bounds_witness :
  let kd := Coverage.loadKDIC [([75; 66]%N, [65]%N)] in
  let accounts :=
    [ mkAccount [] [75; 66]%N [] term KRW (Some 70) None None (Some [65]%N);
      mkAccount [] [75; 66]%N [] demand KRW (Some 5) None None (Some [66]%N) ] in
  let totals := snd (Coverage.GET 50 kd accounts) in
  tot_tier1 totals + tot_tier2 totals <= tot_eligible totals /\
  (tot_eligible totals, tot_protected totals, tot_excess totals,
   tot_nonProtected totals) = (70, 50, 20, 5).
Proof.
  intros kd accounts totals. split.
  - refine (proj2 (proj2 (proj2 (proj2 (proj2
      (coverage_totals_bounds 50 kd accounts _ _)))))).
    + repeat constructor; vm_compute; discriminate.
    + lia.
  - vm_compute. reflexivity.
Defined.

(** X5. With an empty catalog index nothing is eligible: every row has
    [eligible = 0] and carries the whole amount of its holdings in
    [nonProtected]; the eligible total is 0 and the non-protected total
    is the sum of all holdings.  The index built from no catalog rows is
    empty. *)
Theorem coverage_empty_catalog (limit : Z) (accounts : list Account) :
  let rows := fst (Coverage.GET limit ∅ accounts) in
  let totals := snd (Coverage.GET limit ∅ accounts) in
  Coverage.loadKDIC [] = ∅ /\
  Forall
    (fun r => row_eligible r = 0 /\
              row_nonProtected r = sumKRW (row_accounts r))
    rows /\
  tot_eligible totals = 0 /\
  tot_nonProtected totals = sumKRW accounts.
Proof.
  intros rows totals. split; [reflexivity|].
  assert (Hrows : Forall (fun r => row_eligible r = 0 /\
                     row_nonProtected r = sumKRW (row_accounts r)) rows).
  { pose proof (GET_rows_track limit ∅ accounts) as Htr. fold rows in Htr.
    eapply List.Forall_impl; [|exact Htr].
    intros r (_ & He & Hn). simpl in *.
    pose proof (sumKRW_filter_split (eligibleHolding ∅) (row_accounts r)) as Hs.
    assert (Hz : sumKRW (List.filter (eligibleHolding ∅) (row_accounts r)) = 0).
    { generalize (row_accounts r).
      induction l as [|a l IH]; simpl; trivial.
      unfold eligibleHolding at 1, Coverage.matched.
      rewrite bool_decide_eq_false_2 by set_solver.
      now rewrite andb_false_r. }
    lia. }
  pose proof (GET_sum_exposure limit ∅ accounts) as Hsum. fold rows in Hsum.
  subst totals. rewrite (GET_totals limit ∅ accounts).
  cbn [tot_eligible tot_nonProtected]. fold rows.
  assert (Hz : sumRows row_eligible rows = 0).
  { clear -Hrows. induction Hrows as [|r l [Hr _] _ IH]; simpl; lia. }
  split; [exact Hrows|]. split; [exact Hz|]. lia.
Qed.

(** X6. Recomputing the rows on the client under a limit gives exactly
    what the coverage handler returns under that limit, whatever limit
    the handler had used: the toggle of the limit needs no new
    aggregation. *)
Theorem adjusted_recomputes_GET (limit limit' : Z) (kd : gset (list N))
    (accounts : list Account) :
  DemoApp.adjusted limit'
    (fst (Coverage.GET limit kd accounts))
    (snd (Coverage.GET limit kd accounts))
  = Coverage.GET limit' kd accounts.
Proof.
  unfold Coverage.GET. cbv zeta. unfold fst, snd.
  generalize (fold_left (Coverage.aggregateStep kd) accounts []).
  intros rows0. destruct rows0 as [|r rows0]; [reflexivity|].
  unfold DemoApp.adjusted.
  change (map (Coverage.applyLimit limit) (r :: rows0))
    with (Coverage.applyLimit limit r :: map (Coverage.applyLimit limit) rows0).
  cbv iota beta zeta.
  change (Coverage.applyLimit limit r :: map (Coverage.applyLimit limit) rows0)
    with (map (Coverage.applyLimit limit) (r :: rows0)).
  rewrite fold_accumulate, map_map.
  assert (E : map (fun x => DemoApp.cloneRow limit' (Coverage.applyLimit limit x))
                  (r :: rows0)
              = map (Coverage.applyLimit limit') (r :: rows0)).
  { apply map_ext. reflexivity. }
  now rewrite E.
Qed.

(* ================================================================== *)
(** ** More on the classifiers and on the currency conversion *)

(** X7. The category inferred from a product name is never investment,
    so a generated holding always passes the category test; a name
    inferred as a foreign-currency deposit is in USD, and a name is in
    USD exactly when a foreign-currency keyword occurs in it (letter
    case ignored). *)
Theorem inferred_type_and_currency (n : jsstring) :
  Mydata.inferTypeFromProduct n <> investment /\
  isProtectedType (Mydata.inferTypeFromProduct n) = true /\
  (Mydata.inferTypeFromProduct n = fx_deposit -> Mydata.inferCurrency n = USD) /\
  (Mydata.inferCurrency n = USD <-> matchesAnyNoCase Mydata.fxKw n) /\
  (~ matchesAnyNoCase Mydata.fxKw n -> Mydata.inferCurrency n = KRW).
Proof.
  unfold Mydata.inferTypeFromProduct, Mydata.inferCurrency.
  destruct (Js.test_i Mydata.fxKw n) eqn:Ef.
  - apply test_i_spec in Ef.
    destruct (Js.test Mydata.termKw n), (Js.test Mydata.demandKw n),
      (Js.test Mydata.trustKw n); repeat split; try discriminate; tauto.
  - assert (Hno : ~ matchesAnyNoCase Mydata.fxKw n).
    { intros H. apply test_i_spec in H. congruence. }
    destruct (Js.test Mydata.termKw n), (Js.test Mydata.demandKw n),
      (Js.test Mydata.trustKw n); repeat split; try discriminate;
      try tauto; intros H; discriminate H.
Qed.

(** 외화정기예금 holds a foreign-currency and a term keyword: the type is
    term, the currency USD. *)
Lemma inferred_type_and_currency_witness :
  Mydata.inferTypeFromProduct [85; 83; 68; 32; 50808; 54868]%N = fx_deposit /\
  Mydata.inferCurrency [85; 83; 68; 32; 50808; 54868]%N = USD /\
  Mydata.inferTypeFromProduct [50808; 54868; 51221; 44592; 50696; 44552]%N = term /\
  Mydata.inferCurrency [50808; 54868; 51221; 44592; 50696; 44552]%N = USD.
Proof.
  assert (H : Mydata.inferTypeFromProduct [85; 83; 68; 32; 50808; 54868]%N
              = fx_deposit) by reflexivity.
  split; [exact H|]. split.
  - exact (proj1 (proj2 (proj2 (inferred_type_and_currency
                                  [85; 83; 68; 32; 50808; 54868]%N))) H).
  - split; reflexivity.
Defined.

(** X8. [classifyTier] answers the second tier exactly when a savings or
    cooperative keyword occurs in the name, and the first tier exactly
    when 은행 occurs and none of those keywords does; a name that holds
    저축은행 is always of the second tier, so the extra test for it in the
    first-tier branch never decides. *)
Theorem classifyTier_cases (inst : jsstring) :
  (Coverage.classifyTier inst = Tier2 <-> matchesAny Coverage.tier2Kw inst) /\
  (Coverage.classifyTier inst = Tier1 <->
     matchesAny Coverage.bankKw inst /\ ~ matchesAny Coverage.tier2Kw inst) /\
  (Coverage.classifyTier inst = TierOther <->
     ~ matchesAny Coverage.bankKw inst /\ ~ matchesAny Coverage.tier2Kw inst) /\
  (matchesAny Coverage.savingsKw inst -> Coverage.classifyTier inst = Tier2).
Proof.
  assert (Hsav : matchesAny Coverage.savingsKw inst ->
                 matchesAny Coverage.tier2Kw inst).
  { intros (kw & Hin & Hocc). exists kw. split; trivial.
    destruct Hin as [<-|[]]. simpl. tauto. }
  unfold Coverage.classifyTier.
  destruct (Js.test Coverage.tier2Kw inst) eqn:E2.
  - apply test_spec in E2. intuition (try discriminate; auto).
  - assert (H2 : ~ matchesAny Coverage.tier2Kw inst).
    { intros H. apply test_spec in H. congruence. }
    assert (Hs : Js.test Coverage.savingsKw inst = false).
    { apply test_false. tauto. }
    rewrite Hs. change (negb false) with true. rewrite andb_true_r.
    destruct (Js.test Coverage.bankKw inst) eqn:Eb.
    + apply test_spec in Eb. intuition (try discriminate; auto).
    + assert (Hb : ~ matchesAny Coverage.bankKw inst).
      { intros H. apply test_spec in H. congruence. }
      intuition (try discriminate; auto).
Qed.

Lemma classifyTier_cases_witness :
  Coverage.classifyTier [51200; 52629; 51008; 54665; 67]%N = Tier2.
Proof.
  apply (proj2 (proj2 (proj2 (classifyTier_cases
                                [51200; 52629; 51008; 54665; 67]%N)))).
  exists [51200; 52629; 51008; 54665]%N. split; [simpl; tauto|].
  exists [], [67]%N. reflexivity.
Defined.

Section RoundFacts.

Lemma Math_round_inject (z : Z) : Js.Math_round (inject_Z z) = z.
Proof.
  unfold Js.Math_round.
  assert (H1 := Qfloor_le (inject_Z z + (1 # 2))).
  assert (H2 := Qlt_floor (inject_Z z + (1 # 2))).
  unfold Qle, Qlt in *. simpl in *. lia.
Qed.

Lemma Math_round_near (x : Q) :
  (x - (1 # 2) < inject_Z (Js.Math_round x) /\
   inject_Z (Js.Math_round x) <= x + (1 # 2))%Q.
Proof.
  unfold Js.Math_round.
  assert (H1 := Qfloor_le (x + (1 # 2))).
  assert (H2 := Qlt_floor (x + (1 # 2))).
  split; [|exact H1].
  rewrite inject_Z_plus in H2.
  apply Qplus_lt_l with (z := 1%Q).
  eapply Qle_lt_trans; [|exact H2]. 
  ring_simplify. apply Qle_refl.
Qed.

Lemma Math_round_le (x y : Q) :
  (x <= y)%Q -> Js.Math_round x <= Js.Math_round y.
Proof.
  intros H. unfold Js.Math_round. apply Qfloor_resp_le.
  now apply Qplus_le_l.
Qed.

End RoundFacts.

(** X9. On holdings whose balance is a whole number: [toKRW] returns
    the balance as it is for a holding that is not in USD (0 when the
    balance is missing).  For a USD holding whose rate is a whole
    number it returns the product of balance and rate, so the product
    of balance and 1400 when the rate is missing, and 0 when the
    balance is missing.  The result is not negative when balance and
    rate are not. *)
Theorem toKRW_cases (a : Account) :
  (acc_currency a <> USD -> toKRW a = default 0 (acc_balance a)) /\
  (acc_currency a = USD ->
   forall k : Z,
     (default (1400 # 1) (acc_fxRate a) == inject_Z k)%Q ->
     toKRW a = default 0 (acc_balance a) * k) /\
  (acc_currency a = USD -> acc_fxRate a = None ->
   toKRW a = default 0 (acc_balance a) * 1400) /\
  (acc_currency a = USD -> acc_balance a = None -> toKRW a = 0) /\
  (0 <= default 0 (acc_balance a) ->
   (0 <= default (1400 # 1) (acc_fxRate a))%Q -> 0 <= toKRW a).
Proof.
  assert (Hwhole : acc_currency a = USD ->
            forall k : Z,
              (default (1400 # 1) (acc_fxRate a) == inject_Z k)%Q ->
              toKRW a = default 0 (acc_balance a) * k).
  { intros H k Hk. unfold toKRW. rewrite bool_decide_eq_true_2 by assumption.
    rewrite <- (Math_round_inject (default 0 (acc_balance a) * k)).
    unfold Js.Math_round. apply Qfloor_comp.
    rewrite Hk, inject_Z_mult. reflexivity. }
  split; [|split; [exact Hwhole|split; [|split]]].
  - intros H. unfold toKRW. now rewrite bool_decide_eq_false_2.
  - intros H Hr. apply (Hwhole H). rewrite Hr. reflexivity.
  - intros H Hb. unfold toKRW. rewrite bool_decide_eq_true_2 by assumption.
    rewrite Hb. cbn [default].
    rewrite <- (Math_round_inject 0) at 2.
    unfold Js.Math_round. apply Qfloor_comp. ring.
  - intros Hb Hr. unfold toKRW.
    destruct (bool_decide (acc_currency a = USD)); trivial.
    change 0 with (Js.Math_round 0). apply Math_round_le.
    apply Qmult_le_0_compat; trivial.
    change 0%Q with (inject_Z 0). now rewrite <- Zle_Qle.
Qed.

(** A holding of 3 USD at the rate 1300 is worth 3900. *)
Lemma toKRW_cases_witness :
  toKRW (mkAccount [] [88]%N [] fx_deposit USD (Some 3) (Some (1300 # 1))
                   None None) = 3 * 1300 /\
  0 <= toKRW (mkAccount [] [88]%N [] fx_deposit USD (Some 3) (Some (1300 # 1))
                        None None).
Proof.
  split.
  - apply (proj1 (proj2 (toKRW_cases
      (mkAccount [] [88]%N [] fx_deposit USD (Some 3) (Some (1300 # 1))
                 None None)))); reflexivity.
  - apply (proj2 (proj2 (proj2 (proj2 (toKRW_cases
      (mkAccount [] [88]%N [] fx_deposit USD (Some 3) (Some (1300 # 1))
                 None None)))))).
    + simpl. lia.
    + simpl. discriminate.
Defined.

(* ================================================================== *)
(** ** More on the routing allocator *)

Section SortFacts.

Lemma insertByRate_Permutation (o : DemoApp.RateOffer)
    (l : list DemoApp.RateOffer) :
  Permutation (DemoApp.insertByRate o l) (o :: l).
Proof.
  induction l as [|h t IH]; simpl; [reflexivity|].
  destruct (Qle_bool (DemoApp.o_rate h) (DemoApp.o_rate o)); [reflexivity|].
  rewrite IH. apply perm_swap.
Qed.

Lemma sortByRate_Permutation (l : list DemoApp.RateOffer) :
  Permutation (DemoApp.sortByRate l) l.
Proof.
  induction l as [|o l IH]; simpl; [reflexivity|].
  now rewrite insertByRate_Permutation, IH.
Qed.

Lemma insertByRate_sorted (o : DemoApp.RateOffer) (l : list DemoApp.RateOffer) :
  StronglySorted rateDescending l ->
  StronglySorted rateDescending (DemoApp.insertByRate o l).
Proof.
  induction 1 as [|h t Hs IH Hh]; simpl.
  - repeat constructor.
  - destruct (Qle_bool (DemoApp.o_rate h) (DemoApp.o_rate o)) eqn:E.
    + apply Qle_bool_iff in E. constructor; [now constructor|].
      constructor; [exact E|].
      eapply List.Forall_impl; [|exact Hh].
      intros x Hx. unfold rateDescending in *. now apply Qle_trans with (DemoApp.o_rate h).
    + constructor; [exact IH|].
      assert (Hlt : (DemoApp.o_rate o < DemoApp.o_rate h)%Q).
      { apply Qnot_le_lt. intros H. apply Qle_bool_iff in H. congruence. }
      rewrite List.Forall_forall in Hh |- *. intros x Hx.
      apply (Permutation_in _ (insertByRate_Permutation o t)) in Hx.
      destruct Hx as [<-|Hx]; [now apply Qlt_le_weak|now apply Hh].
Qed.

Lemma sortByRate_sorted (l : list DemoApp.RateOffer) :
  StronglySorted rateDescending (DemoApp.sortByRate l).
Proof.
  induction l as [|o l IH]; simpl; [constructor|].
  now apply insertByRate_sorted.
Qed.

(** The offers of one rate keep their relative order. *)
Lemma insertByRate_stable (q : Q) (o : DemoApp.RateOffer)
    (l : list DemoApp.RateOffer) :
  List.filter (fun x => Qeq_bool (DemoApp.o_rate x) q) (DemoApp.insertByRate o l)
  = List.filter (fun x => Qeq_bool (DemoApp.o_rate x) q) (o :: l).
Proof.
  induction l as [|h t IH]; [reflexivity|].
  simpl DemoApp.insertByRate.
  destruct (Qle_bool (DemoApp.o_rate h) (DemoApp.o_rate o)) eqn:E; [reflexivity|].
  change (List.filter ?f (h :: ?l))
    with (if f h then h :: List.filter f l else List.filter f l).
  rewrite IH. simpl.
  destruct (Qeq_bool (DemoApp.o_rate h) q) eqn:Eh;
    destruct (Qeq_bool (DemoApp.o_rate o) q) eqn:Eo; trivial.
  exfalso. apply Qeq_bool_iff in Eh, Eo.
  assert (H : Qle_bool (DemoApp.o_rate h) (DemoApp.o_rate o) = true).
  { apply Qle_bool_iff. rewrite Eh, Eo. apply Qle_refl. }
  congruence.
Qed.

End SortFacts.

(** X10. The sort of the offers rearranges them in descending order of
    rate and keeps the original relative order of offers of equal rate. *)
Theorem sortByRate_stable_descending (offers : list DemoApp.RateOffer) :
  Permutation (DemoApp.sortByRate offers) offers /\
  StronglySorted rateDescending (DemoApp.sortByRate offers) /\
  (forall q : Q,
      List.filter (fun x => Qeq_bool (DemoApp.o_rate x) q)
        (DemoApp.sortByRate offers)
      = List.filter (fun x => Qeq_bool (DemoApp.o_rate x) q) offers).
Proof.
  split; [apply sortByRate_Permutation|].
  split; [apply sortByRate_sorted|].
  intros q. induction offers as [|o l IH]; [reflexivity|].
  simpl DemoApp.sortByRate. rewrite insertByRate_stable.
  simpl. now rewrite IH.
Qed.

Example sortByRate_ties :
  map DemoApp.o_tenorM
    (DemoApp.sortByRate
       [ DemoApp.mkOffer [] [] [] 1 (3 # 100);
         DemoApp.mkOffer [] [] [] 2 (5 # 100);
         DemoApp.mkOffer [] [] [] 3 (30 # 1000);
         DemoApp.mkOffer [] [] [] 4 (5 # 100) ])
  = [2; 4; 1; 3].
Proof. reflexivity. Qed.

Section RouteTrace.

Variable limit : Z.
Variable used : gmap (list N) Z.

Lemma offerOf_planEntry (o : DemoApp.RateOffer) (room alloc : Z) :
  offerOf (DemoApp.planEntry o room alloc) = o.
Proof. now destruct o. Qed.

Lemma already_app (p q : list DemoApp.PlanEntry) (lic : jsstring) :
  DemoApp.already (p ++ q) lic = DemoApp.already p lic + DemoApp.already q lic.
Proof.
  rewrite !already_entriesOf. unfold entriesOf.
  now rewrite List.filter_app, sumAllocate_app.
Qed.

Lemma already_nonneg (q : list DemoApp.PlanEntry) (lic : jsstring) :
  Forall (fun p => 0 < DemoApp.p_allocate p) q -> 0 <= DemoApp.already q lic.
Proof.
  intros H. rewrite already_entriesOf. unfold entriesOf.
  induction H as [|p q Hp _ IH]; simpl; [lia|].
  destruct (bool_decide (DemoApp.p_license p = lic)); simpl; lia.
Qed.

(** What the loop does to its state: entries with positive allocations
    are appended, built from offers taken in order from the list, and the
    cash goes down by what they allocate. *)
Lemma routeLoop_trace (l : list DemoApp.RateOffer) :
  forall (remain : Z) (plan : list DemoApp.PlanEntry),
  exists added,
    DemoApp.routeLoop limit used l remain plan
    = (remain - sumAllocate added, plan ++ added) /\
    Forall (fun p => 0 < DemoApp.p_allocate p) added /\
    sublist (map offerOf added) l.
Proof.
  induction l as [|o rest IH]; intros remain plan.
  - exists []. simpl. rewrite app_nil_r, Z.sub_0_r.
    repeat split; constructor.
  - destruct (Z.le_gt_cases remain 0) as [Hle|Hgt].
    + exists []. rewrite routeLoop_break by assumption. simpl.
      rewrite app_nil_r, Z.sub_0_r. repeat split; [constructor|].
      apply sublist_nil_l.
    + rewrite routeLoop_cons by assumption. cbv zeta.
      set (room := DemoApp.roomFor limit used plan (DemoApp.o_license o)).
      set (alloc := Z.min (Z.min remain room) DemoApp.perOfferCap).
      destruct (Z.ltb_spec 0 alloc) as [Hpos|Hnp].
      * destruct (IH (remain - alloc) (plan ++ [DemoApp.planEntry o room alloc]))
          as (added & Heq & Hall & Hsub).
        exists (DemoApp.planEntry o room alloc :: added).
        rewrite Heq, <- app_assoc. simpl. repeat split.
        -- f_equal. lia.
        -- constructor; trivial.
        -- rewrite offerOf_planEntry. now apply sublist_skip.
      * destruct (IH remain plan) as (added & Heq & Hall & Hsub).
        exists added. repeat split; trivial. now apply sublist_cons.
Qed.

(** If cash is left over at the end, every offer of the list is
    saturated: its license has no room left, or the plan holds an entry
    of the offer at the ceiling. *)
Lemma routeLoop_saturated (l : list DemoApp.RateOffer) :
  forall (remain : Z) (plan : list DemoApp.PlanEntry),
    0 < fst (DemoApp.routeLoop limit used l remain plan) ->
    forall o, In o l ->
      DemoApp.roomFor limit used
        (snd (DemoApp.routeLoop limit used l remain plan)) (DemoApp.o_license o)
      = 0 \/
      exists p, In p (snd (DemoApp.routeLoop limit used l remain plan)) /\
                offerOf p = o /\ DemoApp.p_allocate p = DemoApp.perOfferCap.
Proof.
  induction l as [|o' rest IH]; intros remain plan Hleft o Hin; [destruct Hin|].
  destruct (Z.le_gt_cases remain 0) as [Hle|Hgt].
  { rewrite routeLoop_break in Hleft by assumption. simpl in Hleft. lia. }
  rewrite routeLoop_cons in Hleft |- * by assumption. cbv zeta in Hleft |- *.
  set (room := DemoApp.roomFor limit used plan (DemoApp.o_license o')) in *.
  set (alloc := Z.min (Z.min remain room) DemoApp.perOfferCap) in *.
  assert (Hcap : DemoApp.perOfferCap = 60000000) by reflexivity.
  destruct (Z.ltb_spec 0 alloc) as [Hpos|Hnp].
  - destruct Hin as [->|Hin]; [|now apply IH].
    destruct (routeLoop_trace rest (remain - alloc)
                (plan ++ [DemoApp.planEntry o room alloc]))
      as (added & Heq & Hall & _).
    rewrite Heq in Hleft |- *. simpl fst in Hleft. simpl snd.
    pose proof (already_nonneg added (DemoApp.o_license o) Hall) as Hadd.
    assert (Hsum : 0 <= sumAllocate added).
    { clear -Hall. induction Hall; simpl; lia. }
    destruct (Z.eq_dec alloc DemoApp.perOfferCap) as [E|NE].
    + right. exists (DemoApp.planEntry o room alloc).
      split; [|split; [apply offerOf_planEntry|exact E]].
      apply in_or_app. left. apply in_or_app. right. now left.
    + left. unfold DemoApp.roomFor in *.
      rewrite (already_app (plan ++ _)), already_push. simpl.
      rewrite bool_decide_eq_true_2 by reflexivity.
      subst alloc room. unfold DemoApp.roomFor in *. lia.
  - destruct Hin as [->|Hin]; [|now apply IH].
    left.
    destruct (routeLoop_trace rest remain plan) as (added & Heq & Hall & _).
    rewrite Heq. simpl snd.
    pose proof (already_nonneg added (DemoApp.o_license o) Hall) as Hadd.
    unfold DemoApp.roomFor in *. rewrite already_app.
    subst alloc room. unfold DemoApp.roomFor in *. lia.
Qed.

(** With one offer per license the cash left is the idle cash less the
    capacities of the offers, floored at 0. *)
Lemma routeLoop_distinct (l : list DemoApp.RateOffer) :
  forall (remain : Z) (plan : list DemoApp.PlanEntry),
    0 <= remain ->
    List.NoDup (map DemoApp.o_license l) ->
    Forall (fun o => DemoApp.already plan (DemoApp.o_license o) = 0) l ->
    fst (DemoApp.routeLoop limit used l remain plan)
    = Z.max 0
        (remain
         - fold_right
             (fun o s =>
                Z.min (DemoApp.roomFor limit used [] (DemoApp.o_license o))
                      DemoApp.perOfferCap + s) 0 l).
Proof.
  induction l as [|o rest IH]; intros remain plan H0 Hnd Hfresh.
  - simpl. lia.
  - inversion Hnd as [|? ? Hnotin Hnd']; subst.
    inversion Hfresh as [|? ? Ho Hrest]; subst.
    assert (Hsum : 0 <= fold_right
             (fun o s =>
                Z.min (DemoApp.roomFor limit used [] (DemoApp.o_license o))
                      DemoApp.perOfferCap + s) 0 rest).
    { clear. induction rest as [|x r IHr]; cbn [fold_right]; [lia|].
      assert (0 <= Z.min (DemoApp.roomFor limit used [] (DemoApp.o_license x))
                         DemoApp.perOfferCap)
        by (unfold DemoApp.roomFor, DemoApp.perOfferCap; lia).
      lia. }
    assert (Hroom : DemoApp.roomFor limit used plan (DemoApp.o_license o)
                    = DemoApp.roomFor limit used [] (DemoApp.o_license o)).
    { unfold DemoApp.roomFor. rewrite Ho. reflexivity. }
    cbn [fold_right].
    set (room := DemoApp.roomFor limit used [] (DemoApp.o_license o)) in *.
    assert (Hr0 : 0 <= room) by (subst room; unfold DemoApp.roomFor; lia).
    assert (Hcap : DemoApp.perOfferCap = 60000000) by reflexivity.
    destruct (Z.le_gt_cases remain 0) as [Hle|Hgt].
    { rewrite routeLoop_break by assumption. cbn [fst]. lia. }
    rewrite routeLoop_cons by assumption. cbv zeta. rewrite Hroom.
    destruct (Z.ltb_spec 0 (Z.min (Z.min remain room) DemoApp.perOfferCap))
      as [Hpos|Hnp].
    + rewrite IH; trivial; [lia|lia|].
      rewrite List.Forall_forall in Hrest |- *. intros x Hx.
      rewrite already_push. simpl.
      rewrite bool_decide_eq_false_2.
      * rewrite (Hrest x Hx). lia.
      * intros E. apply Hnotin. rewrite E. now apply in_map.
    + rewrite IH; trivial. lia.
Qed.

End RouteTrace.

Section RoutingMore.

Variable offers : list DemoApp.RateOffer.
Variable limit : Z.
Variable accounts : list Account.

Lemma computeRoutingWith_trace :
  let r := DemoApp.computeRoutingWith offers limit accounts in
  DemoApp.routeLoop limit (DemoApp.usedByLicense accounts)
    (DemoApp.sortByRate offers) (DemoApp.idleCash r) []
  = (DemoApp.idleCash r - sumAllocate (DemoApp.plan r), DemoApp.plan r) /\
  Forall (fun p => 0 < DemoApp.p_allocate p) (DemoApp.plan r) /\
  sublist (map offerOf (DemoApp.plan r)) (DemoApp.sortByRate offers).
Proof.
  intros r.
  destruct (computeRoutingWith_fields offers limit accounts) as (_ & _ & Hplan & _).
  fold r in Hplan.
  destruct (routeLoop_trace limit (DemoApp.usedByLicense accounts)
              (DemoApp.sortByRate offers) (DemoApp.idleCash r) [])
    as (added & Heq & Hall & Hsub).
  rewrite Heq in Hplan. simpl in Hplan. subst added. now rewrite Heq.
Qed.

Lemma sublist_In {A : Type} (l1 l2 : list A) (x : A) :
  sublist l1 l2 -> In x l1 -> In x l2.
Proof.
  induction 1 as [|y l1 l2 _ IH|y l1 l2 _ IH]; simpl; intros Hin; tauto.
Qed.

Lemma StronglySorted_sublist {A : Type} (R : A -> A -> Prop) (l1 l2 : list A) :
  sublist l1 l2 -> StronglySorted R l2 -> StronglySorted R l1.
Proof.
  induction 1 as [|y l1 l2 Hs IH|y l1 l2 Hs IH]; intros Hsorted; trivial.
  - inversion Hsorted as [|? ? Hs2 Hall]; subst. constructor; [now apply IH|].
    rewrite List.Forall_forall in Hall |- *. intros x Hx.
    apply Hall. now apply (sublist_In l1 l2).
  - inversion Hsorted; subst. now apply IH.
Qed.

Lemma capacity_Permutation (l1 l2 : list DemoApp.RateOffer) :
  Permutation l1 l2 -> capacity limit accounts l1 = capacity limit accounts l2.
Proof. induction 1; simpl; lia. Qed.

Lemma capacity_roomFor (l : list DemoApp.RateOffer) :
  fold_right
    (fun o s =>
       Z.min (DemoApp.roomFor limit (DemoApp.usedByLicense accounts) []
                (DemoApp.o_license o))
             DemoApp.perOfferCap + s) 0 l
  = capacity limit accounts l.
Proof.
  induction l as [|o l IH]; simpl; [reflexivity|].
  rewrite IH. unfold offerCapacity, DemoApp.roomFor.
  rewrite usedByLicense_lookup. unfold DemoApp.already. simpl.
  now rewrite Z.sub_0_r.
Qed.

End RoutingMore.

(** X11. When the demand holdings do not exceed the liquidity reserve of
    10,000,000 there is no idle cash, the plan is empty and the
    projected interest is 0; the plan is also empty when there is no
    offer. *)
Theorem no_idle_cash_no_plan :
  (forall (offers : list DemoApp.RateOffer) (limit : Z)
          (accounts : list Account),
      sumKRW (demandHoldings accounts) <= 10000000 ->
      let r := DemoApp.computeRoutingWith offers limit accounts in
      DemoApp.idleCash r = 0 /\ DemoApp.plan r = [] /\
      DemoApp.projectedInterest r = 0) /\
  (forall (limit : Z) (accounts : list Account),
      let r := DemoApp.computeRoutingWith [] limit accounts in
      DemoApp.plan r = [] /\ DemoApp.projectedInterest r = 0).
Proof.
  split.
  - intros offers limit accounts Hsum r.
    destruct (computeRoutingWith_fields offers limit accounts)
      as (_ & Hidle & Hplan & Hint).
    fold r in Hidle, Hplan, Hint. rewrite demandKRW_sum in Hidle.
    assert (H0 : DemoApp.idleCash r = 0) by lia.
    rewrite H0, routeLoop_break in Hplan by lia. cbn [snd] in Hplan.
    rewrite Hplan in Hint. now repeat split.
  - intros limit accounts r.
    destruct (computeRoutingWith_fields [] limit accounts)
      as (_ & _ & Hplan & Hint).
    fold r in Hplan, Hint.
    change (DemoApp.sortByRate []) with (@nil DemoApp.RateOffer) in Hplan.
    cbn [DemoApp.routeLoop snd] in Hplan. rewrite Hplan in Hint.
    now split.
Qed.

Lemma no_idle_cash_no_plan_witness :
  DemoApp.plan
    (DemoApp.computeRoutingWith DemoApp.rateOffers 100000000
       [mkAccount [] [88]%N [88; 76]%N demand KRW (Some 9000000) None None None;
        mkAccount [] [88]%N [88; 76]%N term KRW (Some 50000000) None None None])
  = [].
Proof.
  apply (proj1 no_idle_cash_no_plan). vm_compute. discriminate.
Defined.

(** X12. The plan is built from a sub-sequence of the sorted offers, one
    entry per chosen offer: it has at most as many entries as there are
    offers, its entries are in descending order of rate, every entry
    copies an offer of the list, and every allocation is positive. *)
Theorem plan_follows_sorted_offers (offers : list DemoApp.RateOffer)
    (limit : Z) (accounts : list Account) :
  let r := DemoApp.computeRoutingWith offers limit accounts in
  sublist (map offerOf (DemoApp.plan r)) (DemoApp.sortByRate offers) /\
  (length (DemoApp.plan r) <= length offers)%nat /\
  StronglySorted (fun p q => (DemoApp.p_rate q <= DemoApp.p_rate p)%Q)
    (DemoApp.plan r) /\
  Forall (fun p => In (offerOf p) offers /\ 0 < DemoApp.p_allocate p)
    (DemoApp.plan r).
Proof.
  intros r.
  destruct (computeRoutingWith_trace offers limit accounts) as (_ & Hpos & Hsub).
  fold r in Hpos, Hsub.
  split; [exact Hsub|]. split; [|split].
  - apply sublist_length in Hsub. rewrite length_map in Hsub.
    now rewrite (Permutation_length (sortByRate_Permutation offers)) in Hsub.
  - pose proof (StronglySorted_sublist rateDescending _ _ Hsub
                  (sortByRate_sorted offers)) as Hs.
    clear -Hs. induction (DemoApp.plan r) as [|p l IH]; [constructor|].
    simpl in Hs. inversion Hs as [|? ? Hs' Hall]; subst.
    constructor; [now apply IH|].
    rewrite List.Forall_forall in Hall |- *. intros q Hq.
    apply (Hall (offerOf q)). now apply in_map.
  - rewrite List.Forall_forall in Hpos |- *. intros p Hp.
    split; [|now apply Hpos].
    apply (Permutation_in _ (sortByRate_Permutation offers)).
    apply (sublist_In _ _ _ Hsub). now apply in_map.
Qed.

(** X13. The allocation is greedy to the end: if some idle cash stays
    unallocated, then every offer is saturated; either its license has
    no room left under the limit, or the plan holds an entry of that
    offer at the ceiling of 60,000,000. *)
Theorem leftover_cash_means_saturated (offers : list DemoApp.RateOffer)
    (limit : Z) (accounts : list Account) :
  let r := DemoApp.computeRoutingWith offers limit accounts in
  sumAllocate (DemoApp.plan r) < DemoApp.idleCash r ->
  forall o : DemoApp.RateOffer,
    In o offers ->
    limit - sumKRW (usedHoldings (DemoApp.o_license o) accounts)
      <= sumAllocate (entriesOf (DemoApp.o_license o) (DemoApp.plan r)) \/
    exists p, In p (DemoApp.plan r) /\ offerOf p = o /\
              DemoApp.p_allocate p = 60000000.
Proof.
  intros r Hleft o Hin.
  destruct (computeRoutingWith_trace offers limit accounts) as (Heq & _ & _).
  fold r in Heq.
  pose proof (routeLoop_saturated limit (DemoApp.usedByLicense accounts)
                (DemoApp.sortByRate offers) (DemoApp.idleCash r) []) as Hsat.
  rewrite Heq in Hsat. simpl fst in Hsat. simpl snd in Hsat.
  destruct (Hsat ltac:(lia) o) as [Hroom | Hentry].
  - apply (Permutation_in _ (Permutation_sym (sortByRate_Permutation offers))).
    exact Hin.
  - left. unfold DemoApp.roomFor in Hroom.
    rewrite already_entriesOf, usedByLicense_lookup in Hroom. lia.
  - right. exact Hentry.
Qed.

(** Demand holdings of 400,000,000 under a limit of 50,000,000: five
    offers take 50,000,000 each, 140,000,000 stay idle, and the license
    of every offer is full. *)
Lemma leftover_cash_means_saturated_witness :
  let accounts :=
    [mkAccount [] [88]%N [88; 76]%N demand KRW (Some 400000000) None None None] in
  let r := DemoApp.computeRoutingWith DemoApp.rateOffers 50000000 accounts in
  let o := hd (DemoApp.mkOffer [] [] [] 0 0) DemoApp.rateOffers in
  sumAllocate (DemoApp.plan r) = 250000000 /\
  DemoApp.idleCash r = 390000000 /\
  (50000000 - sumKRW (usedHoldings (DemoApp.o_license o) accounts)
     <= sumAllocate (entriesOf (DemoApp.o_license o) (DemoApp.plan r)) \/
   exists p, In p (DemoApp.plan r) /\ offerOf p = o /\
             DemoApp.p_allocate p = 60000000).
Proof.
  intros accounts r o.
  split; [vm_compute; reflexivity|]. split; [vm_compute; reflexivity|].
  apply (leftover_cash_means_saturated DemoApp.rateOffers 50000000 accounts).
  - vm_compute. reflexivity.
  - simpl. tauto.
Defined.

(** X14. When no two offers share a license, the plan allocates in total
    the lesser of the idle cash and the capacity of the offers, where an
    offer can take the room of its license under the limit (never less
    than 0) and at most 60,000,000. *)
Theorem total_allocation_closed_form (offers : list DemoApp.RateOffer)
    (limit : Z) (accounts : list Account) :
  List.NoDup (map DemoApp.o_license offers) ->
  let r := DemoApp.computeRoutingWith offers limit accounts in
  sumAllocate (DemoApp.plan r)
  = Z.min (DemoApp.idleCash r) (capacity limit accounts offers).
Proof.
  intros Hnd r.
  destruct (computeRoutingWith_trace offers limit accounts) as (Heq & _ & _).
  destruct (computeRoutingWith_fields offers limit accounts) as (_ & Hidle & _).
  fold r in Heq, Hidle.
  pose proof (routeLoop_distinct limit (DemoApp.usedByLicense accounts)
                (DemoApp.sortByRate offers) (DemoApp.idleCash r) []) as Hd.
  rewrite Heq, capacity_roomFor in Hd. simpl fst in Hd.
  rewrite (capacity_Permutation limit accounts _ _
             (sortByRate_Permutation offers)) in Hd.
  assert (Hrem : DemoApp.idleCash r - sumAllocate (DemoApp.plan r)
                 = Z.max 0 (DemoApp.idleCash r - capacity limit accounts offers)).
  { apply Hd.
    - rewrite Hidle. lia.
    - apply (Permutation_NoDup
               (Permutation_map DemoApp.o_license
                  (Permutation_sym (sortByRate_Permutation offers)))).
      exact Hnd.
    - apply List.Forall_forall. intros o _. reflexivity. }
  lia.
Qed.

Lemma total_allocation_closed_form_witness :
  let accounts :=
    [mkAccount [] [88]%N [88; 76]%N demand KRW (Some 400000000) None None None;
     mkAccount [] [75]%N
       ([51200; 52629; 51008; 54665; 67]%N ++ Coverage.licenseSuffix)
       term KRW (Some 70000000) None None None] in
  let r := DemoApp.computeRoutingWith DemoApp.rateOffers 100000000 accounts in
  capacity 100000000 accounts DemoApp.rateOffers = 270000000 /\
  sumAllocate (DemoApp.plan r) = 270000000.
Proof.
  intros accounts r. split; [vm_compute; reflexivity|]. subst r.
  rewrite (total_allocation_closed_form DemoApp.rateOffers 100000000 accounts).
  - vm_compute. reflexivity.
  - vm_compute. repeat constructor; simpl; intuition discriminate.
Defined.

Section InterestFacts.

Lemma fold_left_interest (l : list DemoApp.PlanEntry) (z : Q) :
  (fold_left
     (fun s p => s + inject_Z (DemoApp.p_allocate p) * DemoApp.p_rate p)%Q l z
   == z + interestSum l)%Q.
Proof.
  revert z. induction l as [|p l IH]; intros z; simpl.
  - ring.
  - rewrite IH. ring.
Qed.

Lemma interestSum_bounds (q : Q) (l : list DemoApp.PlanEntry) :
  Forall (fun p => 0 < DemoApp.p_allocate p /\
                   (0 <= DemoApp.p_rate p /\ DemoApp.p_rate p <= q)%Q) l ->
  (0 <= interestSum l /\ interestSum l <= q * inject_Z (sumAllocate l))%Q.
Proof.
  induction 1 as [|p l (Hpos & Hr0 & Hrq) _ IH]; simpl.
  - split; [apply Qle_refl|]. ring_simplify. apply Qle_refl.
  - destruct IH as [IH0 IHq].
    assert (Ha : (0 <= inject_Z (DemoApp.p_allocate p))%Q).
    { change 0%Q with (inject_Z 0). rewrite <- Zle_Qle. lia. }
    rewrite inject_Z_plus.
    assert (H1 : (0 <= inject_Z (DemoApp.p_allocate p) * DemoApp.p_rate p)%Q)
      by now apply Qmult_le_0_compat.
    assert (H2 : (inject_Z (DemoApp.p_allocate p) * DemoApp.p_rate p
                  <= q * inject_Z (DemoApp.p_allocate p))%Q).
    { nra. }
    split; lra.
Qed.

End InterestFacts.

(** X15. When every offered rate lies between 0 and [q], the projected
    interest is not negative and is at most the rounding of [q] times
    the idle cash. *)
Theorem projectedInterest_bounds (offers : list DemoApp.RateOffer)
    (limit : Z) (accounts : list Account) (q : Q) :
  (0 <= q)%Q ->
  Forall (fun o => (0 <= DemoApp.o_rate o /\ DemoApp.o_rate o <= q)%Q) offers ->
  let r := DemoApp.computeRoutingWith offers limit accounts in
  0 <= DemoApp.projectedInterest r
    <= Js.Math_round (q * inject_Z (DemoApp.idleCash r)).
Proof.
  intros Hq0 Hrates r.
  destruct (computeRoutingWith_fields offers limit accounts)
    as (_ & _ & _ & Hint).
  destruct (computeRoutingWith_trace offers limit accounts) as (_ & Hpos & Hsub).
  destruct (computeRoutingWith_bounded offers limit accounts)
    as (_ & remain & Hrem & Hsum & _).
  fold r in Hint, Hpos, Hsub, Hsum.
  assert (Hall : Forall (fun p => 0 < DemoApp.p_allocate p /\
                   (0 <= DemoApp.p_rate p /\ DemoApp.p_rate p <= q)%Q)
                   (DemoApp.plan r)).
  { rewrite List.Forall_forall in Hpos, Hrates |- *. intros p Hp.
    split; [now apply Hpos|].
    apply (Hrates (offerOf p)).
    apply (Permutation_in _ (sortByRate_Permutation offers)).
    apply (sublist_In _ _ _ Hsub). now apply in_map. }
  destruct (interestSum_bounds q _ Hall) as [H0 Hq].
  assert (Hle : (inject_Z (sumAllocate (DemoApp.plan r))
                 <= inject_Z (DemoApp.idleCash r))%Q).
  { rewrite <- Zle_Qle. lia. }
  assert (Hfold := fold_left_interest (DemoApp.plan r) 0).
  rewrite Hint. split.
  - change 0 with (Js.Math_round 0). apply Math_round_le.
    rewrite Hfold. lra.
  - apply Math_round_le. rewrite Hfold.
    assert ((q * inject_Z (sumAllocate (DemoApp.plan r))
             <= q * inject_Z (DemoApp.idleCash r))%Q) by nra.
    lra.
Qed.

Lemma projectedInterest_bounds_witness :
  let accounts :=
    [mkAccount [] [88]%N [88; 76]%N demand KRW (Some 80000000) None None None] in
  let r := DemoApp.computeRoutingWith DemoApp.rateOffers 100000000 accounts in
  DemoApp.projectedInterest r = 2680000 /\
  0 <= DemoApp.projectedInterest r <= 2730000.
Proof.
  intros accounts r. split; [vm_compute; reflexivity|].
  apply (projectedInterest_bounds DemoApp.rateOffers 100000000 accounts
           (39 # 1000)).
  - discriminate.
  - repeat constructor; discriminate.
Defined.

(* ================================================================== *)
(** ** The CSV reader *)

Section CsvSteps.

Variable R : list (list jsstring).

Lemma loop_char (x : N) (t : jsstring) (row : list jsstring) (cur : jsstring)
    (b : bool) :
  x <> 34%N -> (b = true \/ (x <> 44 /\ x <> 10 /\ x <> 13)%N) ->
  Csv.loop (x :: t) (Csv.mkState R row cur b)
  = Csv.loop t (Csv.mkState R row (cur ++ [x]) b).
Proof.
  intros H34 H. simpl.
  rewrite (proj2 (N.eqb_neq x 34)) by assumption.
  destruct b; simpl.
  - now rewrite !andb_false_r.
  - destruct H as [H|(H44 & H10 & H13)]; [discriminate|].
    rewrite (proj2 (N.eqb_neq x 44)), (proj2 (N.eqb_neq x 10)),
      (proj2 (N.eqb_neq x 13)) by assumption.
    reflexivity.
Qed.

Lemma loop_quote_open (t : jsstring) (row : list jsstring) (cur : jsstring) :
  Csv.loop (34%N :: t) (Csv.mkState R row cur false)
  = Csv.loop t (Csv.mkState R row cur true).
Proof. simpl. now destruct t. Qed.

Lemma loop_quote_escaped (t : jsstring) (row : list jsstring) (cur : jsstring) :
  Csv.loop (34%N :: 34%N :: t) (Csv.mkState R row cur true)
  = Csv.loop t (Csv.mkState R row (cur ++ [34%N]) true).
Proof. reflexivity. Qed.

Lemma loop_quote_close (t : jsstring) (row : list jsstring) (cur : jsstring) :
  notStart 34 t ->
  Csv.loop (34%N :: t) (Csv.mkState R row cur true)
  = Csv.loop t (Csv.mkState R row cur false).
Proof.
  intros H. simpl. destruct t as [|n t]; trivial.
  simpl in H. now rewrite (proj2 (N.eqb_neq n 34)).
Qed.

Lemma loop_comma (t : jsstring) (row : list jsstring) (cur : jsstring) :
  Csv.loop (44%N :: t) (Csv.mkState R row cur false)
  = Csv.loop t (Csv.mkState R (row ++ [cur]) [] false).
Proof. reflexivity. Qed.

Lemma loop_eol (eol t : jsstring) (row : list jsstring) (cur : jsstring) :
  lineBreak eol -> (eol = [13%N] -> notStart 10 t) ->
  Csv.loop (eol ++ t) (Csv.mkState R row cur false)
  = Csv.loop t (Csv.flush (Csv.mkState R row cur false)).
Proof.
  intros [->|[->| ->]] H.
  - simpl. now destruct t.
  - simpl. destruct t as [|n t]; trivial.
    specialize (H eq_refl). simpl in H.
    now rewrite (proj2 (N.eqb_neq n 10)).
  - reflexivity.
Qed.

Lemma loop_plain (c t : jsstring) (row : list jsstring) (cur : jsstring) :
  plainCell c ->
  Csv.loop (c ++ t) (Csv.mkState R row cur false)
  = Csv.loop t (Csv.mkState R row (cur ++ c) false).
Proof.
  intros H. revert cur.
  induction H as [|x c (H34 & Hrest) _ IH]; intros cur.
  - now rewrite app_nil_r.
  - change ((x :: c) ++ t) with (x :: c ++ t).
    rewrite loop_char by tauto. rewrite IH, <- app_assoc. reflexivity.
Qed.

Lemma loop_escape (c t : jsstring) (row : list jsstring) :
  notStart 34 t ->
  forall cur,
    Csv.loop (escapeQuotes c ++ 34%N :: t) (Csv.mkState R row cur true)
    = Csv.loop t (Csv.mkState R row (cur ++ c) false).
Proof.
  intros Ht. induction c as [|x c IH]; intros cur.
  - simpl app. rewrite app_nil_r. now apply loop_quote_close.
  - change (escapeQuotes (x :: c))
      with ((if (x =? 34)%N then [34; 34]%N else [x]) ++ escapeQuotes c).
    destruct (N.eqb_spec x 34) as [->|NE].
    + change (([34; 34]%N ++ escapeQuotes c) ++ 34%N :: t)
        with (34%N :: 34%N :: escapeQuotes c ++ 34%N :: t).
      rewrite loop_quote_escaped, IH, <- app_assoc. reflexivity.
    + change (([x] ++ escapeQuotes c) ++ 34%N :: t)
        with (x :: escapeQuotes c ++ 34%N :: t).
      rewrite loop_char by tauto. rewrite IH, <- app_assoc. reflexivity.
Qed.

Lemma loop_cell (qc : bool * jsstring) (t : jsstring) (row : list jsstring)
    (cur : jsstring) :
  (fst qc = false -> plainCell (snd qc)) ->
  (fst qc = true -> notStart 34 t) ->
  Csv.loop (encodeCell qc ++ t) (Csv.mkState R row cur false)
  = Csv.loop t (Csv.mkState R row (cur ++ snd qc) false).
Proof.
  destruct qc as [[|] c]; unfold encodeCell; cbn [fst snd];
    intros Hplain Hq.
  - replace (([34%N] ++ escapeQuotes c ++ [34%N]) ++ t)
      with (34%N :: escapeQuotes c ++ 34%N :: t)
      by (simpl; now rewrite <- app_assoc).
    rewrite loop_quote_open. apply loop_escape. now apply Hq.
  - apply loop_plain. now apply Hplain.
Qed.

(** A whole row: the cells before the last go to [row], the last one
    stays in [cur]. *)
Lemma loop_row (cells : list (bool * jsstring)) (t : jsstring) :
  cells <> [] ->
  Forall (fun qc => fst qc = false -> plainCell (snd qc)) cells ->
  notStart 34 t ->
  forall row cur,
  exists row' cur',
    Csv.loop (encodeRow cells ++ t) (Csv.mkState R row cur false)
    = Csv.loop t (Csv.mkState R row' cur' false) /\
    row' ++ [cur']
    = row ++ (cur ++ hd [] (map snd cells)) :: tl (map snd cells).
Proof.
  intros Hne Hall Ht.
  induction cells as [|qc cells IH]; [congruence|]. clear Hne.
  inversion Hall as [|? ? Hqc Hall']; subst. intros row cur.
  destruct cells as [|qc2 more].
  - exists row, (cur ++ snd qc). split; [|reflexivity].
    simpl encodeRow. apply loop_cell; [exact Hqc | intros _; exact Ht].
  - change (encodeRow (qc :: qc2 :: more))
      with (encodeCell qc ++ [44%N] ++ encodeRow (qc2 :: more)).
    rewrite <- !app_assoc.
    rewrite loop_cell; [|exact Hqc|intros _; simpl; discriminate].
    change ([44%N] ++ encodeRow (qc2 :: more) ++ t)
      with (44%N :: encodeRow (qc2 :: more) ++ t).
    rewrite loop_comma.
    destruct (IH ltac:(discriminate) Hall' (row ++ [cur ++ snd qc]) [])
      as (row' & cur' & Heq & Hshape).
    exists row', cur'. split; [exact Heq|].
    rewrite Hshape. simpl. now rewrite <- app_assoc.
Qed.

End CsvSteps.

Section CsvLines.

Lemma encodeRow_start (cells : list (bool * jsstring)) (t : jsstring) :
  writableRow cells ->
  notStart 10 (encodeRow cells ++ t) /\ notStart 65279 (encodeRow cells ++ t)
  \/ exists c rest, hd (false, []) cells = (false, c :: rest).
Proof.
  intros (Hne & Hnot & Hall).
  destruct cells as [|[[|] c] more]; [congruence| |].
  - left. destruct more; simpl; split; discriminate.
  - destruct c as [|x c].
    + left. destruct more as [|qc more]; [simpl in Hnot; congruence|].
      simpl. split; discriminate.
    + right. now exists x, c.
Qed.

Lemma encodeRow_not_LF (cells : list (bool * jsstring)) (t : jsstring) :
  writableRow cells -> notStart 10 (encodeRow cells ++ t).
Proof.
  intros H. destruct (encodeRow_start cells t H) as [[H10 _]|(x & c & Hhd)];
    trivial.
  destruct H as (_ & _ & Hall).
  destruct cells as [|qc more]; [discriminate|]. simpl in Hhd. subst qc.
  inversion Hall as [|? ? Hp _]; subst. specialize (Hp eq_refl).
  inversion Hp as [|? ? (_ & _ & H10 & _) _]; subst.
  destruct more; simpl; exact H10.
Qed.

Lemma flush_row (R : list (list jsstring)) (row' : list jsstring)
    (cur' : jsstring) :
  row' ++ [cur'] <> [[]] ->
  Csv.flush (Csv.mkState R row' cur' false)
  = Csv.mkState (R ++ [row' ++ [cur']]) [] [] false.
Proof.
  intros H. unfold Csv.flush. simpl.
  destruct cur', row'; trivial. now elim H.
Qed.

(** One line: the row is appended to the finished rows. *)
Lemma loop_line (R : list (list jsstring)) (cells : list (bool * jsstring))
    (eol t : jsstring) :
  writableRow cells -> lineBreak eol -> (eol = [13%N] -> notStart 10 t) ->
  Csv.loop (encodeRow cells ++ eol ++ t) (Csv.mkState R [] [] false)
  = Csv.loop t (Csv.mkState (R ++ [map snd cells]) [] [] false).
Proof.
  intros (Hne & Hnot & Hall) Heol Ht.
  destruct (loop_row R cells (eol ++ t) Hne Hall) with (row := @nil (list N))
    (cur := @nil N) as (row' & cur' & Heq & Hshape).
  { destruct Heol as [->|[->| ->]]; simpl; discriminate. }
  rewrite Heq, loop_eol by assumption.
  simpl in Hshape.
  assert (Hcells : row' ++ [cur'] = map snd cells).
  { rewrite Hshape. destruct cells; [congruence|reflexivity]. }
  rewrite flush_row by (rewrite Hcells; exact Hnot).
  now rewrite Hcells.
Qed.

Lemma loop_lines (eol : jsstring) (l : list (list (bool * jsstring)))
    (t : jsstring) :
  lineBreak eol -> Forall writableRow l -> notStart 10 t ->
  forall R,
    Csv.loop (encodeLines eol l ++ t) (Csv.mkState R [] [] false)
    = Csv.loop t (Csv.mkState (R ++ map (map snd) l) [] [] false).
Proof.
  intros Heol Hall Ht. induction Hall as [|cells l Hc Hl IH]; intros R.
  - simpl. now rewrite app_nil_r.
  - unfold encodeLines. simpl flat_map. fold (encodeLines eol l).
    rewrite <- !app_assoc. rewrite loop_line; trivial.
    + rewrite IH. simpl map. now rewrite <- app_assoc.
    + intros _. destruct Hl as [|c2 l' Hc2 _]; [exact Ht|].
      unfold encodeLines. simpl flat_map. rewrite <- !app_assoc.
      now apply encodeRow_not_LF.
Qed.

Lemma parse_last (R : list (list jsstring)) (cells : list (bool * jsstring)) :
  writableRow cells ->
  Csv.rows (Csv.flush (Csv.loop (encodeRow cells) (Csv.mkState R [] [] false)))
  = R ++ [map snd cells].
Proof.
  intros (Hne & Hnot & Hall).
  destruct (loop_row R cells [] Hne Hall I [] [])
    as (row' & cur' & Heq & Hshape).
  rewrite app_nil_r in Heq. rewrite Heq. simpl Csv.loop.
  simpl in Hshape.
  assert (Hcells : row' ++ [cur'] = map snd cells).
  { rewrite Hshape. destruct cells; [congruence|reflexivity]. }
  rewrite flush_row by (rewrite Hcells; exact Hnot).
  simpl. now rewrite Hcells.
Qed.

End CsvLines.

(** X16. Reading back what was written: rows of cells written one per
    line (cells separated by commas, each cell either plain or quoted
    with its quotes doubled, lines ended by LF, CR or CR LF) are
    returned by [parseCsv] cell for cell, in each of the four layouts:
    with or without a byte-order mark in front, and with or without a
    line break after the last row.  A row has at least one cell and is
    not the row of one empty cell, which is written as an empty line
    and dropped by the reader; without a byte-order mark the text must
    not begin with the character U+FEFF, which the reader would strip. *)
Theorem parseCsv_reads_back (eol : jsstring)
    (l : list (list (bool * jsstring))) :
  lineBreak eol -> Forall writableRow l ->
  Csv.parseCsv (65279%N :: encodeLines eol l) = map (map snd) l /\
  (notStart 65279 (encodeLines eol l) ->
   Csv.parseCsv (encodeLines eol l) = map (map snd) l) /\
  (forall last : list (bool * jsstring),
      writableRow last ->
      Csv.parseCsv (65279%N :: encodeLines eol l ++ encodeRow last)
      = map (map snd) (l ++ [last])) /\
  (forall last : list (bool * jsstring),
      writableRow last ->
      notStart 65279 (encodeLines eol l ++ encodeRow last) ->
      Csv.parseCsv (encodeLines eol l ++ encodeRow last)
      = map (map snd) (l ++ [last])).
Proof.
  intros Heol Hall.
  assert (Hbody : Csv.rows (Csv.flush
            (Csv.loop (encodeLines eol l) (Csv.mkState [] [] [] false)))
          = map (map snd) l).
  { rewrite <- (app_nil_r (encodeLines eol l)).
    rewrite loop_lines by (trivial; exact I). reflexivity. }
  assert (Hlast : forall last : list (bool * jsstring),
             writableRow last ->
             Csv.rows (Csv.flush
               (Csv.loop (encodeLines eol l ++ encodeRow last)
                         (Csv.mkState [] [] [] false)))
             = map (map snd) (l ++ [last])).
  { intros last Hw. rewrite loop_lines; trivial.
    - rewrite parse_last by assumption. now rewrite map_app.
    - rewrite <- (app_nil_r (encodeRow last)). now apply encodeRow_not_LF. }
  assert (Hstrip : forall t : jsstring,
             notStart 65279 t -> Csv.stripBOM t = t).
  { intros [|c t] Hc; [reflexivity|]. unfold Csv.stripBOM.
    simpl in Hc. now rewrite (proj2 (N.eqb_neq c 65279)). }
  split; [exact Hbody|]. split; [|split].
  - intros Hbom. unfold Csv.parseCsv. rewrite Hstrip by assumption.
    exact Hbody.
  - intros last Hw. unfold Csv.parseCsv. simpl Csv.stripBOM. cbv zeta.
    now apply Hlast.
  - intros last Hw Hbom. unfold Csv.parseCsv. rewrite Hstrip by assumption.
    cbv zeta. now apply Hlast.
Qed.

(** A file of two rows is read back; the first cell of the second row
    is quoted and holds quotes, a comma and a line feed. *)
Lemma parseCsv_reads_back_witness :
  Csv.parseCsv
    (65279%N ::
     encodeLines [13; 10]%N
       [ [(false, [97]%N); (false, [98]%N)];
         [(true, [120; 34; 121; 34; 44; 10; 122]%N); (false, [119]%N)] ])
  = [ [[97]%N; [98]%N]; [[120; 34; 121; 34; 44; 10; 122]%N; [119]%N] ].
Proof.
  refine (proj1 (parseCsv_reads_back [13; 10]%N _ _ _)).
  - right. right. reflexivity.
  - repeat constructor; try discriminate; simpl; intros; try discriminate.
Defined.

Section CsvInvariant.

Variable Q : N -> Prop.
Variable P : Csv.State -> Prop.

Hypothesis quote_steps :
  Q 34%N -> forall st, P st ->
    P (Csv.mkState (Csv.rows st) (Csv.row st) (Csv.cur st ++ [34%N])
         (Csv.inQuote st)) /\
    P (Csv.mkState (Csv.rows st) (Csv.row st) (Csv.cur st)
         (negb (Csv.inQuote st))).
Hypothesis separator_steps :
  forall st, P st -> Csv.inQuote st = false ->
    P (Csv.mkState (Csv.rows st) (Csv.row st ++ [Csv.cur st]) []
         (Csv.inQuote st)) /\
    P (Csv.flush st).
Hypothesis char_step :
  forall st c, Q c -> c <> 34%N -> P st ->
    (Csv.inQuote st = true \/ (c <> 44 /\ c <> 10 /\ c <> 13)%N) ->
    P (Csv.mkState (Csv.rows st) (Csv.row st) (Csv.cur st ++ [c])
         (Csv.inQuote st)).

(** A property kept by each kind of step is kept by the loop. *)
Lemma loop_preserves (n : nat) :
  forall t, (length t <= n)%nat -> Forall Q t ->
  forall st, P st -> P (Csv.loop t st).
Proof.
  induction n as [|n IH]; intros t Hlen HQ st Hst.
  - destruct t; [exact Hst|simpl in Hlen; lia].
  - destruct t as [|c t']; [exact Hst|].
    inversion HQ as [|? ? Hc HQ']; subst. simpl in Hlen.
    assert (Hlen' : (length t' <= n)%nat) by lia.
    simpl Csv.loop.
    destruct (N.eqb_spec c 34) as [->|NE].
    + destruct (quote_steps Hc st Hst) as [Hesc Htog].
      destruct t' as [|n' t'']; [now apply IH|].
      destruct (Csv.inQuote st && (n' =? 34)%N).
      * apply IH; trivial; [simpl in Hlen'; lia|now inversion HQ'].
      * now apply IH.
    + destruct (Csv.inQuote st) eqn:Eq.
      * rewrite !andb_false_r. apply IH; trivial.
        rewrite <- Eq. apply char_step; trivial. now left.
      * rewrite !andb_true_r.
        destruct (separator_steps st Hst Eq) as [Hcomma Hflush].
        rewrite Eq in Hcomma.
        destruct (N.eqb_spec c 44) as [->|N44]; [now apply IH|].
        destruct (N.eqb_spec c 10) as [->|N10].
        { simpl. destruct t'; now apply IH. }
        destruct (N.eqb_spec c 13) as [->|N13].
        { simpl. destruct t' as [|n' t'']; [now apply IH|].
          destruct (n' =? 10)%N; [|now apply IH].
          apply IH; trivial; [simpl in Hlen'; lia|now inversion HQ']. }
        simpl. apply IH; trivial.
        rewrite <- Eq. apply char_step; trivial. right. tauto.
Qed.

End CsvInvariant.

(** X17. [parseCsv] never returns a row without cells nor a row that is
    one empty cell (empty lines are dropped), and the empty text has no
    rows; when the text holds no quote character, no cell holds a comma
    or a line break. *)
Theorem parseCsv_rows_shape (text : jsstring) :
  Forall (fun r => r <> [] /\ r <> [[]]) (Csv.parseCsv text) /\
  (~ In 34%N text -> Forall (Forall plainCell) (Csv.parseCsv text)) /\
  Csv.parseCsv [] = [].
Proof.
  assert (Hflush : forall st,
            Forall (fun r : list (list N) => r <> [] /\ r <> [[]]) (Csv.rows st) ->
            Forall (fun r : list (list N) => r <> [] /\ r <> [[]])
              (Csv.rows (Csv.flush st))).
  { intros st H.
    assert (Hgood : forall (row : list (list N)) (cur : list N),
               ~ (cur = [] /\ row = []) ->
               row ++ [cur] <> [] /\ row ++ [cur] <> [[]]).
    { intros row cur Hn. split; [destruct row; discriminate|].
      destruct row as [|x row]; simpl; intros E.
      - injection E as E'. tauto.
      - injection E as _ E. destruct row; discriminate. }
    unfold Csv.flush.
    destruct (Csv.cur st) as [|c cur] eqn:Ec;
      destruct (Csv.row st) as [|w row] eqn:Er; trivial; cbn [Csv.rows];
      (apply List.Forall_app; split; [exact H|]);
      (apply List.Forall_cons; [|apply List.Forall_nil]);
      apply Hgood; intros [E1 E2]; discriminate. }
  split; [|split; [|reflexivity]].
  - unfold Csv.parseCsv. cbv zeta. apply Hflush.
    apply (loop_preserves (fun _ => True)
             (fun st => Forall (fun r : list (list N) => r <> [] /\ r <> [[]])
                          (Csv.rows st)))
      with (n := length (Csv.stripBOM text)); trivial.
    + intros _ st H. now split.
    + intros st H _. split; [exact H|now apply Hflush].
    + apply List.Forall_forall. trivial.
  - intros Hq. unfold Csv.parseCsv. cbv zeta.
    set (P := fun st => Csv.inQuote st = false /\
                        Forall (Forall plainCell) (Csv.rows st) /\
                        Forall plainCell (Csv.row st) /\
                        plainCell (Csv.cur st)).
    assert (HPflush : forall st, P st -> P (Csv.flush st)).
    { intros st (Hi & Hr & Hw & Hc).
      assert (Hpush : P (Csv.mkState (Csv.rows st ++ [Csv.row st ++ [Csv.cur st]])
                           [] [] (Csv.inQuote st))).
      { repeat split; simpl; trivial; try constructor.
        apply List.Forall_app. split; [exact Hr|].
        constructor; [|constructor].
        apply List.Forall_app. split; [exact Hw|now constructor]. }
      unfold Csv.flush.
      destruct (Csv.cur st) as [|c cur] eqn:Ec;
        destruct (Csv.row st) as [|w row] eqn:Er; try exact Hpush.
      unfold P. rewrite Ec, Er. now repeat split. }
    assert (HP : P (Csv.loop (Csv.stripBOM text) (Csv.mkState [] [] [] false))).
    { apply (loop_preserves (fun c => c <> 34%N) P)
        with (n := length (Csv.stripBOM text)); trivial.
      - intros H. congruence.
      - intros st (Hi & Hr & Hw & Hc) _. split; [|now apply HPflush].
        repeat split; simpl; trivial; [|constructor].
        apply List.Forall_app. split; [exact Hw|now constructor].
      - intros st c Hc34 _ (Hi & Hr & Hw & Hc) Hcase.
        repeat split; simpl; trivial.
        apply List.Forall_app. split; [exact Hc|].
        constructor; [|constructor].
        destruct Hcase as [Hcase|Hcase]; [congruence|tauto].
      - apply List.Forall_forall. intros c Hc E. subst c. apply Hq.
        unfold Csv.stripBOM in Hc. destruct text as [|c0 t0]; [destruct Hc|].
        destruct (c0 =? 65279)%N; [now right|exact Hc].
      - repeat split; constructor. }
    now destruct (HPflush _ HP) as (_ & Hrows & _).
Qed.

Lemma parseCsv_rows_shape_witness :
  ~ In 34%N [97; 44; 98; 10; 99]%N /\
  Forall (Forall plainCell) (Csv.parseCsv [97; 44; 98; 10; 99]%N).
Proof.
  assert (H : ~ In 34%N [97; 44; 98; 10; 99]%N).
  { simpl. intros [E|[E|[E|[E|[E|[]]]]]]; discriminate E. }
  split; [exact H|].
  exact (proj1 (proj2 (parseCsv_rows_shape [97; 44; 98; 10; 99]%N)) H).
Defined.

Example parseCsv_blank_lines :
  Csv.parseCsv [97; 44; 98; 10; 10; 13; 10; 99; 10]%N
  = [ [[97]%N; [98]%N]; [[99]%N] ].
Proof. reflexivity. Qed.

(* ================================================================== *)
(** ** The catalog as read by the two routes *)

Section CatalogFacts.

Lemma loadKDIC_fold (rows : list (jsstring * jsstring)) (s0 : gset (list N))
    (k : list N) :
  k ∈ fold_left
        (fun (set : gset (list N)) (cols : list N * list N) =>
           let inst := Js.trim (fst cols) in
           let prod := Js.trim (snd cols) in
           if negb (bool_decide (inst = [])) && negb (bool_decide (prod = []))
           then set ∪ {[ Coverage.compositeKey inst prod ]}
           else set)
        rows s0
  <-> k ∈ s0 \/
      exists cols, In cols rows /\ Js.trim (fst cols) <> [] /\
                   Js.trim (snd cols) <> [] /\
                   k = Coverage.compositeKey (Js.trim (fst cols))
                         (Js.trim (snd cols)).
Proof.
  revert s0. induction rows as [|r rows IH]; intros s0; simpl.
  - split; [tauto|]. intros [H|(c & [] & _)]. exact H.
  - rewrite IH. clear IH.
    destruct (decide (Js.trim (fst r) = [])) as [E1|N1].
    { rewrite (bool_decide_eq_true_2 _ E1). simpl. split.
      - intros [H|(c & Hc & H)]; [tauto|]. right. exists c. tauto.
      - intros [H|(c & [<-|Hc] & H1 & H)]; [tauto|tauto|].
        right. exists c. tauto. }
    destruct (decide (Js.trim (snd r) = [])) as [E2|N2].
    { rewrite (bool_decide_eq_true_2 _ E2), andb_false_r. split.
      - intros [H|(c & Hc & H)]; [tauto|]. right. exists c. tauto.
      - intros [H|(c & [<-|Hc] & H1 & H2 & H)]; [tauto|tauto|].
        right. exists c. tauto. }
    rewrite !bool_decide_eq_false_2 by assumption. simpl. split.
    + intros [H|(c & Hc & H)].
      * apply elem_of_union in H. destruct H as [H|H]; [tauto|].
        apply elem_of_singleton in H. right. exists r. tauto.
      * right. exists c. tauto.
    + intros [H|(c & [<-|Hc] & H1 & H2 & H)].
      * left. set_solver.
      * left. set_solver.
      * right. exists c. tauto.
Qed.

Lemma loadKDIC_elem_iff (rows : list (jsstring * jsstring)) (k : list N) :
  k ∈ Coverage.loadKDIC rows <->
  exists cols, In cols rows /\ Js.trim (fst cols) <> [] /\
               Js.trim (snd cols) <> [] /\
               k = Coverage.compositeKey (Js.trim (fst cols))
                     (Js.trim (snd cols)).
Proof.
  unfold Coverage.loadKDIC. rewrite loadKDIC_fold. split; [|tauto].
  intros [H|H]; [set_solver|exact H].
Qed.

Lemma catalog_rows_elem (idxInst idxProd : option nat)
    (data : list (list jsstring)) (inst prod : jsstring) :
  In (inst, prod)
     (flat_map
        (fun cols =>
           let institution := Js.trim (Csv.cell cols idxInst) in
           let product_name := Js.trim (Csv.cell cols idxProd) in
           match institution, product_name with
           | _ :: _, _ :: _ => [(institution, product_name)]
           | _, _ => []
           end)
        data)
  <-> exists cols, In cols data /\
                   inst = Js.trim (Csv.cell cols idxInst) /\
                   prod = Js.trim (Csv.cell cols idxProd) /\
                   inst <> [] /\ prod <> [].
Proof.
  rewrite in_flat_map. split.
  - intros (cols & Hin & H). exists cols. split; trivial. cbv zeta in H.
    destruct (Js.trim (Csv.cell cols idxInst)) as [|a x]; [destruct H|].
    destruct (Js.trim (Csv.cell cols idxProd)) as [|b y]; [destruct H|].
    destruct H as [H|[]]. injection H as <- <-. repeat split; discriminate.
  - intros (cols & Hin & -> & -> & Hi & Hp). exists cols. split; trivial.
    cbv zeta.
    destruct (Js.trim (Csv.cell cols idxInst)) as [|a x]; [congruence|].
    destruct (Js.trim (Csv.cell cols idxProd)) as [|b y]; [congruence|].
    now left.
Qed.

End CatalogFacts.

Section CatalogLink.

Variable raw : jsstring.

Lemma catalog_to_index (inst prod : jsstring) :
  In (inst, prod) (Mydata.loadCatalogFromCsv raw) ->
  inst <> [] /\ prod <> [] /\
  Coverage.compositeKey inst prod ∈ Coverage.loadKDICFromText raw.
Proof.
  unfold Mydata.loadCatalogFromCsv, Coverage.loadKDICFromText. cbv zeta.
  destruct (Csv.parseCsv raw) as [|header0 data]; [intros []|].
  simpl tl.
  set (idxInst := Csv.findIndex (Js.test Csv.instHeader) (map Js.trim header0)).
  set (idxProd := Csv.findIndex (Js.test Csv.prodHeader) (map Js.trim header0)).
  intros Hin.
  assert (Hin' : exists cols, In cols data /\
                   inst = Js.trim (Csv.cell cols idxInst) /\
                   prod = Js.trim (Csv.cell cols idxProd) /\
                   inst <> [] /\ prod <> []).
  { destruct idxInst, idxProd; try destruct Hin.
    now apply catalog_rows_elem. }
  destruct Hin' as (cols & Hc & -> & -> & Hi & Hp).
  repeat split; trivial.
  apply loadKDIC_elem_iff.
  exists (Csv.cell cols idxInst, Csv.cell cols idxProd).
  repeat split; trivial.
  apply in_map_iff. now exists cols.
Qed.

Lemma index_to_catalog (k : list N) :
  k ∈ Coverage.loadKDICFromText raw ->
  exists inst prod,
    In (inst, prod) (Mydata.loadCatalogFromCsv raw) /\
    k = Coverage.compositeKey inst prod.
Proof.
  unfold Mydata.loadCatalogFromCsv, Coverage.loadKDICFromText. cbv zeta.
  destruct (Csv.parseCsv raw) as [|header0 data].
  { intros Hk. simpl in Hk. set_solver. }
  simpl tl.
  set (idxInst := Csv.findIndex (Js.test Csv.instHeader) (map Js.trim header0)).
  set (idxProd := Csv.findIndex (Js.test Csv.prodHeader) (map Js.trim header0)).
  assert (Hempty : Js.trim [] = []) by reflexivity.
  intros Hk. apply loadKDIC_elem_iff in Hk.
  destruct Hk as ([ci cp] & Hin & Hi & Hp & ->). simpl in *.
  apply in_map_iff in Hin. destruct Hin as (cols & E & Hc).
  injection E as <- <-.
  exists (Js.trim (Csv.cell cols idxInst)), (Js.trim (Csv.cell cols idxProd)).
  split; [|reflexivity].
  destruct idxInst as [i|]; [|simpl in Hi; congruence].
  destruct idxProd as [j|]; [|simpl in Hp; congruence].
  apply catalog_rows_elem. exists cols. now repeat split.
Qed.

End CatalogLink.

(** X18. The two routes read the same catalog: the index of the coverage
    route holds exactly the keys of the (institution, product) pairs
    that the mock-account route loads from the same file; both sides
    are trimmed and non-empty.  In particular a file without one of the
    two header columns gives no pairs and an empty index. *)
Theorem catalog_index_matches_catalog (raw : jsstring) :
  (forall inst prod : jsstring,
      In (inst, prod) (Mydata.loadCatalogFromCsv raw) ->
      inst <> [] /\ prod <> [] /\
      Coverage.compositeKey inst prod ∈ Coverage.loadKDICFromText raw) /\
  (forall k : list N,
      k ∈ Coverage.loadKDICFromText raw ->
      exists inst prod,
        In (inst, prod) (Mydata.loadCatalogFromCsv raw) /\
        k = Coverage.compositeKey inst prod).
Proof.
  split.
  - intros inst prod Hin. now apply catalog_to_index.
  - intros k Hk. now apply index_to_catalog.
Qed.

Example catalog_from_text :
  let raw :=
    [65279; 110; 111; 44; 44552; 50997; 54924; 49324; 47749; 44;
     44552; 50997; 49345; 54408; 47749; 13; 10;
     49; 44; 32; 75; 66; 32; 44; 34; 65; 44; 32; 49; 34; 13; 10;
     50; 44; 44; 66; 10]%N in
  Mydata.loadCatalogFromCsv raw = [([75; 66]%N, [65; 44; 32; 49]%N)] /\
  Coverage.loadKDICFromText raw
  = {[ Coverage.compositeKey [75; 66]%N [65; 44; 32; 49]%N ]}.
Proof. vm_compute. split; reflexivity. Qed.

Lemma catalog_index_matches_catalog_witness :
  Coverage.compositeKey [75; 66]%N [65; 44; 32; 49]%N
  ∈ Coverage.loadKDICFromText
      [110; 111; 44; 44552; 50997; 54924; 49324; 47749; 44;
       44552; 50997; 49345; 54408; 47749; 13; 10;
       49; 44; 32; 75; 66; 32; 44; 34; 65; 44; 32; 49; 34; 13; 10]%N.
Proof.
  refine (proj2 (proj2 (proj1 (catalog_index_matches_catalog _) _ _ _))).
  vm_compute. left. reflexivity.
Defined.

(* ================================================================== *)
(** ** The mock-account generator *)

Section GeneratorFacts.

Lemma rnd_range (min max : Z) (u : Q) :
  min <= max -> (0 <= u)%Q -> (u < 1)%Q ->
  min <= Mydata.rnd min max u <= max.
Proof.
  intros Hmm H0 H1. unfold Mydata.rnd.
  set (n := inject_Z (max - min + 1)).
  assert (Hn : (1 <= n)%Q).
  { subst n. change 1%Q with (inject_Z 1). rewrite <- Zle_Qle. lia. }
  assert (Hnn : (inject_Z min + n == inject_Z (max + 1))%Q).
  { subst n. rewrite <- inject_Z_plus. apply inject_Z_injective. lia. }
  split.
  - rewrite <- (Qfloor_Z min) at 1. apply Qfloor_resp_le. nra.
  - assert (Hlt : (inject_Z (Qfloor (inject_Z min + u * n))
                   < inject_Z (max + 1))%Q).
    { eapply Qle_lt_trans; [apply Qfloor_le|]. rewrite <- Hnn. nra. }
    rewrite <- Zlt_Qlt in Hlt. lia.
Qed.

Lemma toLicense_suffix (inst : jsstring) :
  Mydata.toLicense inst = inst ++ Coverage.licenseSuffix.
Proof. reflexivity. Qed.

Lemma inferType_fx_currency (n : jsstring) :
  Mydata.inferTypeFromProduct n = fx_deposit -> Mydata.inferCurrency n = USD.
Proof.
  unfold Mydata.inferTypeFromProduct, Mydata.inferCurrency.
  destruct (Js.test Mydata.termKw n), (Js.test Mydata.demandKw n),
    (Js.test_i Mydata.fxKw n), (Js.test Mydata.trustKw n);
    trivial; discriminate.
Qed.

Lemma inferCurrency_cases (n : jsstring) :
  Mydata.inferCurrency n = USD \/ Mydata.inferCurrency n = KRW.
Proof. unfold Mydata.inferCurrency. destruct (Js.test_i _ _); tauto. Qed.

(** With draws in [0, 1) and a catalog that is not empty the generator
    raises no exception and makes [count] accounts from catalog pairs. *)
Lemma generateProtected_ok (catalog : list (jsstring * jsstring))
    (rand : nat -> Q) :
  catalog <> [] -> unitRange rand ->
  forall count k i,
  exists arr k',
    Mydata.generateProtectedFromCatalog catalog rand k i count = Some (arr, k') /\
    length arr = count /\
    Forall (generatedFrom catalog) arr /\
    map acc_id arr
    = map (fun j => 80%N :: Mydata.decimal (j + 1)) (seq i count).
Proof.
  intros Hne Hrand. induction count as [|count IH]; intros k i.
  - exists [], k. repeat split. constructor.
  - simpl Mydata.generateProtectedFromCatalog.
    assert (Hlen : (0 < length catalog)%nat).
    { destruct catalog; [congruence|simpl; lia]. }
    destruct (Hrand k) as [Hk0 Hk1].
    pose proof (rnd_range 0 (Z.of_nat (length catalog) - 1) (rand k)
                  ltac:(lia) Hk0 Hk1) as Hidx.
    set (idx := Mydata.rnd 0 (Z.of_nat (length catalog) - 1) (rand k)) in *.
    destruct (Z.ltb_spec idx 0) as [Hneg|_]; [lia|].
    destruct (nth_error catalog (Z.to_nat idx)) as [[inst prod]|] eqn:Enth;
      [|apply nth_error_None in Enth; lia].
    apply nth_error_In in Enth.
    set (type := Mydata.inferTypeFromProduct prod).
    set (isFx := (match type with fx_deposit => true | _ => false end
                  || bool_decide (Mydata.inferCurrency prod = USD))).
    match goal with
    | |- context [Mydata.generateProtectedFromCatalog catalog rand ?k1 (S i) count] =>
        destruct (IH k1 (S i)) as (arr & k' & Heq & Hl & Hall & Hids)
    end.
    rewrite Heq. eexists _, k'. split; [reflexivity|]. simpl.
    split; [now rewrite Hl|]. split; [|now rewrite Hids].
    constructor; [|exact Hall].
    destruct (Hrand (S k)) as [Hs0 Hs1].
    exists inst, prod. eexists. repeat split; simpl; trivial.
    pose proof (rnd_range 1000 20000 _ ltac:(lia) Hs0 Hs1).
    pose proof (rnd_range 10000000 60000000 _ ltac:(lia) Hs0 Hs1).
    pose proof (rnd_range 8000000 40000000 _ ltac:(lia) Hs0 Hs1).
    pose proof (rnd_range 2000000 8000000 _ ltac:(lia) Hs0 Hs1).
    destruct (inferCurrency_cases prod) as [Hu|Hk].
    + left. assert (E : isFx = true).
      { subst isFx. rewrite (bool_decide_eq_true_2 _ Hu). apply orb_true_r. }
      rewrite E. now repeat split.
    + right. assert (E : isFx = false).
      { subst isFx. rewrite bool_decide_eq_false_2
          by (rewrite Hk; discriminate).
        destruct type eqn:Et; trivial.
        apply inferType_fx_currency in Et. rewrite Et in Hk. discriminate. }
      rewrite E. split; [exact Hk|]. split; [reflexivity|].
      destruct type; try (now split); try (split; [lia|reflexivity]).
      split; trivial. destruct (Qle_bool _ _); tauto.
Qed.

End GeneratorFacts.

Section GeneratorResult.

Lemma generateNonProtected_ok (rand : nat -> Q) :
  unitRange rand ->
  forall count k i,
    length (Mydata.generateNonProtectedFixed rand k i count) = count /\
    Forall fixedInvestment (Mydata.generateNonProtectedFixed rand k i count) /\
    map acc_id (Mydata.generateNonProtectedFixed rand k i count)
    = map (fun j => 78%N :: Mydata.decimal (j + 1)) (seq i count).
Proof.
  intros Hrand. induction count as [|count IH]; intros k i.
  - repeat split. constructor.
  - destruct (IH (S k) (S i)) as (Hl & Hall & Hids).
    cbn [Mydata.generateNonProtectedFixed length map seq acc_id].
    rewrite Hl, Hids. repeat split.
    constructor; [|exact Hall].
    destruct (Hrand k) as [H0 H1].
    pose proof (rnd_range 5000000 25000000 _ ltac:(lia) H0 H1).
    change (length Mydata.NON_PROTECTED_FIXED) with 3%nat.
    assert (Hin : In (nth (i mod 3) Mydata.NON_PROTECTED_FIXED ([], []))
                     Mydata.NON_PROTECTED_FIXED).
    { apply nth_In. change (length Mydata.NON_PROTECTED_FIXED) with 3%nat.
      apply Nat.mod_upper_bound. discriminate. }
    unfold fixedInvestment. cbn [acc_type acc_currency acc_institution
      acc_product_name acc_license acc_balance default].
    destruct (nth (i mod 3) Mydata.NON_PROTECTED_FIXED ([], [])) as [fi fp].
    repeat split; trivial. eexists. split; [reflexivity|assumption].
Qed.

Lemma sumKRW_filter_Permutation (p : Account -> bool) (l1 l2 : list Account) :
  Permutation l1 l2 ->
  sumKRW (List.filter p l1) = sumKRW (List.filter p l2).
Proof.
  induction 1 as [|a l1 l2 _ IH|a b l|l1 l2 l3 _ IH1 _ IH2]; simpl; trivial.
  - destruct (p a); simpl; lia.
  - destruct (p a), (p b); simpl; lia.
  - lia.
Qed.

Lemma sumRows_filter_concat (p : Account -> bool) (rows : list CoverageRow) :
  sumRows (fun r => sumKRW (List.filter p (row_accounts r))) rows
  = sumKRW (List.filter p (concat (map row_accounts rows))).
Proof.
  induction rows as [|r rows IH]; simpl; trivial.
  now rewrite List.filter_app, sumKRW_app, IH.
Qed.

(** The totals over the rows, read on the input: the sum of the holdings
    that pass a test is the sum over the rows of their holdings that
    pass it. *)
Lemma GET_sum_filter (limit : Z) (kd : gset (list N)) (accounts : list Account)
    (p : Account -> bool) :
  sumRows (fun r => sumKRW (List.filter p (row_accounts r)))
    (fst (Coverage.GET limit kd accounts))
  = sumKRW (List.filter p accounts).
Proof.
  rewrite sumRows_filter_concat. apply sumKRW_filter_Permutation.
  rewrite GET_rows, applyLimit_accounts.
  now destruct (aggregated_all kd accounts) as (_ & _ & _ & H).
Qed.

Lemma GET_totals_by_test (limit : Z) (kd : gset (list N))
    (accounts : list Account) :
  tot_eligible (snd (Coverage.GET limit kd accounts))
  = sumKRW (List.filter (eligibleHolding kd) accounts) /\
  tot_nonProtected (snd (Coverage.GET limit kd accounts))
  = sumKRW (List.filter (fun a => negb (eligibleHolding kd a)) accounts).
Proof.
  rewrite (GET_totals limit kd accounts).
  cbn [tot_eligible tot_nonProtected].
  rewrite <- !(GET_sum_filter limit kd accounts).
  pose proof (GET_rows_track limit kd accounts) as Htr.
  split; apply sumRows_ext; (eapply List.Forall_impl; [|exact Htr]);
    intros r (_ & He & Hn); assumption.
Qed.

Lemma sumKRW_filter_ext (p q : Account -> bool) (l : list Account) :
  Forall (fun a => p a = q a) l ->
  sumKRW (List.filter p l) = sumKRW (List.filter q l).
Proof.
  induction 1 as [|a l Ha _ IH]; simpl; trivial.
  rewrite Ha. destruct (q a); simpl; lia.
Qed.

End GeneratorResult.

(** X19. The eligible total is the sum of the amounts of all input
    holdings that pass the category test and are found in the catalog
    index, and the non-protected total is the sum of the amounts of all
    other input holdings. *)
Theorem coverage_totals_by_eligibility (limit : Z) (kd : gset (list N))
    (accounts : list Account) :
  let totals := snd (Coverage.GET limit kd accounts) in
  tot_eligible totals = sumKRW (List.filter (eligibleHolding kd) accounts) /\
  tot_nonProtected totals
  = sumKRW (List.filter (fun a => negb (eligibleHolding kd a)) accounts) /\
  tot_protected totals <= tot_eligible totals.
Proof.
  intros totals. subst totals.
  destruct (GET_totals_by_test limit kd accounts) as [He Hn].
  split; [exact He|]. split; [exact Hn|].
  rewrite (GET_totals limit kd accounts). cbn [tot_protected tot_eligible].
  rewrite GET_rows.
  generalize (fold_left (Coverage.aggregateStep kd) accounts []).
  induction l as [|r l IH]; simpl; lia.
Qed.

(** X20. The mock branch of the account route: with an empty catalog it
    answers with no account; otherwise it answers with [protectedCnt]
    accounts made from catalog pairs (ids P1, P2, ...; category and
    currency inferred from the product name; balance from 1,000 to
    20,000 in USD, and in KRW from 10,000,000 to 60,000,000 for a term
    deposit, from 8,000,000 to 40,000,001 for a protected trust and
    from 2,000,000 to 8,000,000 otherwise) followed by
    [nonProtectedCnt] investment accounts from the fixed list (ids N1,
    N2, ...; balance between 5,000,000 and 25,000,000). *)
Theorem mock_accounts_shape (raw : jsstring) (protectedCnt nonProtectedCnt : nat)
    (rand : nat -> Q) :
  unitRange rand ->
  (Mydata.loadCatalogFromCsv raw = [] ->
   Mydata.GET raw protectedCnt nonProtectedCnt rand = []) /\
  (Mydata.loadCatalogFromCsv raw <> [] ->
   exists protectedAcc nonProtectedAcc,
     Mydata.GET raw protectedCnt nonProtectedCnt rand
     = protectedAcc ++ nonProtectedAcc /\
     length protectedAcc = protectedCnt /\
     length nonProtectedAcc = nonProtectedCnt /\
     Forall (generatedFrom (Mydata.loadCatalogFromCsv raw)) protectedAcc /\
     Forall fixedInvestment nonProtectedAcc /\
     map acc_id protectedAcc
     = map (fun j => 80%N :: Mydata.decimal (j + 1)) (seq 0 protectedCnt) /\
     map acc_id nonProtectedAcc
     = map (fun j => 78%N :: Mydata.decimal (j + 1)) (seq 0 nonProtectedCnt)).
Proof.
  intros Hrand. unfold Mydata.GET. cbv zeta. split.
  - intros ->. reflexivity.
  - intros Hne.
    destruct (generateProtected_ok _ rand Hne Hrand protectedCnt 0%nat 0%nat)
      as (arr & k' & Heq & Hl & Hall & Hids).
    destruct (generateNonProtected_ok rand Hrand nonProtectedCnt k' 0%nat)
      as (Hl2 & Hall2 & Hids2).
    destruct (Mydata.loadCatalogFromCsv raw) as [|e catalog] eqn:Ec;
      [congruence|].
    rewrite Heq. eexists _, _. split; [reflexivity|]. now repeat split.
Qed.

Lemma sampleRand_unitRange : unitRange sampleRand.
Proof.
  intros j. unfold sampleRand.
  assert (Hj : (j mod 5 < 5)%nat) by (apply Nat.mod_upper_bound; discriminate).
  unfold Qle, Qlt. simpl. lia.
Qed.

Example mock_accounts_values :
  map (fun a => (acc_id a, acc_type a, acc_balance a))
      (Mydata.GET sampleCsv 2 1 sampleRand)
  = [ ([80; 49]%N, term, Some 20000000);
      ([80; 50]%N, fx_deposit, Some 16200);
      ([78; 49]%N, investment, Some 5000000) ].
Proof. vm_compute. reflexivity. Qed.

Lemma mock_accounts_shape_witness :
  exists protectedAcc nonProtectedAcc,
    Mydata.GET sampleCsv 2 1 sampleRand = protectedAcc ++ nonProtectedAcc /\
    length protectedAcc = 2%nat /\ length nonProtectedAcc = 1%nat.
Proof.
  assert (Hne : Mydata.loadCatalogFromCsv sampleCsv <> [])
    by (vm_compute; discriminate).
  destruct (proj2 (mock_accounts_shape sampleCsv 2 1 sampleRand
                     sampleRand_unitRange) Hne)
    as (p & n & Heq & Hp & Hn & _).
  exists p, n. repeat split; assumption.
Defined.

Section MockCoverage.

Lemma inferType_protected (n : jsstring) :
  isProtectedType (Mydata.inferTypeFromProduct n) = true.
Proof.
  unfold Mydata.inferTypeFromProduct.
  now destruct (Js.test Mydata.termKw n), (Js.test Mydata.demandKw n),
    (Js.test_i Mydata.fxKw n), (Js.test Mydata.trustKw n).
Qed.

Lemma licenseOf_toLicense (a : Account) :
  acc_license a = Mydata.toLicense (acc_institution a) ->
  Coverage.licenseOf a = acc_institution a ++ Coverage.licenseSuffix.
Proof.
  intros H. unfold Coverage.licenseOf. rewrite H, toLicense_suffix.
  rewrite bool_decide_eq_false_2; trivial.
  intros E. apply app_eq_nil in E. destruct E as [_ E]. discriminate E.
Qed.

Lemma generatedFrom_facts (raw : jsstring) (a : Account) :
  generatedFrom (Mydata.loadCatalogFromCsv raw) a ->
  eligibleHolding (Coverage.loadKDICFromText raw) a = true /\
  isProtectedType (acc_type a) = true /\
  1400000 <= toKRW a <= 60000000 /\
  Coverage.licenseOf a = acc_institution a ++ Coverage.licenseSuffix.
Proof.
  intros (inst & prod & b & Hin & Hi & Hp & Hl & Ht & Hc & Hb & Hcase).
  assert (Hprot : isProtectedType (acc_type a) = true).
  { rewrite Ht. apply inferType_protected. }
  split; [|split; [exact Hprot|split]].
  - unfold eligibleHolding, Coverage.matched. rewrite Hprot, Hi, Hp. simpl.
    apply bool_decide_eq_true_2. now apply catalog_to_index.
  - unfold toKRW. rewrite Hb.
    destruct Hcase as [(Hu & Hr & Hfx & _) | (Hk & _ & Hr)].
    + rewrite (bool_decide_eq_true_2 _ Hu), Hfx. simpl default.
      assert (E : Js.Math_round (inject_Z b * (1400 # 1)) = b * 1400).
      { rewrite <- (Math_round_inject (b * 1400)). unfold Js.Math_round.
        apply Qfloor_comp. rewrite inject_Z_mult. reflexivity. }
      rewrite E. lia.
    + rewrite bool_decide_eq_false_2 by (rewrite Hk; discriminate).
      simpl default. destruct (acc_type a); lia.
  - apply licenseOf_toLicense. now rewrite Hl, Hi.
Qed.

Lemma fixedInvestment_facts (kd : gset (list N)) (a : Account) :
  fixedInvestment a ->
  eligibleHolding kd a = false /\
  isProtectedType (acc_type a) = false /\
  1400000 <= toKRW a <= 60000000 /\
  Coverage.licenseOf a = acc_institution a ++ Coverage.licenseSuffix.
Proof.
  intros (Ht & Hc & _ & Hl & b & Hb & Hr).
  unfold eligibleHolding, toKRW. rewrite Ht, Hb.
  rewrite bool_decide_eq_false_2 by (rewrite Hc; discriminate).
  repeat split; simpl; try lia. now apply licenseOf_toLicense.
Qed.

End MockCoverage.

(** X21. The mock pipeline end to end: for the accounts of the mock
    branch and the index read from the same catalog file, a holding is
    eligible exactly when its category is not investment, every holding
    is worth between 1,400,000 and 60,000,000 and is grouped under its
    institution name followed by the license suffix; so the eligible
    total is the sum of the generated catalog accounts and the
    non-protected total the sum of the fixed investment accounts. *)
Theorem mock_pipeline_coverage (raw : jsstring)
    (protectedCnt nonProtectedCnt : nat) (rand : nat -> Q) (limit : Z) :
  unitRange rand ->
  let accounts := Mydata.GET raw protectedCnt nonProtectedCnt rand in
  let kd := Coverage.loadKDICFromText raw in
  let totals := snd (Coverage.GET limit kd accounts) in
  Forall
    (fun a =>
       eligibleHolding kd a = isProtectedType (acc_type a) /\
       1400000 <= toKRW a <= 60000000 /\
       Coverage.licenseOf a = acc_institution a ++ Coverage.licenseSuffix)
    accounts /\
  tot_eligible totals
  = sumKRW (List.filter (fun a => isProtectedType (acc_type a)) accounts) /\
  tot_nonProtected totals
  = sumKRW (List.filter (fun a => negb (isProtectedType (acc_type a)))
              accounts).
Proof.
  intros Hrand accounts kd totals.
  assert (Hall : Forall
            (fun a =>
               eligibleHolding kd a = isProtectedType (acc_type a) /\
               1400000 <= toKRW a <= 60000000 /\
               Coverage.licenseOf a
               = acc_institution a ++ Coverage.licenseSuffix) accounts).
  { subst accounts. unfold Mydata.GET. cbv zeta.
    destruct (Mydata.loadCatalogFromCsv raw) as [|e catalog] eqn:Ec;
      [constructor|].
    assert (Hne : Mydata.loadCatalogFromCsv raw <> []) by congruence.
    destruct (generateProtected_ok _ rand Hne Hrand protectedCnt 0%nat 0%nat)
      as (arr & k' & Heq & _ & Hgen & _).
    destruct (generateNonProtected_ok rand Hrand nonProtectedCnt k' 0%nat)
      as (_ & Hfix & _).
    rewrite Ec in Heq. rewrite Heq. apply List.Forall_app. split.
    - eapply List.Forall_impl; [|exact Hgen]. intros a Ha.
      destruct (generatedFrom_facts raw a Ha) as (He & Hp & Hr & Hl).
      rewrite Hp. now repeat split.
    - eapply List.Forall_impl; [|exact Hfix]. intros a Ha.
      destruct (fixedInvestment_facts kd a Ha) as (He & Hp & Hr & Hl).
      rewrite Hp. now repeat split. }
  split; [exact Hall|].
  destruct (GET_totals_by_test limit kd accounts) as [He Hn].
  fold totals in He, Hn. rewrite He, Hn.
  split; apply sumKRW_filter_ext;
    (eapply List.Forall_impl; [|exact Hall]); intros a (E & _);
    simpl; now rewrite E.
Qed.

Example mock_pipeline_values :
  let totals :=
    snd (Coverage.GET 50000000 (Coverage.loadKDICFromText sampleCsv)
           (Mydata.GET sampleCsv 2 1 sampleRand)) in
  (tot_eligible totals, tot_nonProtected totals) = (42680000, 5000000).
Proof. vm_compute. reflexivity. Qed.

Lemma mock_pipeline_coverage_witness :
  tot_eligible
    (snd (Coverage.GET 50000000 (Coverage.loadKDICFromText sampleCsv)
            (Mydata.GET sampleCsv 2 1 sampleRand)))
  = sumKRW (List.filter (fun a => isProtectedType (acc_type a))
              (Mydata.GET sampleCsv 2 1 sampleRand)).
Proof.
  exact (proj1 (proj2 (mock_pipeline_coverage sampleCsv 2 1 sampleRand 50000000
                         sampleRand_unitRange))).
Defined.

(* ================================================================== *)
(** ** Coverage and routing together *)

Section CoverageAndRouting.

Lemma sumKRW_filter_filter_le (f g q : Account -> bool) (l : list Account) :
  Forall (fun a => 0 <= toKRW a /\
                   (g a = true -> f a = true -> q a = true)) l ->
  sumKRW (List.filter f (List.filter g l)) <= sumKRW (List.filter q l).
Proof.
  induction 1 as [|a l (H0 & Himp) _ IH]; simpl; [lia|].
  destruct (g a) eqn:Eg; simpl.
  - destruct (f a) eqn:Ef; simpl.
    + rewrite Himp by reflexivity. simpl. lia.
    + destruct (q a); simpl; lia.
  - destruct (q a); simpl; lia.
Qed.

Lemma eligible_le_used (kd : gset (list N)) (accounts : list Account)
    (lic : jsstring) :
  Forall (fun a => 0 <= toKRW a /\ acc_license a <> []) accounts ->
  sumKRW (List.filter (eligibleHolding kd) (holdingsOf lic accounts))
  <= sumKRW (usedHoldings lic accounts).
Proof.
  intros H. unfold holdingsOf, usedHoldings.
  apply sumKRW_filter_filter_le.
  eapply List.Forall_impl; [|exact H]. intros a [H0 Hl]. split; trivial.
  intros Hg Hf. apply bool_decide_eq_true_1 in Hg.
  unfold Coverage.licenseOf in Hg.
  rewrite bool_decide_eq_false_2 in Hg by assumption.
  unfold eligibleHolding in Hf. apply andb_true_iff in Hf.
  destruct Hf as [Hp _]. rewrite Hp. simpl.
  now apply bool_decide_eq_true_2.
Qed.

End CoverageAndRouting.

(** X22. Routed cash stays under the limit together with what is already
    eligible: when no holding has a negative amount and every holding
    carries its license, each coverage row's eligible amount is at most
    what the router counts as used for that license, and for every row
    that receives cash, eligible plus the cash routed to its license is
    at most the limit. *)
Theorem routed_cash_within_limit (offers : list DemoApp.RateOffer) (limit : Z)
    (kd : gset (list N)) (accounts : list Account) :
  Forall (fun a => 0 <= toKRW a /\ acc_license a <> []) accounts ->
  let r := DemoApp.computeRoutingWith offers limit accounts in
  Forall
    (fun row =>
       row_eligible row <= sumKRW (usedHoldings (row_license row) accounts) /\
       (0 < sumAllocate (entriesOf (row_license row) (DemoApp.plan r)) ->
        row_eligible row
        + sumAllocate (entriesOf (row_license row) (DemoApp.plan r)) <= limit))
    (fst (Coverage.GET limit kd accounts)).
Proof.
  intros Hacc r.
  destruct (computeRoutingWith_bounded offers limit accounts) as (Hb & _).
  fold r in Hb.
  pose proof (GET_rows_track limit kd accounts) as Htr.
  eapply List.Forall_impl; [|exact Htr].
  intros row (Ha & He & _). cbv beta.
  assert (Hle : row_eligible row
                <= sumKRW (usedHoldings (row_license row) accounts)).
  { rewrite He, Ha. now apply eligible_le_used. }
  split; [exact Hle|]. intros Hpos.
  pose proof (boundedPlan_license _ _ _ _ Hb (row_license row)) as Hroom.
  rewrite already_entriesOf, usedByLicense_lookup in Hroom. lia.
Qed.

(** 70,000,000 eligible at 저축은행C under a limit of 100,000,000: the
    router gives that license 30,000,000, not the ceiling. *)
Lemma routed_cash_within_limit_witness :
  let lic := [51200; 52629; 51008; 54665; 67]%N ++ Coverage.licenseSuffix in
  let accounts :=
    [ mkAccount [] [51200; 52629; 51008; 54665; 67]%N lic term KRW
                (Some 70000000) None (Some 12) (Some [84]%N);
      mkAccount [] [88]%N [88; 76]%N demand KRW (Some 400000000) None None
                None ] in
  let kd := Coverage.loadKDIC [([51200; 52629; 51008; 54665; 67]%N, [84]%N)] in
  let r := DemoApp.computeRoutingWith DemoApp.rateOffers 100000000 accounts in
  sumAllocate (entriesOf lic (DemoApp.plan r)) = 30000000 /\
  Forall
    (fun row =>
       row_eligible row <= sumKRW (usedHoldings (row_license row) accounts) /\
       (0 < sumAllocate (entriesOf (row_license row) (DemoApp.plan r)) ->
        row_eligible row
        + sumAllocate (entriesOf (row_license row) (DemoApp.plan r))
        <= 100000000))
    (fst (Coverage.GET 100000000 kd accounts)).
Proof.
  intros lic accounts kd r. split; [vm_compute; reflexivity|].
  apply (routed_cash_within_limit DemoApp.rateOffers 100000000 kd accounts).
  repeat constructor; try (vm_compute; discriminate); discriminate.
Defined.

(* ================================================================== *)
(** ** The two CSV readers on the same text *)

Section TwoReaders.

Lemma flush_flush (st : Csv.State) : Csv.flush (Csv.flush st) = Csv.flush st.
Proof.
  unfold Csv.flush. destruct (Csv.cur st) eqn:Ec, (Csv.row st) eqn:Er; simpl;
    rewrite ?Ec, ?Er; reflexivity.
Qed.

(** A line break outside quotes ends the row; the LF of a CR LF pair
    adds nothing. *)
Lemma loop_break (c : N) (t : jsstring) (st : Csv.State) :
  c = 10%N \/ c = 13%N -> Csv.inQuote st = false ->
  Csv.loop (c :: t) st = Csv.loop t (Csv.flush st).
Proof.
  intros Hc Hq.
  assert (Hfq : Csv.inQuote (Csv.flush st) = false).
  { unfold Csv.flush. destruct (Csv.cur st), (Csv.row st); simpl; exact Hq. }
  destruct Hc as [->| ->]; simpl; rewrite Hq; simpl.
  - now destruct t.
  - destruct t as [|n t]; trivial.
    destruct (N.eqb_spec n 10) as [->|NE]; trivial.
    simpl. rewrite Hfq. simpl. rewrite flush_flush. now destruct t.
Qed.

Lemma splitAcc_snoc_char (lp s : jsstring) (c : N) (row : list jsstring)
    (cur : jsstring) :
  c <> 44%N ->
  (forall s, Products.splitAcc (lp ++ s) [] = row ++ Products.splitAcc s cur) ->
  Products.splitAcc ((lp ++ [c]) ++ s) []
  = row ++ Products.splitAcc s (cur ++ [c]).
Proof.
  intros Hc H. rewrite <- app_assoc, H. simpl.
  now rewrite (proj2 (N.eqb_neq c 44)).
Qed.

(** The reader of the coverage route, on a text without quotes, splits
    the text into its non-empty lines and each line at its commas. *)
Lemma flush_cases (R : list (list jsstring)) (row : list jsstring)
    (cur lp : jsstring) :
  (forall s, Products.splitAcc (lp ++ s) [] = row ++ Products.splitAcc s cur) ->
  (lp = [] <-> row = [] /\ cur = []) ->
  Products.splitComma lp = row ++ [cur] /\
  Csv.flush (Csv.mkState R row cur false)
  = match lp with
    | [] => Csv.mkState R [] [] false
    | _ :: _ => Csv.mkState (R ++ [Products.splitComma lp]) [] [] false
    end.
Proof.
  intros Hsplit Hempty.
  assert (Hline : Products.splitComma lp = row ++ [cur]).
  { unfold Products.splitComma. rewrite <- (app_nil_r lp) at 1.
    now rewrite Hsplit. }
  split; [exact Hline|]. rewrite Hline.
  destruct lp as [|x lp].
  - destruct (proj1 Hempty eq_refl) as [-> ->]. reflexivity.
  - assert (Hne : ~ (row = [] /\ cur = [])).
    { intros H. apply Hempty in H. discriminate. }
    unfold Csv.flush. cbn [Csv.cur Csv.row Csv.rows Csv.inQuote].
    destruct cur, row; trivial. tauto.
Qed.

(** The reader of the coverage route, on a text without quotes, splits
    the text into its non-empty lines and each line at its commas. *)
Lemma loop_lines_split (t : jsstring) :
  ~ In 34%N t ->
  forall (R : list (list jsstring)) (row : list jsstring) (cur lp : jsstring),
    (forall s, Products.splitAcc (lp ++ s) [] = row ++ Products.splitAcc s cur) ->
    (lp = [] <-> row = [] /\ cur = []) ->
    Csv.rows (Csv.flush (Csv.loop t (Csv.mkState R row cur false)))
    = R ++ map Products.splitComma (Products.linesAcc t lp).
Proof.
  induction t as [|c t IH]; intros Hq R row cur lp Hsplit Hempty.
  - destruct (flush_cases R row cur lp Hsplit Hempty) as [_ Hfl].
    cbn [Csv.loop Products.linesAcc]. rewrite Hfl.
    destruct lp; cbn [Csv.rows map]; [now rewrite app_nil_r|reflexivity].
  - assert (Hq' : ~ In 34%N t) by (intros H; apply Hq; now right).
    assert (Hc34 : c <> 34%N) by (intros ->; apply Hq; now left).
    assert (Hnil : forall s, Products.splitAcc ([] ++ s) []
                             = [] ++ Products.splitAcc s []) by reflexivity.
    destruct (N.eqb_spec c 44) as [->|N44].
    { rewrite loop_comma. cbn [Products.linesAcc N.eqb Pos.eqb orb].
      apply IH; trivial.
      - intros s. rewrite <- app_assoc, Hsplit.
        cbn [app Products.splitAcc N.eqb Pos.eqb].
        now rewrite <- app_assoc.
      - split; [intros H; destruct lp; discriminate|].
        intros [H _]. destruct row; discriminate. }
    destruct (flush_cases R row cur lp Hsplit Hempty) as [_ Hfl].
    assert (Hbreak : c = 10%N \/ c = 13%N ->
              Csv.rows (Csv.flush (Csv.loop (c :: t) (Csv.mkState R row cur false)))
              = R ++ map Products.splitComma (Products.linesAcc (c :: t) lp)).
    { intros Hc. rewrite loop_break by (trivial; exact Hc). rewrite Hfl.
      replace (Products.linesAcc (c :: t) lp)
        with (match lp with
              | [] => Products.linesAcc t []
              | _ :: _ => lp :: Products.linesAcc t []
              end)
        by (destruct Hc as [->| ->]; reflexivity).
      destruct lp as [|x lp].
      - apply IH; trivial. tauto.
      - rewrite (IH Hq' _ [] [] []); trivial; [|tauto].
        cbn [map]. now rewrite <- app_assoc. }
    destruct (N.eqb_spec c 10) as [E10|N10]; [apply Hbreak; tauto|].
    destruct (N.eqb_spec c 13) as [E13|N13]; [apply Hbreak; tauto|].
    rewrite loop_char by tauto.
    replace (Products.linesAcc (c :: t) lp)
      with (Products.linesAcc t (lp ++ [c]))
      by (cbn [Products.linesAcc];
          now rewrite (proj2 (N.eqb_neq c 10)), (proj2 (N.eqb_neq c 13))).
    apply IH; trivial.
    + intros s. now apply splitAcc_snoc_char.
    + split; [intros H; destruct lp; discriminate|].
      intros [_ H]. destruct cur; discriminate.
Qed.

End TwoReaders.

(** X23. On a text without quote characters and without a byte-order
    mark in front, the reader of the coverage route and the line-based
    reader of the product route see the same cells: [parseCsv] returns
    the non-empty lines of the text, each split at its commas.  The
    product route makes one object per line after the header line, and
    none when there are fewer than two lines. *)
Theorem readers_agree_without_quotes (raw : jsstring) :
  (~ In 34%N raw -> notStart 65279 raw ->
   Csv.parseCsv raw = map Products.splitComma (Products.lines raw)) /\
  length (Products.parseCsvToObjects raw)
  = (length (Products.lines raw) - 1)%nat.
Proof.
  split.
  - intros Hq Hbom. unfold Csv.parseCsv, Products.lines. cbv zeta.
    assert (Hstrip : Csv.stripBOM raw = raw).
    { destruct raw as [|c t]; trivial. simpl in *.
      now rewrite (proj2 (N.eqb_neq c 65279)). }
    rewrite Hstrip.
    rewrite (loop_lines_split raw Hq [] [] [] []); trivial. tauto.
  - unfold Products.parseCsvToObjects. cbv zeta.
    destruct (Products.lines raw) as [|h [|l ls]]; trivial.
    rewrite length_map. simpl. lia.
Qed.

Lemma readers_agree_without_quotes_witness :
  Csv.parseCsv [97; 44; 98; 13; 10; 10; 99; 44; 10]%N
  = map Products.splitComma (Products.lines [97; 44; 98; 13; 10; 10; 99; 44; 10]%N).
Proof.
  apply (proj1 (readers_agree_without_quotes _)).
  - simpl. intuition discriminate.
  - simpl. discriminate.
Defined.

(** A quoted cell with a comma: the two readers differ. *)
Example readers_differ_on_quotes :
  Csv.parseCsv [34; 97; 44; 98; 34; 44; 99]%N = [ [[97; 44; 98]%N; [99]%N] ] /\
  map Products.splitComma (Products.lines [34; 97; 44; 98; 34; 44; 99]%N)
  = [ [[34; 97]%N; [98; 34]%N; [99]%N] ].
Proof. split; reflexivity. Qed.

(* ================================================================== *)
(** ** The paging loop of the product route *)

Section Paging.

Context {A : Type}.
Variable fetchPage : nat -> option (list A).

Lemma fetchLoop_pages (fuel : nat) :
  forall (page : nat) (all res : list A),
    Products.fetchLoop fetchPage fuel page all = Some res ->
    exists n,
      (n <= fuel)%nat /\
      res = all ++ concat (map (fun j => default [] (fetchPage (page + j)))
                               (seq 0 n)) /\
      (forall j, (j < n)%nat ->
                 exists items, fetchPage (page + j) = Some items /\ items <> []) /\
      (forall j, (S j < n)%nat ->
                 (500 <= length (default [] (fetchPage (page + j))))%nat).
Proof.
  induction fuel as [|fuel IH]; intros page all res H; simpl in H.
  - injection H as <-. exists 0%nat. simpl. rewrite app_nil_r.
    repeat split; trivial; intros j Hj; lia.
  - destruct (fetchPage page) as [items|] eqn:Ep; [|discriminate].
    destruct items as [|x items].
    { injection H as <-. exists 0%nat. simpl. rewrite app_nil_r.
      repeat split; trivial; [lia| |]; intros j Hj; lia. }
    destruct (Nat.ltb_spec (length (x :: items)) 500) as [Hshort|Hfull].
    + injection H as <-. exists 1%nat. simpl.
      rewrite Nat.add_0_r, Ep. simpl. rewrite app_nil_r.
      repeat split; trivial; [lia| |]; intros j Hj; [|lia].
      assert (j = 0%nat) as -> by lia. rewrite Nat.add_0_r.
      exists (x :: items). split; [exact Ep|discriminate].
    + apply IH in H. destruct H as (n & Hn & -> & Hne & Hfulls).
      exists (S n). split; [lia|]. split; [|split].
      * rewrite <- app_assoc. f_equal.
        cbn [seq map concat]. rewrite Nat.add_0_r, Ep. cbn [default].
        f_equal. rewrite <- seq_shift, map_map. f_equal.
        apply map_ext. intros j. now rewrite Nat.add_succ_r.
      * intros [|j] Hj.
        -- rewrite Nat.add_0_r. exists (x :: items).
           split; [exact Ep|discriminate].
        -- rewrite Nat.add_succ_r. apply Hne. lia.
      * intros [|j] Hj.
        -- rewrite Nat.add_0_r, Ep. exact Hfull.
        -- rewrite Nat.add_succ_r. apply Hfulls. lia.
Qed.

End Paging.

(** X24. [fetchAll] raises without a service key.  When it returns, the
    result is the concatenation of pages 1, 2, ..., n for some n of at
    most 50; all of them were fetched and not empty, and all but the
    last held at least 500 items; so with pages of at most 500 items the
    result has at most 25,000 items. *)
Theorem fetchAll_pages {A : Type} (fetchPage : nat -> option (list A)) :
  Products.fetchAll false fetchPage = None /\
  (forall res : list A,
      Products.fetchAll true fetchPage = Some res ->
      exists n,
        (n <= 50)%nat /\
        res = concat (map (fun j => default [] (fetchPage (1 + j)%nat)) (seq 0 n)) /\
        (forall j, (j < n)%nat ->
                   exists items, fetchPage (1 + j)%nat = Some items /\ items <> []) /\
        (forall j, (S j < n)%nat ->
                   (500 <= length (default [] (fetchPage (1 + j)%nat)))%nat) /\
        ((forall j items, fetchPage j = Some items ->
                          (length items <= 500)%nat) ->
         (length res <= 500 * 50)%nat)).
Proof.
  split; [reflexivity|]. intros res H. unfold Products.fetchAll in H.
  apply fetchLoop_pages in H. destruct H as (n & Hn & Hres & Hne & Hfull).
  exists n. cbn [app] in Hres. repeat split; trivial.
  intros Hmax. rewrite Hres.
  assert (Hlen : forall m a,
             (length (concat (map (fun j => default [] (fetchPage (1 + j)%nat))
                                  (seq a m))) <= 500 * m)%nat).
  { induction m as [|m IHm]; intros a; cbn [seq map concat length]; [lia|].
    rewrite length_app. specialize (IHm (S a)).
    assert ((length (default [] (fetchPage (1 + a)%nat)) <= 500)%nat).
    { destruct (fetchPage (1 + a)%nat) eqn:E; cbn [default length];
        [now apply (Hmax (1 + a)%nat)|lia]. }
    rewrite Nat.mul_succ_r. lia. }
  specialize (Hlen n 0%nat). nia.
Qed.

Lemma fetchAll_pages_witness :
  let fetchPage :=
    fun page : nat => if (page <? 3)%nat then Some (repeat page 500)
                      else Some (repeat page 7) in
  option_map (@length nat) (Products.fetchAll true fetchPage) = Some (500 + 500 + 7)%nat /\
  exists n,
    (n <= 50)%nat /\
    default [] (Products.fetchAll true fetchPage)
    = concat (map (fun j => default [] (fetchPage (1 + j)%nat)) (seq 0 n)).
Proof.
  intros fetchPage. split; [vm_compute; reflexivity|].
  destruct (Products.fetchAll true fetchPage) as [res|] eqn:E;
    [|vm_compute in E; discriminate].
  destruct (proj2 (fetchAll_pages fetchPage) res E) as (n & Hn & Hres & _).
  exists n. split; [exact Hn|exact Hres].
Defined.

(* ================================================================== *)
(** ** The protected amount shown after routing *)

(** X25. The protected amount the client shows after routing lies
    between the protected total before routing and the eligible total,
    and it equals the eligible total exactly when the idle cash covers
    the excess; this holds when there are rows (or, with no rows, when
    the totals held by the client have protected + excess = eligible). *)
Theorem afterProtected_bounds (limit : Z) (rows : list CoverageRow)
    (totals : CoverageTotals) (mydata : list Account) :
  rows <> [] \/
  (tot_protected totals + tot_excess totals = tot_eligible totals /\
   0 <= tot_excess totals) ->
  let adj := snd (DemoApp.adjusted limit rows totals) in
  let after := DemoApp.afterProtected limit rows totals mydata in
  tot_protected adj <= after <= tot_eligible adj /\
  (after = tot_eligible adj <->
   tot_excess adj <= DemoApp.idleCash (DemoApp.computeRouting limit mydata)).
Proof.
  intros Hpre adj after.
  assert (Hidle : 0 <= DemoApp.idleCash (DemoApp.computeRouting limit mydata)).
  { unfold DemoApp.computeRouting.
    destruct (computeRoutingWith_fields DemoApp.rateOffers limit mydata)
      as (_ & Hi & _).
    rewrite Hi. lia. }
  assert (Hadj : tot_protected adj + tot_excess adj = tot_eligible adj /\
                 0 <= tot_excess adj).
  { subst adj. unfold DemoApp.adjusted.
    destruct rows as [|r0 rows'].
    - destruct Hpre as [H|H]; [congruence|exact H].
    - cbn [snd]. rewrite fold_accumulate, fold_addTotals.
      cbn [tot_protected tot_excess tot_eligible Coverage.zeroTotals].
      generalize (r0 :: rows'). intros l.
      induction l as [|r l IH]; simpl; lia. }
  subst after. unfold DemoApp.afterProtected. cbv zeta. fold adj. lia.
Qed.

Lemma afterProtected_bounds_witness :
  let rows :=
    fst (Coverage.GET 50000000 (Coverage.loadKDICFromText sampleCsv)
           (Mydata.GET sampleCsv 2 1 sampleRand)) in
  let totals :=
    snd (Coverage.GET 50000000 (Coverage.loadKDICFromText sampleCsv)
           (Mydata.GET sampleCsv 2 1 sampleRand)) in
  tot_protected (snd (DemoApp.adjusted 30000000 rows totals))
  <= DemoApp.afterProtected 30000000 rows totals
       (Mydata.GET sampleCsv 2 1 sampleRand)
  <= tot_eligible (snd (DemoApp.adjusted 30000000 rows totals)).
Proof.
  intros rows totals.
  refine (proj1 (afterProtected_bounds 30000000 rows totals _ _)).
  left. vm_compute. discriminate.
Defined.
